(** * Crawler_QPOD: the four batch scripts, embedded and verified

    The repository holds four independent command-line scripts:
    - [download_cif_list.py] pages through a remote table and appends the
      material identifiers it finds to a text file;
    - [dedup_ids.py] removes duplicate identifier lines from that file;
    - [download_cifs.py] fetches one CIF file per identifier and keeps a
      CSV log of what was downloaded;
    - [check_cifs.py] compares the identifier list with the files on disk.

    Each script is embedded as a Rocq function over an explicit world (file
    contents, directory listing, network answers) in a module of its own;
    the properties follow the modules.  A Python [str] is modelled by its
    UTF-8 encoding, a [string] of bytes.  White space and line boundaries
    are those of [str.strip] and [str.splitlines] in all of Unicode, read
    off the encoding; [str.lower] is modelled on ASCII letters only. *)

From Stdlib Require Import ZArith Ascii String List Lia Permutation Sorted.
From stdpp Require Import base decidable option list sorting strings gmap.

(** ** Python string operations used by the scripts *)

Module Py.

(** A byte of the encoding as a number. *)
Definition byte (c : ascii) : nat := nat_of_ascii c.

(** [str.isspace] for the code points of one byte: TAB, LF, VT, FF, CR, FS,
    GS, RS, US and space. *)
Definition isspace (c : ascii) : bool :=
  let n := nat_of_ascii c in
  ((9 <=? n) && (n <=? 13)) || ((28 <=? n) && (n <=? 32)).

(** The white-space code points of two bytes: U+0085 (C2 85) and U+00A0
    (C2 A0). *)
Definition isspace2 (a b : ascii) : bool :=
  (byte a =? 194) && ((byte b =? 133) || (byte b =? 160)).

(** The white-space code points of three bytes: U+1680 (E1 9A 80),
    U+2000..U+200A (E2 80 80..8A), U+2028, U+2029 (E2 80 A8, A9), U+202F
    (E2 80 AF), U+205F (E2 81 9F) and U+3000 (E3 80 80).  With the classes
    above these are all the code points [str.isspace] holds of. *)
Definition isspace3 (a b c : ascii) : bool :=
  ((byte a =? 225) && (byte b =? 154) && (byte c =? 128))
  || ((byte a =? 226) && (byte b =? 128)
      && (((128 <=? byte c) && (byte c <=? 138))
          || (byte c =? 168) || (byte c =? 169) || (byte c =? 175)))
  || ((byte a =? 226) && (byte b =? 129) && (byte c =? 159))
  || ((byte a =? 227) && (byte b =? 128) && (byte c =? 128)).

(** A continuation byte of the encoding, 80..BF: no code point starts with
    one. *)
Definition continuation (c : ascii) : bool :=
  (128 <=? byte c) && (byte c <=? 191).

(** The text does not start in the middle of a code point. *)
Definition starts_code_point (s : string) : bool :=
  match s with
  | String c _ => negb (continuation c)
  | EmptyString => true
  end.

(** The number of bytes of the white-space code point the text starts with;
    0 when it starts with none. *)
Definition space_len (s : string) : nat :=
  match s with
  | String a r =>
      if isspace a then 1
      else match r with
           | String b r' =>
               if isspace2 a b then 2
               else match r' with
                    | String c _ => if isspace3 a b c then 3 else 0
                    | EmptyString => 0
                    end
           | EmptyString => 0
           end
  | EmptyString => 0
  end.

(** [s.lstrip()]: white-space code points are dropped from the front until
    the text starts with none.  [skip] counts the bytes still to drop of the
    code point found last. *)
Fixpoint lstrip_go (skip : nat) (s : string) : string :=
  match s with
  | String _ r =>
      match skip with
      | S k => lstrip_go k r
      | O => match space_len s with
             | O => s
             | S k => lstrip_go k r
             end
      end
  | EmptyString => EmptyString
  end.

Definition lstrip (s : string) : string := lstrip_go 0 s.

(** The text holds white space only. *)
Definition blank (s : string) : bool :=
  match lstrip s with
  | EmptyString => true
  | _ => false
  end.

(** [s.rstrip()]: the text up to its longest final run of white space. *)
Fixpoint rstrip (s : string) : string :=
  match s with
  | String c s' => if blank s then EmptyString else String c (rstrip s')
  | EmptyString => EmptyString
  end.

(** [s.strip()] *)
Definition strip (s : string) : string := rstrip (lstrip s).

(** [s.lower()] on ASCII text, letter by letter; bytes above 127 are left as
    they are.  [str.lower] folds letters outside ASCII too.  Compared with
    an ASCII word that has no k the outcome is the same: the only code
    points outside ASCII whose lower case holds an ASCII letter are U+212A,
    which gives k, and U+0130, which gives i and a combining dot.  That
    covers the tests against .cif and against true, 1, yes, y.  The
    properties that compare two folded file names are stated for ASCII text
    ([is_ascii]) or hold whatever a fold does to the other letters. *)
Definition lower_char (c : ascii) : ascii :=
  let n := nat_of_ascii c in
  if (65 <=? n) && (n <=? 90) then ascii_of_nat (n + 32) else c.

Fixpoint lower (s : string) : string :=
  match s with
  | String c s' => String (lower_char c) (lower s')
  | EmptyString => EmptyString
  end.

(** [s.startswith(p)] *)
Definition startswith (s p : string) : bool := String.prefix p s.

Fixpoint drop (n : nat) (s : string) : string :=
  match n, s with
  | S n', String _ s' => drop n' s'
  | _, _ => s
  end.

(** [s.partition(sep)] when [sep] occurs in [s]: the text before the first
    occurrence and the text after it. *)
Fixpoint partition (sep s : string) : option (string * string) :=
  if String.prefix sep s then Some (EmptyString, drop (String.length sep) s)
  else match s with
       | String c s' =>
           match partition sep s' with
           | Some (b, a) => Some (String c b, a)
           | None => None
           end
       | EmptyString => None
       end.

(** [sep in s] *)
Definition contains (sep s : string) : bool :=
  match partition sep s with Some _ => true | None => false end.

(** [s.split(sep)] for a non-empty [sep]; every cut shortens the rest, so
    [String.length s] rounds are enough. *)
Fixpoint split_upto (n : nat) (sep s : string) : list string :=
  match n with
  | O => [s]
  | S n' =>
      match partition sep s with
      | Some (b, a) => b :: split_upto n' sep a
      | None => [s]
      end
  end.

Definition split (sep s : string) : list string :=
  split_upto (String.length s) sep s.

(** [s.split(sep, 1)] *)
Definition split1 (sep s : string) : list string := split_upto 1 sep s.

(** [sep.join(l)] *)
Definition join (sep : string) (l : list string) : string :=
  String.concat sep l.

Definition LF : ascii := ascii_of_nat 10.
Definition CR : ascii := ascii_of_nat 13.
Definition nl : string := String LF EmptyString.

(** Text-mode reading with universal newlines: CR LF and a lone CR both
    become LF. *)
Fixpoint universal_newlines (s : string) : string :=
  match s with
  | String c s' =>
      if Ascii.eqb c CR then
        match s' with
        | String d s'' =>
            if Ascii.eqb d LF then String LF (universal_newlines s'')
            else String LF (universal_newlines s')
        | EmptyString => String LF EmptyString
        end
      else String c (universal_newlines s')
  | EmptyString => EmptyString
  end.

(** The line boundaries of [str.splitlines] of one byte: LF, VT, FF, CR, FS,
    GS, RS. *)
Definition is_linebreak (c : ascii) : bool :=
  let n := nat_of_ascii c in
  ((10 <=? n) && (n <=? 13)) || ((28 <=? n) && (n <=? 30)).

(** Its boundaries of two and three bytes: U+0085 (C2 85), and U+2028,
    U+2029 (E2 80 A8, A9). *)
Definition is_linebreak2 (a b : ascii) : bool :=
  (byte a =? 194) && (byte b =? 133).

Definition is_linebreak3 (a b c : ascii) : bool :=
  (byte a =? 226) && (byte b =? 128) && ((byte c =? 168) || (byte c =? 169)).

(** The number of bytes of the line boundary the text starts with; CR LF is
    one boundary; 0 when the text starts with none. *)
Definition break_len (s : string) : nat :=
  match s with
  | String a r =>
      if Ascii.eqb a CR then
        match r with
        | String b _ => if Ascii.eqb b LF then 2 else 1
        | EmptyString => 1
        end
      else if is_linebreak a then 1
      else match r with
           | String b r' =>
               if is_linebreak2 a b then 2
               else match r' with
                    | String c _ => if is_linebreak3 a b c then 3 else 0
                    | EmptyString => 0
                    end
           | EmptyString => 0
           end
  | EmptyString => 0
  end.

(** [s.splitlines()]: lines without their terminators; no empty last line
    after a final terminator.  [cur] is the current line, reversed; [skip]
    counts the bytes still to drop of the boundary found last. *)
Fixpoint splitlines_go (skip : nat) (cur : string) (s : string) : list string :=
  match s with
  | String c s' =>
      match skip with
      | S k => splitlines_go k cur s'
      | O => match break_len s with
             | O => splitlines_go 0 (String c cur) s'
             | S k => String.rev cur :: splitlines_go k EmptyString s'
             end
      end
  | EmptyString =>
      match cur with
      | EmptyString => []
      | _ => [String.rev cur]
      end
  end.

Definition splitlines (s : string) : list string :=
  splitlines_go 0 EmptyString s.

(** Iterating over a text file: the lines with their LF kept. *)
Fixpoint readlines_go (cur : string) (s : string) : list string :=
  match s with
  | String c s' =>
      if Ascii.eqb c LF then String.rev (String c cur) :: readlines_go EmptyString s'
      else readlines_go (String c cur) s'
  | EmptyString =>
      match cur with
      | EmptyString => []
      | _ => [String.rev cur]
      end
  end.

Definition readlines (s : string) : list string :=
  readlines_go EmptyString (universal_newlines s).

(** Every byte of [s] satisfies [p]. *)
Fixpoint all_chars (p : ascii -> bool) (s : string) : bool :=
  match s with
  | String c s' => p c && all_chars p s'
  | EmptyString => true
  end.

(** Neither LF nor CR. *)
Definition not_newline (c : ascii) : bool :=
  negb (Ascii.eqb c LF) && negb (Ascii.eqb c CR).

(** A line of a text file as iteration yields it: a body without LF and CR,
    with or without a final LF. *)
Definition is_line (raw : string) : Prop :=
  exists body, all_chars not_newline body = true
               /\ (raw = body \/ raw = (body +:+ nl)%string).

(** No line boundary of [str.splitlines] starts anywhere in [s] when [s] is
    followed by [rest]. *)
Fixpoint no_break_before (rest : string) (s : string) : bool :=
  match s with
  | String c s' =>
      (break_len (s +:+ rest) =? 0) && no_break_before rest s'
  | EmptyString => true
  end.

Definition no_break (s : string) : bool := no_break_before EmptyString s.

(** The only line boundaries of [str.splitlines] in [s] are those a text
    file breaks at as well: LF and CR. *)
Fixpoint plain_breaks (s : string) : bool :=
  match s with
  | String c s' =>
      ((break_len s =? 0) || Ascii.eqb c LF || Ascii.eqb c CR)
      && plain_breaks s'
  | EmptyString => true
  end.

(** ASCII text: every byte is below 128. *)
Definition is_ascii (s : string) : bool :=
  all_chars (fun c => nat_of_ascii c <? 128) s.

(** The bytes decode as UTF-8 (the strict decoder of [open(...,
    encoding="utf-8")]): one byte below 128; a lead byte C2..DF, E0..EF or
    F0..F4 with one, two or three continuation bytes 80..BF, the first of
    them from A0 after E0, up to 9F after ED, from 90 after F0 and up to 8F
    after F4.  [need] counts the continuation bytes still expected, [lo] and
    [hi] bound the next one. *)
Fixpoint valid_utf8_go (need lo hi : nat) (s : string) : bool :=
  match s with
  | String c s' =>
      let x := byte c in
      match need with
      | S k => (lo <=? x) && (x <=? hi) && valid_utf8_go k 128 191 s'
      | O =>
          if x <? 128 then valid_utf8_go 0 128 191 s'
          else if (194 <=? x) && (x <=? 223) then valid_utf8_go 1 128 191 s'
          else if x =? 224 then valid_utf8_go 2 160 191 s'
          else if x =? 237 then valid_utf8_go 2 128 159 s'
          else if (225 <=? x) && (x <=? 239) then valid_utf8_go 2 128 191 s'
          else if x =? 240 then valid_utf8_go 3 144 191 s'
          else if (241 <=? x) && (x <=? 243) then valid_utf8_go 3 128 191 s'
          else if x =? 244 then valid_utf8_go 3 128 143 s'
          else false
      end
  | EmptyString => need =? 0
  end.

Definition valid_utf8 (s : string) : bool := valid_utf8_go 0 128 191 s.

(** [bytes.decode("utf-8")]: the text, or [None] for UnicodeDecodeError.
    Text is kept in its UTF-8 encoding. *)
Definition decode (bytes : string) : option string :=
  if valid_utf8 bytes then Some bytes else None.

End Py.

(** ** dedup_ids.py *)

Module DedupIds.

(** One pass of the [for line in text] loop over the state
    [(seen, deduped)]. *)
Definition dedup_step (st : gset string * list string) (line : string)
  : gset string * list string :=
  let '(seen, deduped) := st in
  if bool_decide (Py.strip line = EmptyString) then st
  else if Py.startswith line "#" then (seen, deduped ++ [line])
  else if bool_decide (line ∈ seen) then st
  else ({[line]} ∪ seen, deduped ++ [line]).

Definition dedup_loop (text : list string) : gset string * list string :=
  foldl dedup_step (∅, []) text.

Definition deduped (text : list string) : list string :=
  snd (dedup_loop text).

(** The two files the script touches. *)
Inductive path := IDS_PATH | BACKUP_PATH.

#[global] Instance path_eq_dec : EqDecision path.
Proof. solve_decision. Defined.

(** File contents; [None] is a file that does not exist. *)
Record files := Files { ids_file : option string; backup_file : option string }.

Definition write_text (p : path) (content : string) (fs : files) : files :=
  match p with
  | IDS_PATH => Files (Some content) (backup_file fs)
  | BACKUP_PATH => Files (ids_file fs) (Some content)
  end.

Inductive event :=
| Wrote (p : path) (content : string)
| PrintUnchanged
| PrintBackupWritten
| PrintCounts (original unique : nat).

(** [IDS_PATH.read_text(encoding="utf-8").splitlines()] *)
Definition read_lines (content : string) : list string :=
  Py.splitlines (Py.universal_newlines content).

(** What [write_text] is given for a list of lines. *)
Definition render (lines : list string) : string :=
  (Py.join Py.nl lines +:+ Py.nl)%string.

(** [main]: the files afterwards and what happened, in order; [None] when
    the identifier file cannot be read and the script dies with the
    exception. *)
Definition main (fs : files) : option (files * list event) :=
  match ids_file fs with
  | None => None
  | Some content =>
      let text := read_lines content in
      let out := deduped text in
      if bool_decide (out = text) then Some (fs, [PrintUnchanged])
      else
        let fs1 := write_text BACKUP_PATH (render text) fs in
        let fs2 := write_text IDS_PATH (render out) fs1 in
        Some (fs2, [Wrote BACKUP_PATH (render text);
                    Wrote IDS_PATH (render out);
                    PrintBackupWritten;
                    PrintCounts (length text) (length out)])
  end.

(** The files an event list wrote to. *)
Definition written (evs : list event) : list path :=
  omap (fun e => match e with Wrote p _ => Some p | _ => None end) evs.

(** *** The contract in the words of the specification

    A line is kept when it is not blank and either is a comment or has not
    occurred among the lines before it. *)
Definition is_blank (line : string) : bool :=
  bool_decide (Py.strip line = EmptyString).

Definition is_comment (line : string) : bool := Py.startswith line "#".

Fixpoint keep_first (before text : list string) : list string :=
  match text with
  | [] => []
  | line :: rest =>
      (if negb (is_blank line)
          && (is_comment line || bool_decide (line ∉ before))
       then [line] else [])
      ++ keep_first (before ++ [line]) rest
  end.

End DedupIds.

(** ** hashlib.sha1

    The downloader names case-colliding files after the SHA-1 digest of the
    identifier.  SHA-1 as in FIPS 180-4, on 32-bit words kept in [Z] with the
    wrap-around written out. *)

Module Sha1.

Local Open Scope Z_scope.

Definition wrap (x : Z) : Z := x mod 2 ^ 32.

Definition add32 (x y : Z) : Z := wrap (x + y).

Definition rotl (n x : Z) : Z :=
  wrap (Z.lor (Z.shiftl x n) (Z.shiftr x (32 - n))).

Definition not32 (x : Z) : Z := Z.lxor x (2 ^ 32 - 1).

(** [material_id.encode("utf-8")]: the bytes of the text. *)
Fixpoint encode (s : string) : list Z :=
  match s with
  | String c s' => Z.of_nat (nat_of_ascii c) :: encode s'
  | EmptyString => []
  end.

(** Big-endian bytes of [x], [n] of them. *)
Fixpoint be_bytes (n : nat) (x : Z) : list Z :=
  match n with
  | O => []
  | S n' => Z.shiftr x (8 * Z.of_nat n') mod 256 :: be_bytes n' x
  end.

(** The message, a one bit, zeros up to 56 modulo 64, and the bit length in
    eight bytes. *)
Definition pad (msg : list Z) : list Z :=
  let len := Z.of_nat (length msg) in
  let zeros := Z.to_nat ((55 - len) mod 64) in
  msg ++ [128] ++ repeat 0 zeros ++ be_bytes 8 (8 * len).

Fixpoint be_word (bytes : list Z) (acc : Z) : Z :=
  match bytes with
  | b :: rest => be_word rest (acc * 256 + b)
  | [] => acc
  end.

(** The sixteen words of a 64-byte block. *)
Fixpoint words (n : nat) (block : list Z) : list Z :=
  match n with
  | O => []
  | S n' => be_word (firstn 4 block) 0 :: words n' (skipn 4 block)
  end.

(** The message schedule, newest word first: [rev_w] holds W[t-1], W[t-2],
    ... and gains W[t] = rotl 1 (W[t-3] xor W[t-8] xor W[t-14] xor W[t-16]). *)
Fixpoint extend (n : nat) (rev_w : list Z) : list Z :=
  match n with
  | O => rev_w
  | S n' =>
      let w := rotl 1 (Z.lxor (Z.lxor (nth 2 rev_w 0) (nth 7 rev_w 0))
                              (Z.lxor (nth 13 rev_w 0) (nth 15 rev_w 0))) in
      extend n' (w :: rev_w)
  end.

Definition schedule (block : list Z) : list Z :=
  rev (extend 64 (rev (words 16 block))).

Definition f (t : nat) (b c d : Z) : Z :=
  if (t <? 20)%nat then Z.lor (Z.land b c) (Z.land (not32 b) d)
  else if (t <? 40)%nat then Z.lxor (Z.lxor b c) d
  else if (t <? 60)%nat then
    Z.lor (Z.lor (Z.land b c) (Z.land b d)) (Z.land c d)
  else Z.lxor (Z.lxor b c) d.

Definition k (t : nat) : Z :=
  if (t <? 20)%nat then 0x5A827999
  else if (t <? 40)%nat then 0x6ED9EBA1
  else if (t <? 60)%nat then 0x8F1BBCDC
  else 0xCA62C1D6.

Definition regs : Type := Z * Z * Z * Z * Z.

Definition round (st : regs) (tw : nat * Z) : regs :=
  let '(a, b, c, d, e) := st in
  let '(t, w) := tw in
  let temp := add32 (add32 (add32 (add32 (rotl 5 a) (f t b c d)) e) (k t)) w in
  (temp, a, rotl 30 b, c, d).

Definition compress (h : regs) (block : list Z) : regs :=
  let '(h0, h1, h2, h3, h4) := h in
  let '(a, b, c, d, e) := foldl round h (imap pair (schedule block)) in
  (add32 h0 a, add32 h1 b, add32 h2 c, add32 h3 d, add32 h4 e).

Fixpoint blocks (n : nat) (h : regs) (bytes : list Z) : regs :=
  match n with
  | O => h
  | S n' => blocks n' (compress h (firstn 64 bytes)) (skipn 64 bytes)
  end.

Definition init : regs :=
  (0x67452301, 0xEFCDAB89, 0x98BADCFE, 0x10325476, 0xC3D2E1F0).

Definition digest (msg : list Z) : regs :=
  let padded := pad msg in
  blocks (length padded / 64) init padded.

Definition hex_digit (x : Z) : ascii :=
  if x <? 10 then ascii_of_nat (Z.to_nat (48 + x))
  else ascii_of_nat (Z.to_nat (87 + x)).

(** [n] hexadecimal digits of [x], most significant first. *)
Fixpoint hex (n : nat) (x : Z) : string :=
  match n with
  | O => EmptyString
  | S n' => String (hex_digit (Z.shiftr x (4 * Z.of_nat n') mod 16)) (hex n' x)
  end.

(** [hashlib.sha1(data).hexdigest()] *)
Definition hexdigest (msg : list Z) : string :=
  let '(h0, h1, h2, h3, h4) := digest msg in
  (hex 8 h0 +:+ hex 8 h1 +:+ hex 8 h2 +:+ hex 8 h3 +:+ hex 8 h4)%string.

End Sha1.

(** ** check_cifs.py *)

Module CheckCifs.

Definition CASEFIX_SUFFIX : string := "__casefix-".

(** What [iterdir] yields: the entry's name and whether [is_file()] holds. *)
Record entry := Entry { name : string; is_file : bool }.

(** [iter_ids]: the non-blank, non-comment lines of the list, stripped. *)
Definition iter_ids_step (ids : gset string) (raw : string) : gset string :=
  let line := Py.strip raw in
  if negb (bool_decide (line = EmptyString)) && negb (Py.startswith line "#")
  then {[line]} ∪ ids else ids.

Definition iter_ids (content : string) : gset string :=
  foldl iter_ids_step ∅ (Py.readlines content).

(** [name.rfind('.')] *)
Fixpoint rfind_dot (s : string) : option nat :=
  match s with
  | String c s' =>
      match rfind_dot s' with
      | Some i => Some (S i)
      | None => if Ascii.eqb c "." then Some 0 else None
      end
  | EmptyString => None
  end.

(** [PurePath.suffix] and [PurePath.stem]: cut at the last dot unless it is
    the first or the last character of the name. *)
Definition dot_index (n : string) : option nat :=
  match rfind_dot n with
  | Some i => if (0 <? i) && (i <? String.length n - 1) then Some i else None
  | None => None
  end.

Definition suffix (n : string) : string :=
  match dot_index n with
  | Some i => Py.drop i n
  | None => EmptyString
  end.

Definition stem (n : string) : string :=
  match dot_index n with
  | Some i => String.substring 0 i n
  | None => n
  end.

(** The body of the [if CASEFIX_SUFFIX in stem] statement. *)
Definition strip_casefix (s : string) : string :=
  if Py.contains CASEFIX_SUFFIX s
  then hd s (Py.split1 CASEFIX_SUFFIX s)
  else s.

Definition iter_cif_names_step (names : gset string) (e : entry) : gset string :=
  if is_file e && bool_decide (Py.lower (suffix (name e)) = ".cif")
  then {[strip_casefix (stem (name e))]} ∪ names
  else names.

(** [iter_cif_names]; [None] is a directory that does not exist. *)
Definition iter_cif_names (directory : option (list entry)) : gset string :=
  match directory with
  | None => ∅
  | Some entries => foldl iter_cif_names_step ∅ entries
  end.

(** [sorted(s)] of a set of [str]: ascending in code-point order, which on
    UTF-8 text is the byte order. *)
Definition sorted (s : gset string) : list string :=
  merge_sort String.le (elements s).

Inductive event :=
| PrintTotal (n : nat)
| PrintFound (n : nat)
| PrintEmptyLine
| PrintMissingHeader
| PrintNoMissing
| PrintExtraHeader
| PrintNoExtra
| PrintItem (mid : string)
| WroteMissingFile (content : string)
| PrintSaved.

Record report := Report {
  missing : list string;
  extra : list string;
  events : list event
}.

Definition report_list (header none : event) (l : list string) : list event :=
  match l with
  | [] => [none]
  | _ => header :: map PrintItem l
  end.

(** [main] over the content of the identifier list and the directory;
    [None] when the list cannot be opened and the script dies there. *)
Definition main (ids_file : option string) (cif_dir : option (list entry))
  : option report :=
  match ids_file with
  | None => None
  | Some content =>
      let expected := iter_ids content in
      let actual := iter_cif_names cif_dir in
      let missing := sorted (expected ∖ actual) in
      let extra := sorted (actual ∖ expected) in
      Some (Report missing extra
              ([PrintTotal (size expected); PrintFound (size actual);
                PrintEmptyLine]
               ++ report_list PrintMissingHeader PrintNoMissing missing
               ++ [PrintEmptyLine]
               ++ report_list PrintExtraHeader PrintNoExtra extra
               ++ [WroteMissingFile (Py.join Py.nl missing); PrintSaved]))
  end.

(** The missing-IDs file after the run, if it was written. *)
Definition missing_file (r : report) : option string :=
  last (omap (fun e => match e with WroteMissingFile c => Some c | _ => None end)
             (events r)).

(** The stems that count: of the files whose suffix is [.cif] in any
    letter case. *)
Definition cif_stem (e : entry) (x : string) : Prop :=
  is_file e = true /\ Py.lower (suffix (name e)) = ".cif"
  /\ x = strip_casefix (stem (name e)).

(** *** The case-fix rule in the words of the specification

    A stem ending in [__casefix-] and hexadecimal digits loses that ending;
    any other stem is left as it is. *)
Definition is_hex_char (c : ascii) : bool :=
  let n := nat_of_ascii c in
  ((48 <=? n) && (n <=? 57)) || ((97 <=? n) && (n <=? 102))
  || ((65 <=? n) && (n <=? 70)).

Fixpoint is_hex (s : string) : bool :=
  match s with
  | String c s' => is_hex_char c && is_hex s'
  | EmptyString => true
  end.

Definition is_hex_suffix (s : string) : bool :=
  match s with
  | EmptyString => false
  | _ => is_hex s
  end.

Fixpoint strip_casefix_hex (s : string) : string :=
  match s with
  | String c s' =>
      if String.prefix CASEFIX_SUFFIX s
         && is_hex_suffix (Py.drop (String.length CASEFIX_SUFFIX) s)
      then EmptyString
      else String c (strip_casefix_hex s')
  | EmptyString => EmptyString
  end.

End CheckCifs.

(** ** download_cifs.py *)

Module DownloadCifs.

(** *** The world of a run *)

(** A cell of a log row as [csv.DictReader] yields it: the row has no such
    key (the header lacks the column), the value is [None] (the line is
    shorter than the header), or it is a text. *)
Inductive cell := NoKey | NoneValue | Text (s : string).

#[global] Instance cell_eq_dec : EqDecision cell.
Proof. solve_decision. Defined.

(** A row of the log, a dict: its cells under "id" and "downloaded", and
    whether it has any other key (another column of the header, or the key
    [None] of a line longer than the header). *)
Record row := Row { row_id : cell; row_downloaded : cell; row_extra : bool }.

#[global] Instance row_eq_dec : EqDecision row.
Proof. solve_decision. Defined.

(** [str(row.get(key, ""))] *)
Definition cell_str (c : cell) : string :=
  match c with
  | NoKey => EmptyString
  | NoneValue => "None"
  | Text s => s
  end.

(** What [csv.DictWriter] writes for a cell: a missing key is filled with
    the empty text, and [None] is written as the empty text. *)
Definition cell_text (c : cell) : string :=
  match c with
  | NoKey => EmptyString
  | NoneValue => EmptyString
  | Text s => s
  end.

(** A row as [DictReader] yields it from the file once [DictWriter] has
    written it under the header id, downloaded. *)
Definition written (r : row) : row :=
  Row (Text (cell_text (row_id r))) (Text (cell_text (row_downloaded r))) false.

(** The log file: missing; present but failing to open or to be read with an
    OSError; making the reader raise any other exception (bytes that are not
    UTF-8, say); or holding the rows [csv.DictReader] yields. *)
Inductive log_file :=
| LogAbsent
| LogUnreadable
| LogUndecodable
| LogRows (rows : list row).

#[global] Instance log_file_eq_dec : EqDecision log_file.
Proof. solve_decision. Defined.

(** An entry of the output directory: its name and what [entry.is_file()]
    says of it.  An entry that is not a file is taken to be a directory;
    links and special files are left out. *)
Record entry := Entry { name : string; is_file : bool }.

(** The output directory: missing, listing its entries in [iterdir] order,
    or a path at which [mkdir] or the listing raises. *)
Inductive dir_state := NoDir | Dir (entries : list entry) | Blocked.

(** What [urlopen] and [response.read] do for a request. *)
Inductive response :=
| Response (status : nat) (data : string)
| HTTPError (code : nat) (reason : string)
| URLError (reason : string)
| TimeoutError
| OtherError (exc : string).

Inductive message :=
| MsgSkip (material_id path : string)
| MsgFailStatus (material_id : string) (status : nat)
| MsgFailHTTP (material_id : string) (code : nat) (reason : string)
| MsgFailNetwork (material_id reason : string)
| MsgFailTimeout (material_id : string)
| MsgFailWrite (material_id : string)
| MsgOk (material_id path : string)
| MsgUnexpected (material_id exc : string)
| MsgAllDownloaded
| MsgCompleted (downloaded total : nat)
| WarnLogRead
| WarnLogWrite.

(** What writing a file runs into: nothing; an OSError before the file is
    touched (it cannot be opened or created); an OSError after [open] has
    created or emptied it. *)
Inductive fault := NoFault | OpenFault | WriteFault.

(** The part of the world that does not change during a run. *)
Record env := Env {
  http : string -> response;          (* the server's answer to a GET of a URL *)
  file_write : string -> fault;       (* what writing a file of that name runs into *)
  file_place : string -> nat;         (* where [iterdir] lists a new file of that name *)
  log_write : nat -> fault;           (* what the n-th [write_log] runs into *)
  log_left : nat -> log_file;         (* the log a write that failed midway leaves *)
  schedule : list string -> list string  (* the order in which the pool finishes tasks *)
}.

(** The part that does. *)
Record state := State {
  dir : dir_state;
  requests : list string;             (* URLs handed to [urlopen] so far *)
  printed : list message;
  log_disk : log_file;
  log_trace : list (list row)         (* the rows handed to each [write_log] *)
}.

Definition print (m : message) (st : state) : state :=
  State (dir st) (requests st) (printed st ++ [m]) (log_disk st) (log_trace st).

Definition set_dir (d : dir_state) (st : state) : state :=
  State d (requests st) (printed st) (log_disk st) (log_trace st).

Definition request (url : string) (st : state) : state :=
  State (dir st) (requests st ++ [url]) (printed st) (log_disk st) (log_trace st).

Definition set_log (f : log_file) (st : state) : state :=
  State (dir st) (requests st) (printed st) f (log_trace st).

(** *** load_log, write_log, iter_material_ids *)

(** [load_log]: the rows, or the exception that is not an OSError and goes
    through the [except] clause. *)
Definition load_log (st : state) : string + list row * state :=
  match log_disk st with
  | LogAbsent => inr ([], st)
  | LogUnreadable => inr ([], print WarnLogRead st)
  | LogUndecodable => inl "UnicodeDecodeError"%string
  | LogRows rows => inr (rows, st)
  end.

(** [write_log]: the exception it lets through, if any, and the state
    afterwards.  An OSError is caught and reported: before the file is
    touched it leaves the log as it was, later it leaves what the
    environment says.  Without an OSError the file is emptied, the header
    and the rows are written in order, and the first row with a key besides
    id and downloaded makes [DictWriter] raise ValueError, which is not
    caught: the file then holds the rows before that one. *)
Definition write_log (e : env) (rows : list row) (st : state)
  : option string * state :=
  let n := length (log_trace st) in
  let st := State (dir st) (requests st) (printed st) (log_disk st)
                  (log_trace st ++ [rows]) in
  match log_write e n with
  | OpenFault => (None, print WarnLogWrite st)
  | WriteFault => (None, print WarnLogWrite (set_log (log_left e n) st))
  | NoFault =>
      match list_find (fun r => row_extra r = true) rows with
      | Some (k, _) =>
          (Some "ValueError"%string, set_log (LogRows (written <$> take k rows)) st)
      | None => (None, set_log (LogRows (written <$> rows)) st)
      end
  end.

Inductive system_exit := FailedToReadIds | NoMaterialIds.

Definition iter_material_ids_step (material_ids : list string) (raw_line : string)
  : list string :=
  let material_id := Py.strip raw_line in
  if bool_decide (material_id = EmptyString) || Py.startswith material_id "#"
  then material_ids
  else material_ids ++ [material_id].

(** [iter_material_ids] over the text of the file; [None] is a file that
    cannot be opened or read (OSError).  Decoding the bytes of the file into
    that text is [read_ids] below. *)
Definition iter_material_ids (ids_file : option string)
  : system_exit + list string :=
  match ids_file with
  | None => inl FailedToReadIds
  | Some content =>
      match foldl iter_material_ids_step [] (Py.readlines content) with
      | [] => inl NoMaterialIds
      | material_ids => inr material_ids
      end
  end.

(** *** download_cif *)

Definition BASE_URL (id : string) : string :=
  ("https://qpod.fysik.dtu.dk/material/" +:+ id +:+ "/download/cif")%string.

Inductive scan := ExactCase (e : entry) | CaseCollision | NoMatch.

(** The [for entry in output_dir.iterdir()] loop of [resolve_output_path]:
    it stops at the first file whose lower-cased name is the target's. *)
Fixpoint scan_dir (target_name target_lower : string) (entries : list entry) : scan :=
  match entries with
  | [] => NoMatch
  | e :: rest =>
      if negb (is_file e) then scan_dir target_name target_lower rest
      else if negb (bool_decide (Py.lower (name e) = target_lower))
      then scan_dir target_name target_lower rest
      else if bool_decide (name e = target_name) then ExactCase e
      else CaseCollision
  end.

Definition casefix_suffix (material_id : string) : string :=
  String.substring 0 8 (Sha1.hexdigest (Sha1.encode material_id)).

(** [resolve_output_path] once the directory exists: the file name to use
    inside [output_dir] and the skip mark. *)
Definition resolve_output_path (material_id : string) (entries : list entry)
  : string * bool :=
  let target_name := (material_id +:+ ".cif")%string in
  let target_lower := Py.lower target_name in
  match scan_dir target_name target_lower entries with
  | ExactCase e => (name e, true)
  | NoMatch => (target_name, false)
  | CaseCollision =>
      ((material_id +:+ "__casefix-" +:+ casefix_suffix material_id +:+ ".cif")%string,
       false)
  end.

(** [output_dir.mkdir(parents=True, exist_ok=True)] *)
Definition mkdir (d : dir_state) : option (list entry) :=
  match d with
  | NoDir => Some []
  | Dir entries => Some entries
  | Blocked => None
  end.

Definition path_exists (n : string) (entries : list entry) : bool :=
  existsb (fun e => bool_decide (name e = n)) entries.

(** The listing once a file of that name has been created or emptied: as it
    was when the name is there; otherwise with the new file where the file
    system puts it, the other entries keeping their order. *)
Definition placed (k : nat) (x : entry) (entries : list entry) : list entry :=
  take k entries ++ x :: drop k entries.

Definition touch (e : env) (n : string) (entries : list entry) : list entry :=
  if path_exists n entries then entries
  else placed (file_place e n) (Entry n true) entries.

Definition NUL : string := String (ascii_of_nat 0) EmptyString.

Inductive write_result :=
| FileWritten (entries : list entry)
| WriteFailed (entries : list entry)
| WriteRaised (exc : string).

(** [output_path.write_bytes(data)], that is [open(path, "wb")] and a write,
    with the listing of [output_dir] afterwards.  A name with a NUL makes
    [open] raise ValueError, which [except OSError] lets through.  A name
    with a slash is a path out of the top of [output_dir]: its file is not
    an entry of the listing, which the model keeps as it was (where such a
    path leads back into the directory is left out; the properties of the
    directory are stated for names without a slash).  A name taken by a
    directory cannot be opened.  Otherwise the environment says whether
    [open] fails, leaving the listing as it was, or the write fails after
    [open] has created or emptied the file, or all is written. *)
Definition write_bytes (e : env) (n : string) (entries : list entry)
  : write_result :=
  if Py.contains NUL n then WriteRaised "ValueError"
  else if Py.contains "/" n then
    match file_write e n with
    | NoFault => FileWritten entries
    | _ => WriteFailed entries
    end
  else if existsb (fun x => bool_decide (name x = n) && negb (is_file x)) entries
  then WriteFailed entries
  else
    match file_write e n with
    | NoFault => FileWritten (touch e n entries)
    | OpenFault => WriteFailed entries
    | WriteFault => WriteFailed (touch e n entries)
    end.

Inductive task_result := Returned (success : bool) | Raised (exc : string).

Definition download_cif (e : env) (material_id : string) (st : state)
  : task_result * state :=
  let url := BASE_URL material_id in
  match mkdir (dir st) with
  | None => (Raised "mkdir", st)
  | Some entries =>
      let st := set_dir (Dir entries) st in
      let '(output_path, already_exists) := resolve_output_path material_id entries in
      if already_exists && path_exists output_path entries then
        (Returned true, print (MsgSkip material_id output_path) st)
      else
        let st := request url st in
        match http e url with
        | Response status data =>
            if negb (status =? 200) then
              (Returned false, print (MsgFailStatus material_id status) st)
            else
              match write_bytes e output_path entries with
              | WriteRaised exc => (Raised exc, st)
              | WriteFailed entries' =>
                  (Returned false,
                   print (MsgFailWrite material_id) (set_dir (Dir entries') st))
              | FileWritten entries' =>
                  (Returned true,
                   print (MsgOk material_id output_path) (set_dir (Dir entries') st))
              end
        | HTTPError code reason =>
            (Returned false, print (MsgFailHTTP material_id code reason) st)
        | URLError reason =>
            (Returned false, print (MsgFailNetwork material_id reason) st)
        | TimeoutError => (Returned false, print (MsgFailTimeout material_id) st)
        | OtherError exc => (Raised exc, st)
        end
  end.

(** *** main *)

(** The identifier a log row stands for:
    [str(row.get("id", "")).strip()]. *)
Definition row_key (r : row) : string := Py.strip (cell_str (row_id r)).

(** [index]: the position of the first row of each non-empty stripped id. *)
Definition build_index_step (index : gmap string nat) (ir : nat * row)
  : gmap string nat :=
  let material_id := row_key ir.2 in
  if negb (bool_decide (material_id = EmptyString))
     && bool_decide (index !! material_id = None)
  then <[material_id := ir.1]> index
  else index.

Definition build_index (log_rows : list row) : gmap string nat :=
  foldl build_index_step ∅ (imap pair log_rows).

Definition truthy (s : string) : bool :=
  bool_decide (Py.lower (Py.strip s) ∈ ["true"; "1"; "yes"; "y"]).

(** [str(log_rows[idx].get("downloaded", "")).strip().lower() in {...}] *)
Definition marked (r : row) : bool := truthy (cell_str (row_downloaded r)).

Definition marked_downloaded (log_rows : list row) (idx : nat) : bool :=
  match log_rows !! idx with
  | Some r => marked r
  | None => false
  end.

Definition initially_downloaded (index : gmap string nat) (log_rows : list row)
  : gset string :=
  dom (filter (fun kv => marked_downloaded log_rows kv.2) index).

(** The variables of [main] that the result loop updates. *)
Record locals := Locals {
  downloaded : nat;
  previously_downloaded : gset string;
  index : gmap string nat;
  log_rows : list row
}.

Definition bool_str (b : bool) : string := if b then "True" else "False".

(** [{"id": material_id, "downloaded": str(success)}] *)
Definition result_row (material_id : string) (success : bool) : row :=
  Row (Text material_id) (Text (bool_str success)) false.

(** The body of [for future in as_completed(future_to_id)]: the exception
    [write_log] lets through, if any, and the variables and the state
    afterwards.  The log path is a [pathlib.Path], which is always true, so
    the log branch is taken. *)
Definition record_result (e : env) (ls : locals * state)
  (res : string * task_result) : option string * (locals * state) :=
  let '(l, st) := ls in
  let '(material_id, r) := res in
  let '(success, st) :=
    match r with
    | Returned b => (b, st)
    | Raised exc => (false, print (MsgUnexpected material_id exc) st)
    end in
  let n := if success then S (downloaded l) else downloaded l in
  let prev := if success then {[material_id]} ∪ previously_downloaded l
              else previously_downloaded l in
  let new := result_row material_id success in
  let '(idx, rows) :=
    match index l !! material_id with
    | Some i => (index l, <[i := new]> (log_rows l))
    | None => (<[material_id := length (log_rows l)]> (index l), log_rows l ++ [new])
    end in
  let '(exc, st) := write_log e rows st in
  (exc, (Locals n prev idx rows, st)).

Inductive outcome :=
| SystemExit (why : system_exit)
| Exit (code : nat)
| Uncaught (exc : string).

Definition ids_to_process (material_ids : list string) (prev : gset string)
  : list string :=
  filter (fun mid => mid ∉ prev) material_ids.

(** One task and the recording of its result.  The pool is taken one task
    at a time, in the order [schedule] gives: each task runs on the state the
    one before left, and its result is recorded before the next one runs. *)
Definition run_task_raising (e : env) (ls : locals * state) (material_id : string)
  : option string * (locals * state) :=
  let '(l, st) := ls in
  let '(r, st) := download_cif e material_id st in
  record_result e (l, st) (material_id, r).

(** The variables and the state after it. *)
Definition run_task (e : env) (ls : locals * state) (material_id : string)
  : locals * state :=
  (run_task_raising e ls material_id).2.

(** The exception it raised, if any. *)
Definition raised (e : env) (ls : locals * state) (material_id : string)
  : option string :=
  (run_task_raising e ls material_id).1.

(** The tasks whose results are never taken: leaving the [with] block waits
    for every submitted task, so they still run. *)
Definition drain (e : env) (st : state) (tasks : list string) : state :=
  foldl (fun st material_id => (download_cif e material_id st).2) st tasks.

(** The [with ThreadPoolExecutor] block: the exception that ends it, if any,
    and the variables and the state afterwards. *)
Fixpoint run_pool (e : env) (ls : locals * state) (tasks : list string)
  : option string * (locals * state) :=
  match tasks with
  | [] => (None, ls)
  | material_id :: rest =>
      match raised e ls material_id with
      | Some exc =>
          (Some exc, ((run_task e ls material_id).1,
                      drain e (run_task e ls material_id).2 rest))
      | None => run_pool e (run_task e ls material_id) rest
      end
  end.

(** [main] from line 169 on, over the text of the identifier file: the way
    it ends, the loop variables at the end and the world afterwards.
    [load_log] is always called, since the log path is always true. *)
Definition main (e : env) (ids_file : option string) (st : state)
  : outcome * locals * state :=
  match iter_material_ids ids_file with
  | inl why => (SystemExit why, Locals 0 ∅ ∅ [], st)
  | inr material_ids =>
      match load_log st with
      | inl exc => (Uncaught exc, Locals 0 ∅ ∅ [], st)
      | inr (rows, st) =>
          let idx := build_index rows in
          let prev := initially_downloaded idx rows in
          let l := Locals 0 prev idx rows in
          match ids_to_process material_ids prev with
          | [] => (Exit 0, l, print MsgAllDownloaded st)
          | todo =>
              match run_pool e (l, st) (schedule e todo) with
              | (Some exc, (l, st)) => (Uncaught exc, l, st)
              | (None, (l, st)) =>
                  match write_log e (log_rows l) st with
                  | (Some exc, st) => (Uncaught exc, l, st)
                  | (None, st) =>
                      let st :=
                        print (MsgCompleted (downloaded l) (length material_ids)) st in
                      (Exit (if downloaded l =? 0 then 1 else 0), l, st)
                  end
              end
          end
      end
  end.

(** The identifier file as the disk has it: its bytes, or [None] when it
    cannot be opened or read.  The text-mode handle decodes the bytes as
    UTF-8 while it is iterated; bytes that are not UTF-8 raise
    UnicodeDecodeError, a ValueError, which the [except OSError] of
    [iter_material_ids] lets through. *)
Definition read_ids (ids_bytes : option string) : string + option string :=
  match ids_bytes with
  | None => inr None
  | Some bytes =>
      match Py.decode bytes with
      | Some content => inr (Some content)
      | None => inl "UnicodeDecodeError"%string
      end
  end.

(** [main] on the bytes of the identifier file. *)
Definition main_on_bytes (e : env) (ids_bytes : option string) (st : state)
  : outcome * locals * state :=
  match read_ids ids_bytes with
  | inl exc => (Uncaught exc, Locals 0 ∅ ∅ [], st)
  | inr ids_file => main e ids_file st
  end.

(** [raise SystemExit(main(sys.argv[1:]))]: the exit status of the process.
    SystemExit with a message and an uncaught exception both give 1. *)
Definition exit_status (o : outcome) : nat :=
  match o with
  | Exit code => code
  | SystemExit _ => 1
  | Uncaught _ => 1
  end.

(** *** Notions used to state the properties *)

(** The first file of the listing whose name is the target's in some letter
    case. *)
Definition first_match (material_id : string) (entries : list entry)
  : option entry :=
  find (fun e => is_file e
                 && bool_decide (Py.lower (name e)
                                 = Py.lower (material_id +:+ ".cif")))
       entries.

Definition succeeded (r : task_result) : bool :=
  match r with
  | Returned b => b
  | Raised _ => false
  end.

(** The tasks of a pool with the success of each one's download, in the
    order they finish. *)
Fixpoint pool_results (e : env) (ls : locals * state) (tasks : list string)
  : list (string * bool) :=
  match tasks with
  | [] => []
  | material_id :: rest =>
      (material_id, succeeded (download_cif e material_id ls.2).1)
        :: pool_results e (run_task e ls material_id) rest
  end.

(** The pool when no recording raises. *)
Definition run_tasks (e : env) (ls : locals * state) (tasks : list string)
  : locals * state :=
  foldl (run_task e) ls tasks.

(** The locals and the state with which the pool starts. *)
Definition main_start (st : state) : locals * state :=
  match load_log st with
  | inr (rows, st) =>
      let idx := build_index rows in
      (Locals 0 (initially_downloaded idx rows) idx rows, st)
  | inl _ => (Locals 0 ∅ ∅ [], st)
  end.

(** The identifiers [main] hands to the pool, in the order they finish. *)
Definition main_tasks (e : env) (ids_file : option string) (st : state)
  : list string :=
  match iter_material_ids ids_file, load_log st with
  | inr material_ids, inr (rows, _) =>
      match ids_to_process material_ids
              (initially_downloaded (build_index rows) rows) with
      | [] => []
      | todo => schedule e todo
      end
  | _, _ => []
  end.

Definition main_results (e : env) (ids_file : option string) (st : state)
  : list (string * bool) :=
  pool_results e (main_start st) (main_tasks e ids_file st).

(** The position of the first row that stands for [material_id]. *)
Definition first_row (material_id : string) (rows : list row) : option nat :=
  fst <$> list_find (fun r => row_key r = material_id) rows.

(** The rows that stand for [material_id], in the order of the log. *)
Definition rows_of (material_id : string) (rows : list row) : list row :=
  filter (fun r => row_key r = material_id) rows.


(** The index holds, for every identifier, its first row. *)
Definition indexed (index : gmap string nat) (rows : list row) : Prop :=
  forall id, index !! id
             = if decide (id = EmptyString) then None else first_row id rows.

(** An identifier as [iter_material_ids] yields them: stripped and not
    empty. *)
Definition is_material_id (s : string) : Prop :=
  s <> EmptyString /\ Py.strip s = s.

(** The lines of an identifier list that count, stripped, in file order. *)
Definition listed (content : string) : list string :=
  filter (fun s => s <> EmptyString /\ Py.startswith s "#" = false)
         (Py.strip <$> Py.readlines content).

(** No row has a key besides id and downloaded: the rows [DictWriter]
    accepts. *)
Definition accepted (rows : list row) : Prop :=
  Forall (fun r => row_extra r = false) rows.

(** The rows of the log file, none when there is none to read. *)
Definition disk_rows (f : log_file) : list row :=
  match f with
  | LogRows rows => rows
  | _ => []
  end.

(** A name that is one path component: no slash and no NUL. *)
Definition plain_name (s : string) : Prop :=
  Py.contains "/" s = false /\ Py.contains NUL s = false.

End DownloadCifs.

(** ** download_cif_list.py *)

Module DownloadCifList.

(** A parsed result page, as far as the script looks at it.  A table row is
    given by the link targets of the anchors in its header cells; the
    next-page control by the class list of the [li] around it. *)
Inductive next_control :=
| NoNext                              (* no anchor labelled >, › or Next *)
| NextWithoutItem                     (* the anchor has no [li] ancestor *)
| NextIn (li_classes : list string).

Record page := Page {
  rows : list (list string);          (* [soup.select("tbody tr")] *)
  next_btn : next_control
}.

Definition MATERIAL : string := "/material/".

(** [row.select_one("th a[href*='/material/']")] *)
Definition select_anchor (row : list string) : option string :=
  find (fun href => Py.contains MATERIAL href) row.

(** [links]: the anchors of the rows that have one. *)
Definition links (p : page) : list string := omap select_anchor (rows p).

(** [a["href"].split("/material/")[1]]; [None] is the IndexError. *)
Definition material_id_of (href : string) : option string :=
  Py.split MATERIAL href !! 1%nat.

Record state := State {
  existing_ids : gset string;
  file : string;                      (* the output file, appended to *)
  page_no : nat;
  fetched : list nat                  (* the page numbers requested, in order *)
}.

(** Loading [existing_ids] from an output file that is already there. *)
Definition load_existing_step (ids : gset string) (raw : string) : gset string :=
  let line := Py.strip raw in
  if bool_decide (line = EmptyString) then ids else {[line]} ∪ ids.

Definition load_existing (output_file : option string) : gset string :=
  match output_file with
  | None => ∅
  | Some content => foldl load_existing_step ∅ (Py.readlines content)
  end.

Definition start (output_file : option string) : state :=
  State (load_existing output_file) (default EmptyString output_file) 0 [].

(** The [for a in links] loop: new identifiers are appended to the file. *)
Definition write_link (st : option (gset string * string)) (href : string)
  : option (gset string * string) :=
  match st, material_id_of href with
  | Some (ids, out), Some material_id =>
      if bool_decide (material_id ∈ ids) then Some (ids, out)
      else Some ({[material_id]} ∪ ids, (out +:+ material_id +:+ Py.nl)%string)
  | _, _ => None
  end.

Definition disabled (n : next_control) : bool :=
  match n with
  | NextIn classes => bool_decide ("disabled" ∈ classes)
  | _ => false
  end.

Inductive stop := NoRows | NoLinks | NoNextButton | LastPage | Crashed.

Inductive status := Stopped (why : stop) | Running.

(** One round of [while True] on a page that was fetched: either the reason
    of the [break] or the state for the next round. *)
Definition process_page (p : page) (st : state) : stop * state + state :=
  match rows p with
  | [] => inl (NoRows, st)
  | _ =>
      match links p with
      | [] => inl (NoLinks, st)
      | ls =>
          match foldl write_link (Some (existing_ids st, file st)) ls with
          | None => inl (Crashed, st)
          | Some (ids, out) =>
              let st := State ids out (page_no st) (fetched st) in
              match next_btn p with
              | NoNext => inl (NoNextButton, st)
              | nb =>
                  if disabled nb then inl (LastPage, st)
                  else inr (State ids out (S (page_no st)) (fetched st))
              end
          end
      end
  end.

(** The [while True] loop.  [site] gives the page the server holds under
    each page number; [net] says for each request in turn whether it gets
    through.  A request that fails is repeated; when [net] is used up the
    loop is still running. *)
Fixpoint scrape (site : nat -> page) (net : list bool) (st : state)
  : status * state :=
  match net with
  | [] => (Running, st)
  | ok :: net' =>
      let st := State (existing_ids st) (file st) (page_no st)
                      (fetched st ++ [page_no st]) in
      if ok then
        match process_page (site (page_no st)) st with
        | inl (why, st') => (Stopped why, st')
        | inr st' => scrape site net' st'
        end
      else scrape site net' st
  end.

(** *** Notions used to state the properties *)

(** The identifiers a page shows. *)
Definition page_ids (p : page) : list string := omap material_id_of (links p).

(** The round stops on this page. *)
Definition stops (p : page) (st : state) : Prop :=
  exists why st', process_page p st = inl (why, st').

(** A page after which the loop asks for the next one: it has a row with a
    material link and a next-page control that is not disabled. *)
Definition goes_on (p : page) : bool :=
  match links p, next_btn p with
  | [], _ => false
  | _, NoNext => false
  | _, nb => negb (disabled nb)
  end.

(** A page with material links whose next-page control is disabled. *)
Definition is_last (p : page) : bool :=
  match links p with
  | [] => false
  | _ => disabled (next_btn p)
  end.

(** The identifiers of [mids] that are new with respect to [seen], each at
    its first occurrence. *)
Fixpoint fresh (seen : gset string) (mids : list string) : list string :=
  match mids with
  | [] => []
  | m :: rest =>
      if bool_decide (m ∈ seen) then fresh seen rest
      else m :: fresh ({[m]} ∪ seen) rest
  end.

(** The text appended to the file for these identifiers, one per line. *)
Fixpoint lines_of (mids : list string) : string :=
  match mids with
  | [] => EmptyString
  | m :: rest => (m +:+ Py.nl +:+ lines_of rest)%string
  end.

(** The identifiers of the pages numbered [k], ..., [k + n - 1]. *)
Definition ids_of_pages (site : nat -> page) (k n : nat) : list string :=
  flat_map (fun j => page_ids (site j)) (seq k n).

(** From [st] to [st'] the identifiers [new] were appended to the file and
    added to the known ones, each new and each once. *)
Definition appended (st st' : state) (new : list string) : Prop :=
  file st' = (file st +:+ lines_of new)%string
  /\ existing_ids st' = existing_ids st ∪ list_to_set new
  /\ NoDup new
  /\ forall m, m ∈ new -> m ∉ existing_ids st.

(** How many requests of [net] get through. *)
Definition successes (net : list bool) : nat :=
  length (filter (fun ok => ok = true) net).

End DownloadCifList.

(** * Properties *)

(** ** Strings *)

(** Arithmetic on the numbers of bytes. *)
Ltac byte_lia :=
  unfold Py.byte in *;
  repeat match goal with
         | H : context [nat_of_ascii ?c] |- _ => generalize dependent (nat_of_ascii c); intros
         | |- context [nat_of_ascii ?c] => generalize dependent (nat_of_ascii c); intros
         end;
  lia.

Section strings.

Implicit Types (s t u : string) (c : ascii).

Lemma append_cons c s t : (String c s +:+ t)%string = String c (s +:+ t).
Proof. reflexivity. Qed.

Lemma append_nil_l t : ("" +:+ t)%string = t.
Proof. reflexivity. Qed.

Lemma append_nil_r s : (s +:+ "")%string = s.
Proof. induction s as [|c s IH]; [done | by rewrite append_cons, IH]. Qed.

Lemma append_assoc s t u : ((s +:+ t) +:+ u = s +:+ (t +:+ u))%string.
Proof. induction s as [|c s IH]; [done | by rewrite !append_cons, IH]. Qed.

Lemma length_append s t :
  String.length (s +:+ t) = String.length s + String.length t.
Proof.
  induction s as [|c s IH]; [done|]. rewrite append_cons. simpl. by rewrite IH.
Qed.

Lemma rev_app_append s t : String.rev_app s t = (String.rev s +:+ t)%string.
Proof.
  unfold String.rev. revert t.
  induction s as [|c s IH]; intros t; simpl; [done|].
  rewrite (IH (String c t)), (IH (String c "")), append_assoc. done.
Qed.

Lemma rev_cons c s : String.rev (String c s) = (String.rev s +:+ String c "")%string.
Proof. unfold String.rev at 1. simpl. apply rev_app_append. Qed.

Lemma rev_append s t : String.rev (s +:+ t) = (String.rev t +:+ String.rev s)%string.
Proof.
  induction s as [|c s IH].
  - by rewrite append_nil_l, append_nil_r.
  - by rewrite append_cons, !rev_cons, IH, append_assoc.
Qed.

Lemma rev_involutive s : String.rev (String.rev s) = s.
Proof.
  induction s as [|c s IH]; [done|].
  by rewrite rev_cons, rev_append, IH.
Qed.

Lemma rev_nil_inv s : String.rev s = "" → s = "".
Proof. intros H. by rewrite <- (rev_involutive s), H. Qed.

Lemma all_chars_append p s t :
  Py.all_chars p (s +:+ t) = Py.all_chars p s && Py.all_chars p t.
Proof.
  induction s as [|c s IH]; [done|].
  rewrite append_cons. simpl. by rewrite IH, andb_assoc.
Qed.

Lemma all_chars_rev p s : Py.all_chars p (String.rev s) = Py.all_chars p s.
Proof.
  induction s as [|c s IH]; [done|].
  rewrite rev_cons, all_chars_append, IH. simpl.
  rewrite andb_true_r. apply andb_comm.
Qed.

(** *** White space *)

Lemma length_drop n s : String.length (Py.drop n s) = String.length s - n.
Proof.
  revert s. induction n as [|n IH]; intros [|c s]; simpl; auto with lia.
Qed.

Lemma drop_nil n : Py.drop n "" = "".
Proof. by destruct n. Qed.

Lemma drop_app_le n s t :
  n ≤ String.length s → Py.drop n (s +:+ t) = (Py.drop n s +:+ t)%string.
Proof.
  revert s. induction n as [|n IH]; intros [|c s] Hn; simpl in *; try done; try lia.
  apply IH. lia.
Qed.

Lemma all_chars_drop p n s :
  Py.all_chars p s = true → Py.all_chars p (Py.drop n s) = true.
Proof.
  revert s. induction n as [|n IH]; intros [|c s]; simpl; try done.
  intros [_ ?]%andb_true_iff. by apply IH.
Qed.

Lemma isspace2_continuation a b :
  Py.isspace2 a b = true → Py.continuation b = true.
Proof.
  unfold Py.isspace2, Py.continuation.
  rewrite !andb_true_iff, !orb_true_iff, !Nat.eqb_eq, !Nat.leb_le. byte_lia.
Qed.

Lemma isspace3_continuation a b c :
  Py.isspace3 a b c = true → Py.continuation b = true ∧ Py.continuation c = true.
Proof.
  unfold Py.isspace3, Py.continuation.
  repeat (rewrite andb_true_iff || rewrite orb_true_iff).
  rewrite !Nat.eqb_eq, !Nat.leb_le. byte_lia.
Qed.

Lemma isspace_continuation c : Py.isspace c = true → Py.continuation c = false.
Proof.
  unfold Py.isspace, Py.continuation. intros H.
  apply andb_false_iff. rewrite !Nat.leb_gt.
  rewrite !orb_true_iff, !andb_true_iff, !Nat.leb_le in H. byte_lia.
Qed.

Lemma space_len_le s : Py.space_len s ≤ String.length s.
Proof.
  destruct s as [|a [|b [|c s]]]; simpl; repeat case_match; lia.
Qed.

(** What follows a white-space code point does not matter. *)
Lemma space_len_app s t :
  0 < Py.space_len s → Py.space_len (s +:+ t) = Py.space_len s.
Proof.
  destruct s as [|a [|b [|c s]]]; simpl; try lia;
    repeat case_match; try lia; try done.
Qed.

(** A text that starts with no white space does not start with any when a
    text follows that starts a code point. *)
Lemma space_len_app_0 s t :
  s ≠ "" → Py.space_len s = 0 → Py.starts_code_point t = true →
  Py.space_len (s +:+ t) = 0.
Proof.
  intros Hs H0 Ht.
  destruct s as [|a [|b [|c s]]]; [done|..]; simpl in *.
  - destruct (Py.isspace a); [done|]. destruct t as [|h [|h' t]]; [done|..];
      simpl in *; apply negb_true_iff in Ht.
    + destruct (Py.isspace2 a h) eqn:E; [|done].
      apply isspace2_continuation in E. congruence.
    + destruct (Py.isspace2 a h) eqn:E.
      { apply isspace2_continuation in E. congruence. }
      destruct (Py.isspace3 a h h') eqn:E3; [|done].
      apply isspace3_continuation in E3 as [? _]. congruence.
  - destruct (Py.isspace a); [done|]. destruct (Py.isspace2 a b); [done|].
    destruct t as [|h t]; [done|]. simpl in *. apply negb_true_iff in Ht.
    destruct (Py.isspace3 a b h) eqn:E3; [|done].
    apply isspace3_continuation in E3 as [_ ?]. congruence.
  - done.
Qed.

Lemma lstrip_go_drop k s : Py.lstrip_go k s = Py.lstrip (Py.drop k s).
Proof.
  revert k. induction s as [|c s IH]; intros [|k]; try done.
  simpl. apply IH.
Qed.

Lemma lstrip_unfold s :
  Py.lstrip s = match Py.space_len s with
                | O => s
                | S k => Py.lstrip (Py.drop (S k) s)
                end.
Proof.
  destruct s as [|c s]; [done|]. unfold Py.lstrip at 1.
  cbn [Py.lstrip_go]. destruct (Py.space_len (String c s)); [done|].
  cbn [Py.drop]. apply lstrip_go_drop.
Qed.

Lemma lstrip_fixed s : Py.space_len s = 0 → Py.lstrip s = s.
Proof. intros H. by rewrite lstrip_unfold, H. Qed.

(** Induction along [lstrip]. *)
Lemma lstrip_ind (P : string → Prop) :
  (∀ s, Py.space_len s = 0 → P s) →
  (∀ s, 0 < Py.space_len s → P (Py.drop (Py.space_len s) s) → P s) →
  ∀ s, P s.
Proof.
  intros H0 HS s. remember (String.length s) as n eqn:Hn. revert s Hn.
  induction n as [n IH] using lt_wf_ind. intros s ->.
  destruct (Py.space_len s) as [|k] eqn:E; [by apply H0|].
  apply HS; [lia|]. rewrite E.
  pose proof (space_len_le s).
  apply (IH (String.length (Py.drop (S k) s))); [|done].
  rewrite length_drop. lia.
Qed.

End strings.

Section strip.

Implicit Types (s t w : string) (c : ascii).

Lemma blank_iff s : Py.blank s = true ↔ Py.lstrip s = "".
Proof. unfold Py.blank. by destruct (Py.lstrip s). Qed.

Lemma blank_false_iff s : Py.blank s = false ↔ Py.lstrip s ≠ "".
Proof. unfold Py.blank. by destruct (Py.lstrip s). Qed.

Lemma lstrip_pos s :
  0 < Py.space_len s → Py.lstrip s = Py.lstrip (Py.drop (Py.space_len s) s).
Proof.
  intros H. rewrite lstrip_unfold at 1. destruct (Py.space_len s); [lia|done].
Qed.

Lemma space_len_lstrip s : Py.space_len (Py.lstrip s) = 0.
Proof.
  induction s as [s H|s H IH] using lstrip_ind.
  - by rewrite lstrip_fixed.
  - by rewrite lstrip_pos.
Qed.

Lemma lstrip_idem s : Py.lstrip (Py.lstrip s) = Py.lstrip s.
Proof. apply lstrip_fixed, space_len_lstrip. Qed.

Lemma all_chars_lstrip p s :
  Py.all_chars p s = true → Py.all_chars p (Py.lstrip s) = true.
Proof.
  induction s as [s H|s H IH] using lstrip_ind; intros Hp.
  - by rewrite lstrip_fixed.
  - rewrite lstrip_pos by done. by apply IH, all_chars_drop.
Qed.

(** White space in front of a text is stripped with the text's own. *)
Lemma lstrip_app_blank s t :
  Py.blank s = true → Py.lstrip (s +:+ t) = Py.lstrip t.
Proof.
  induction s as [s H|s H IH] using lstrip_ind; intros Hb.
  - apply blank_iff in Hb. rewrite lstrip_fixed in Hb by done. by subst.
  - pose proof (space_len_le s).
    rewrite lstrip_pos by (rewrite space_len_app; done).
    rewrite space_len_app, drop_app_le by done. apply IH.
    apply blank_iff. apply blank_iff in Hb. by rewrite <- lstrip_pos.
Qed.

(** A text with more than white space keeps what follows it. *)
Lemma lstrip_app_not_blank s t :
  Py.blank s = false → Py.starts_code_point t = true →
  Py.lstrip (s +:+ t) = (Py.lstrip s +:+ t)%string.
Proof.
  intros Hb Ht. induction s as [s H|s H IH] using lstrip_ind.
  - assert (s ≠ "") as Hs by (by intros ->).
    by rewrite !lstrip_fixed by (done || by apply space_len_app_0).
  - pose proof (space_len_le s).
    rewrite (lstrip_pos (s +:+ t)) by (rewrite space_len_app; done).
    rewrite space_len_app, drop_app_le by done.
    rewrite (lstrip_pos s) by done. apply IH.
    apply blank_false_iff. apply blank_false_iff in Hb.
    by rewrite <- lstrip_pos.
Qed.

Lemma space_len_pos_starts s :
  0 < Py.space_len s → Py.starts_code_point s = true.
Proof.
  destruct s as [|a s]; [done|]. simpl. intros H. apply negb_true_iff.
  destruct (Py.isspace a) eqn:E1; [by apply isspace_continuation|].
  destruct s as [|b s]; [lia|].
  assert (194 ≤ Py.byte a) as Ha.
  { destruct (Py.isspace2 a b) eqn:E2.
    - unfold Py.isspace2 in E2.
      apply andb_true_iff in E2 as [E2 _]. apply Nat.eqb_eq in E2. lia.
    - destruct s as [|c s]; [lia|].
      destruct (Py.isspace3 a b c) eqn:E3; [|lia]. unfold Py.isspace3 in E3.
      repeat (rewrite andb_true_iff in E3 || rewrite orb_true_iff in E3).
      rewrite !Nat.eqb_eq in E3. clear H. byte_lia. }
  unfold Py.continuation. apply andb_false_iff. right. apply Nat.leb_gt. lia.
Qed.

Lemma blank_starts s : Py.blank s = true → Py.starts_code_point s = true.
Proof.
  intros Hb%blank_iff. destruct (Py.space_len s) as [|k] eqn:E.
  - rewrite lstrip_fixed in Hb by done. by subst.
  - apply space_len_pos_starts. lia.
Qed.

Lemma blank_app s t :
  Py.blank (s +:+ t) = Py.blank s && Py.blank t
  ∨ Py.starts_code_point t = false.
Proof.
  destruct (Py.starts_code_point t) eqn:Ht; [left|by right].
  destruct (Py.blank s) eqn:Hs.
  - unfold Py.blank at 1. by rewrite lstrip_app_blank.
  - apply blank_false_iff. rewrite lstrip_app_not_blank by done.
    apply blank_false_iff in Hs. by destruct (Py.lstrip s).
Qed.

Lemma blank_app_blank s w :
  Py.blank w = true → Py.blank (s +:+ w) = Py.blank s.
Proof.
  intros Hw. destruct (blank_app s w) as [-> | H].
  - by rewrite Hw, andb_true_r.
  - apply blank_starts in Hw. congruence.
Qed.

Lemma rstrip_nil_iff s : Py.rstrip s = "" ↔ Py.blank s = true.
Proof.
  destruct s as [|c s]; [done|]. cbn [Py.rstrip].
  by destruct (Py.blank (String c s)).
Qed.

Lemma rstrip_split s :
  ∃ w, s = (Py.rstrip s +:+ w)%string ∧ Py.blank w = true.
Proof.
  induction s as [|c s (w & Hs & Hw)]; [by exists ""|]. cbn [Py.rstrip].
  destruct (Py.blank (String c s)) eqn:E.
  - by exists (String c s).
  - exists w. by rewrite append_cons, <- Hs.
Qed.

Lemma rstrip_app_blank s w :
  Py.blank w = true → Py.rstrip (s +:+ w) = Py.rstrip s.
Proof.
  intros Hw. induction s as [|c s IH].
  - by apply rstrip_nil_iff.
  - rewrite append_cons. cbn [Py.rstrip].
    rewrite (blank_app_blank (String c s) w Hw : Py.blank (String c (s +:+ w)) = _).
    by rewrite IH.
Qed.

Lemma rstrip_idem s : Py.rstrip (Py.rstrip s) = Py.rstrip s.
Proof.
  destruct (rstrip_split s) as (w & Hs & Hw).
  rewrite Hs at 2. by rewrite rstrip_app_blank.
Qed.

Lemma space_len_rstrip s : Py.space_len s = 0 → Py.space_len (Py.rstrip s) = 0.
Proof.
  intros H. destruct (rstrip_split s) as (w & Hs & _).
  destruct (Py.space_len (Py.rstrip s)) as [|k] eqn:E; [done|].
  rewrite Hs, space_len_app in H; lia.
Qed.

Lemma all_chars_rstrip p s :
  Py.all_chars p s = true → Py.all_chars p (Py.rstrip s) = true.
Proof.
  induction s as [|c s IH]; [done|]. cbn [Py.rstrip Py.all_chars].
  intros [Hc Hs]%andb_true_iff. destruct (Py.blank _); [done|].
  cbn [Py.all_chars]. by rewrite Hc, IH.
Qed.

(** A line is blank for [strip] exactly when it holds white space only. *)
Lemma strip_nil_iff s : Py.strip s = "" ↔ Py.blank s = true.
Proof.
  unfold Py.strip. rewrite rstrip_nil_iff, !blank_iff. by rewrite lstrip_idem.
Qed.

Lemma strip_nil : Py.strip "" = "".
Proof. done. Qed.

Lemma strip_idempotent s : Py.strip (Py.strip s) = Py.strip s.
Proof.
  unfold Py.strip.
  rewrite (lstrip_fixed (Py.rstrip _)) by apply space_len_rstrip, space_len_lstrip.
  apply rstrip_idem.
Qed.

(** White space after a text is stripped with the text's own. *)
Lemma strip_app_blank s w : Py.blank w = true → Py.strip (s +:+ w) = Py.strip s.
Proof.
  intros Hw. unfold Py.strip. destruct (Py.blank s) eqn:Hs.
  - rewrite lstrip_app_blank by done. apply blank_iff in Hw, Hs.
    by rewrite Hw, Hs.
  - rewrite lstrip_app_not_blank by (done || by apply blank_starts).
    by apply rstrip_app_blank.
Qed.

Lemma strip_blank_app w s : Py.blank w = true → Py.strip (w +:+ s) = Py.strip s.
Proof. intros Hw. unfold Py.strip. by rewrite lstrip_app_blank. Qed.

Lemma all_chars_strip p s :
  Py.all_chars p s = true → Py.all_chars p (Py.strip s) = true.
Proof. intros H. by apply all_chars_rstrip, all_chars_lstrip. Qed.

Lemma blank_nl : Py.blank Py.nl = true.
Proof. done. Qed.

Lemma strip_append_nl s : Py.strip (s +:+ Py.nl) = Py.strip s.
Proof. apply strip_app_blank, blank_nl. Qed.

Lemma comment_not_blank s : Py.startswith s "#" = true → Py.strip s ≠ "".
Proof.
  intros H Hs%strip_nil_iff%blank_iff. destruct s as [|c s]; [done|].
  unfold Py.startswith in H. cbn [String.prefix] in H.
  destruct (ascii_dec "#" c) as [<-|]; [|done].
  rewrite lstrip_fixed in Hs; [done|]. by destruct s as [|b [|d s]].
Qed.

(** A stripped text that is not empty is not blank, and neither end of it
    is white space. *)
Lemma stripped_not_blank s : s ≠ "" → Py.strip s = s → Py.blank s = false.
Proof.
  intros Hs Heq. destruct (Py.blank s) eqn:E; [|done].
  apply strip_nil_iff in E. congruence.
Qed.

Lemma stripped_lstrip s : Py.strip s = s → Py.lstrip s = s.
Proof.
  intros H. rewrite <- H at 1. unfold Py.strip.
  rewrite (lstrip_fixed (Py.rstrip _)) by apply space_len_rstrip, space_len_lstrip.
  done.
Qed.

End strip.

(** *** Line boundaries *)

Section line_breaks.

Implicit Types (s t l cur rest : string) (c : ascii).

Lemma is_linebreak2_continuation a b :
  Py.is_linebreak2 a b = true → Py.continuation b = true.
Proof.
  unfold Py.is_linebreak2, Py.continuation.
  repeat (rewrite andb_true_iff || rewrite orb_true_iff).
  rewrite !Nat.eqb_eq, !Nat.leb_le. byte_lia.
Qed.

Lemma is_linebreak3_continuation a b c :
  Py.is_linebreak3 a b c = true
  → Py.continuation b = true ∧ Py.continuation c = true.
Proof.
  unfold Py.is_linebreak3, Py.continuation.
  repeat (rewrite andb_true_iff || rewrite orb_true_iff).
  rewrite !Nat.eqb_eq, !Nat.leb_le. byte_lia.
Qed.

Lemma break_len_le s : Py.break_len s ≤ String.length s.
Proof.
  destruct s as [|a [|b [|c s]]]; simpl; repeat case_match; lia.
Qed.

(** A boundary stays one whatever follows. *)
Lemma break_len_app s t : 0 < Py.break_len s → 0 < Py.break_len (s +:+ t).
Proof.
  destruct s as [|a [|b [|c s]]]; simpl; try lia;
    repeat case_match; try lia; try done.
Qed.

(** A text that starts with no boundary does not start with any when a text
    follows that starts a code point. *)
Lemma break_len_app_0 s t :
  s ≠ "" → Py.break_len s = 0 → Py.starts_code_point t = true →
  Py.break_len (s +:+ t) = 0.
Proof.
  intros Hs H0 Ht.
  destruct s as [|a [|b [|c s]]]; [done|..]; simpl in *.
  - destruct (Ascii.eqb a Py.CR); [done|].
    destruct (Py.is_linebreak a); [done|]. destruct t as [|h [|h' t]]; [done|..];
      simpl in *; apply negb_true_iff in Ht.
    + destruct (Py.is_linebreak2 a h) eqn:E; [|done].
      apply is_linebreak2_continuation in E. congruence.
    + destruct (Py.is_linebreak2 a h) eqn:E.
      { apply is_linebreak2_continuation in E. congruence. }
      destruct (Py.is_linebreak3 a h h') eqn:E3; [|done].
      apply is_linebreak3_continuation in E3 as [? _]. congruence.
  - destruct (Ascii.eqb a Py.CR); [by destruct (Ascii.eqb b Py.LF)|].
    destruct (Py.is_linebreak a); [done|].
    destruct (Py.is_linebreak2 a b); [done|].
    destruct t as [|h t]; [done|]. simpl in *. apply negb_true_iff in Ht.
    destruct (Py.is_linebreak3 a b h) eqn:E3; [|done].
    apply is_linebreak3_continuation in E3 as [_ ?]. congruence.
  - done.
Qed.

Lemma no_break_before_nil_r s : Py.no_break_before "" s = Py.no_break s.
Proof. done. Qed.

(** A line without boundaries has none in front of a text that starts a
    code point, and the other way round. *)
Lemma no_break_before_intro rest s :
  Py.starts_code_point rest = true → Py.no_break s = true →
  Py.no_break_before rest s = true.
Proof.
  intros Hr. unfold Py.no_break. induction s as [|c s IH]; [done|].
  cbn [Py.no_break_before]. rewrite append_nil_r.
  intros [H0 Hs]%andb_true_iff. apply Nat.eqb_eq in H0.
  rewrite IH by done. rewrite break_len_app_0 by done. done.
Qed.

Lemma no_break_before_elim rest s :
  Py.no_break_before rest s = true → Py.no_break s = true.
Proof.
  unfold Py.no_break. induction s as [|c s IH]; [done|].
  cbn [Py.no_break_before]. rewrite append_nil_r.
  intros [H0 Hs]%andb_true_iff. apply Nat.eqb_eq in H0.
  rewrite IH by done. rewrite andb_true_r. apply Nat.eqb_eq.
  destruct (Py.break_len (String c s)) as [|k] eqn:E; [done|].
  pose proof (break_len_app (String c s) rest). lia.
Qed.

Lemma no_break_before_snoc c rest s :
  Py.no_break_before (String c rest) s = true →
  Py.break_len (String c rest) = 0 →
  Py.no_break_before rest (s +:+ String c "") = true.
Proof.
  intros Hs Hc. induction s as [|a s IH].
  - rewrite append_nil_l. cbn [Py.no_break_before].
    by rewrite (append_cons c "" rest), append_nil_l, Hc.
  - cbn [Py.no_break_before] in Hs. apply andb_true_iff in Hs as [H0 Hs].
    rewrite append_cons. cbn [Py.no_break_before].
    rewrite IH by done. rewrite andb_true_r.
    rewrite <- append_cons, append_assoc. done.
Qed.

(** A line without boundaries holds neither LF nor CR. *)
Lemma no_break_not_newline s :
  Py.no_break s = true → Py.all_chars Py.not_newline s = true.
Proof.
  unfold Py.no_break. induction s as [|c s IH]; [done|].
  cbn [Py.no_break_before Py.all_chars]. rewrite append_nil_r.
  intros [H0 Hs]%andb_true_iff. apply Nat.eqb_eq in H0.
  rewrite IH by done. rewrite andb_true_r. unfold Py.not_newline.
  simpl in H0. destruct (Ascii.eqb c Py.CR) eqn:Hcr.
  { by destruct s as [|d s]; [|destruct (Ascii.eqb d Py.LF)]. }
  destruct (Ascii.eqb c Py.LF) eqn:Hlf; [|done].
  apply Ascii.eqb_eq in Hlf as ->. done.
Qed.

Lemma splitlines_go_drop k : ∀ s cur,
  Py.splitlines_go k cur s = Py.splitlines_go 0 cur (Py.drop k s).
Proof.
  induction k as [|k IH]; intros [|c s] cur; try done.
  cbn [Py.splitlines_go Py.drop]. apply IH.
Qed.

Lemma splitlines_go_unfold cur s :
  Py.splitlines_go 0 cur s
  = match s with
    | String c s' =>
        match Py.break_len s with
        | O => Py.splitlines_go 0 (String c cur) s'
        | S k => String.rev cur :: Py.splitlines_go 0 "" (Py.drop (S k) s)
        end
    | EmptyString => match cur with "" => [] | _ => [String.rev cur] end
    end.
Proof.
  destruct s as [|c s]; [done|]. cbn [Py.splitlines_go].
  destruct (Py.break_len (String c s)); [done|].
  cbn [Py.drop]. by rewrite splitlines_go_drop.
Qed.

(** A line without boundaries in front of LF is read as that line. *)
Lemma splitlines_go_line l : ∀ cur rest,
  Py.no_break l = true →
  Py.splitlines_go 0 cur (l +:+ String Py.LF rest)
  = String.rev (String.rev_app l cur) :: Py.splitlines_go 0 "" rest.
Proof.
  intros cur rest Hl.
  apply (no_break_before_intro (String Py.LF rest)) in Hl; [|done].
  revert cur. induction l as [|c l IH]; intros cur.
  - rewrite append_nil_l, splitlines_go_unfold.
    change (Py.break_len (String Py.LF rest)) with 1. done.
  - cbn [Py.no_break_before] in Hl. apply andb_true_iff in Hl as [H0 Hl].
    apply Nat.eqb_eq in H0. rewrite splitlines_go_unfold, append_cons.
    rewrite append_cons in H0. rewrite H0. by rewrite IH.
Qed.

(** Every line [splitlines] yields is free of boundaries. *)
Lemma splitlines_go_no_break n : ∀ s cur,
  String.length s ≤ n → Py.no_break_before s (String.rev cur) = true →
  Forall (λ l, Py.no_break l = true) (Py.splitlines_go 0 cur s).
Proof.
  induction n as [|n IH]; intros s cur Hn Hcur.
  - destruct s; [|simpl in Hn; lia]. simpl.
    destruct cur; constructor; [|done]. done.
  - rewrite splitlines_go_unfold. destruct s as [|c s].
    { destruct cur; constructor; [|done]. done. }
    simpl in Hn. destruct (Py.break_len (String c s)) as [|k] eqn:Hc.
    + apply IH; [lia|]. rewrite rev_cons. by apply no_break_before_snoc.
    + constructor; [by eapply no_break_before_elim|].
      apply IH; [|done]. cbn [Py.drop]. rewrite length_drop. lia.
Qed.

Lemma splitlines_no_break s :
  Forall (λ l, Py.no_break l = true) (Py.splitlines s).
Proof. by eapply splitlines_go_no_break. Qed.

Lemma universal_newlines_no_cr s :
  Py.all_chars (λ c, negb (Ascii.eqb c Py.CR)) s = true → Py.universal_newlines s = s.
Proof.
  induction s as [|c s IH]; [done|]. simpl.
  intros [Hc Hs]%andb_true_iff. apply negb_true_iff in Hc. rewrite Hc.
  by rewrite IH.
Qed.

Lemma not_newline_no_cr s :
  Py.all_chars Py.not_newline s = true →
  Py.all_chars (λ c, negb (Ascii.eqb c Py.CR)) s = true.
Proof.
  induction s as [|c s IH]; [done|]. simpl.
  intros [[_ Hc]%andb_true_iff Hs]%andb_true_iff. by rewrite Hc, IH.
Qed.

End line_breaks.

(** ** dedup_ids.py: the deduplicated sequence *)

Section dedup.

Import DedupIds.

Lemma dedup_step_keep_first text : ∀ seen acc before,
  (∀ l, is_blank l = false → is_comment l = false → l ∈ seen ↔ l ∈ before) →
  (foldl dedup_step (seen, acc) text).2 = acc ++ keep_first before text.
Proof.
  induction text as [|line rest IH]; intros seen acc before Hinv; simpl.
  { by rewrite app_nil_r. }
  unfold is_blank, is_comment.
  destruct (bool_decide (Py.strip line = "")) eqn:Hb; simpl.
  { apply IH. intros l Hl1 Hl2. rewrite Hinv, elem_of_app, list_elem_of_singleton by done.
    split; [auto|]. intros [?| ->]; [done|]. unfold is_blank in Hl1. congruence. }
  destruct (Py.startswith line "#") eqn:Hc; simpl.
  { rewrite (IH _ _ (before ++ [line])); [by rewrite <- app_assoc|].
    intros l Hl1 Hl2. rewrite Hinv, elem_of_app, list_elem_of_singleton by done.
    split; [auto|]. intros [?| ->]; [done|]. unfold is_comment in Hl2. congruence. }
  assert (line ∈ seen ↔ line ∈ before) as Hline by (by apply Hinv).
  destruct (bool_decide (line ∈ seen)) eqn:Hs.
  - apply bool_decide_eq_true in Hs.
    rewrite bool_decide_eq_false_2 by tauto. simpl.
    apply IH. intros l Hl1 Hl2.
    rewrite Hinv, elem_of_app, list_elem_of_singleton by done.
    split; [auto|]. intros [?| ->]; tauto.
  - apply bool_decide_eq_false in Hs.
    rewrite bool_decide_eq_true_2 by tauto. simpl.
    rewrite (IH _ _ (before ++ [line])); [by rewrite <- app_assoc|].
    intros l Hl1 Hl2.
    rewrite elem_of_union, elem_of_singleton, elem_of_app, list_elem_of_singleton.
    rewrite Hinv by done. tauto.
Qed.

(** The loop computes what the contract describes. *)
Lemma deduped_keep_first text : deduped text = keep_first [] text.
Proof.
  unfold deduped, dedup_loop.
  rewrite (dedup_step_keep_first text ∅ [] []); [done|].
  intros l _ _. rewrite elem_of_nil. set_solver.
Qed.

Lemma keep_first_comments before text :
  filter (λ l, is_comment l) (keep_first before text)
  = filter (λ l, is_comment l) text.
Proof.
  revert before. induction text as [|line rest IH]; intros before; [done|].
  simpl. rewrite filter_app, IH.
  destruct (is_comment line) eqn:Hc.
  - assert (is_blank line = false) as ->.
    { apply bool_decide_eq_false. by apply comment_not_blank. }
    simpl. rewrite !filter_cons_True by (by apply Is_true_true). done.
  - rewrite (filter_cons_False _ line) by (intros ?%Is_true_true; congruence).
    destruct (negb (is_blank line) && _); [|done].
    rewrite filter_cons_False by (intros ?%Is_true_true; congruence). done.
Qed.

Lemma keep_first_sublist before text : sublist (keep_first before text) text.
Proof.
  revert before. induction text as [|line rest IH]; intros before; simpl.
  { constructor. }
  destruct (negb (is_blank line) && _); simpl.
  - by apply sublist_skip.
  - by apply sublist_cons.
Qed.

Lemma keep_first_elem before text l :
  l ∈ keep_first before text → l ∈ text ∧ is_blank l = false.
Proof.
  revert before. induction text as [|line rest IH]; intros before; simpl.
  { by intros ?%elem_of_nil. }
  rewrite elem_of_app. intros [H|H].
  - destruct (is_blank line) eqn:Hb; simpl in H; [by apply elem_of_nil in H|].
    destruct (is_comment line || _); [|by apply elem_of_nil in H].
    apply list_elem_of_singleton in H as ->. split; [left|done].
  - apply IH in H as [? ?]. split; [by right|done].
Qed.

Lemma keep_first_fresh before text l :
  l ∈ keep_first before text → is_comment l = false → l ∉ before.
Proof.
  revert before. induction text as [|line rest IH]; intros before; simpl.
  { by intros ?%elem_of_nil. }
  rewrite elem_of_app. intros [H|H] Hc.
  - destruct (negb (is_blank line) && (is_comment line || _)) eqn:E;
      [|by apply elem_of_nil in H].
    apply list_elem_of_singleton in H as ->.
    apply andb_true_iff in E as [_ E]. rewrite Hc in E. simpl in E.
    by apply bool_decide_eq_true in E.
  - specialize (IH _ H Hc). rewrite elem_of_app in IH. tauto.
Qed.

Lemma keep_first_NoDup before text :
  NoDup (filter (λ l, ¬ is_comment l) (keep_first before text)).
Proof.
  revert before. induction text as [|line rest IH]; intros before; simpl.
  { constructor. }
  rewrite filter_app.
  destruct (negb (is_blank line) && (is_comment line || _)) eqn:E; [|apply IH].
  rewrite filter_cons. destruct (decide (¬ is_comment line)) as [Hc|Hc]; [|apply IH].
  simpl. constructor; [|apply IH].
  intros [Hl Hin]%list_elem_of_filter.
  apply keep_first_fresh in Hin.
  - apply Hin. rewrite elem_of_app, list_elem_of_singleton. by right.
  - by destruct (is_comment line).
Qed.

Lemma keep_first_complete before text l :
  l ∈ text → is_blank l = false → l ∈ keep_first before text ∨ l ∈ before.
Proof.
  revert before. induction text as [|line rest IH]; intros before; simpl.
  { by intros ?%elem_of_nil. }
  intros [->|Hin]%elem_of_cons Hb.
  - rewrite Hb. simpl. destruct (is_comment line); simpl.
    + left. left.
    + destruct (decide (line ∈ before)) as [?|Hn]; [by right|].
      left. rewrite bool_decide_eq_true_2 by done. left.
  - destruct (IH (before ++ [line]) Hin Hb) as [H|H].
    + left. rewrite elem_of_app. by right.
    + apply elem_of_app in H as [H|H]; [by right|].
      apply list_elem_of_singleton in H as ->.
      destruct (decide (line ∈ before)) as [?|Hn]; [by right|]. left.
      rewrite Hb, bool_decide_eq_true_2, orb_true_r by done. left.
Qed.

End dedup.

(** ** dedup_ids.py: reading back what was written *)

Section dedup_files.

Import DedupIds.

Lemma render_cons l ls :
  render (l :: ls)
  = (l +:+ String Py.LF (match ls with [] => "" | _ => render ls end))%string.
Proof.
  unfold render, Py.join. destruct ls as [|l2 ls]; simpl.
  - done.
  - by rewrite !append_assoc.
Qed.

Lemma splitlines_render ls :
  ls ≠ [] → Forall (λ l, Py.no_break l = true) ls →
  Py.splitlines (render ls) = ls.
Proof.
  induction ls as [|l ls IH]; [done|]. intros _ Hall.
  apply Forall_cons in Hall as [Hl Hall].
  rewrite render_cons. unfold Py.splitlines.
  rewrite splitlines_go_line by done.
  change (String.rev_app l "") with (String.rev l). rewrite rev_involutive.
  f_equal. destruct ls as [|l2 ls]; [done|]. by apply IH.
Qed.

Lemma all_chars_render ls :
  Forall (λ l, Py.no_break l = true) ls →
  Py.all_chars (λ c, negb (Ascii.eqb c Py.CR)) (render ls) = true.
Proof.
  induction ls as [|l ls IH]; [done|]. intros [Hl Hall]%Forall_cons.
  rewrite render_cons, all_chars_append.
  rewrite not_newline_no_cr by (by apply no_break_not_newline). simpl.
  destruct ls; [done|]. by apply IH.
Qed.

(** What was written as lines is read back as the same lines. *)
Lemma read_lines_render ls :
  ls ≠ [] → Forall (λ l, Py.no_break l = true) ls →
  read_lines (render ls) = ls.
Proof.
  intros Hne Hall. unfold read_lines.
  rewrite universal_newlines_no_cr by (by apply all_chars_render).
  by apply splitlines_render.
Qed.

Lemma read_lines_no_break content :
  Forall (λ l, Py.no_break l = true) (read_lines content).
Proof. apply splitlines_no_break. Qed.

Lemma deduped_no_break text :
  Forall (λ l, Py.no_break l = true) text →
  Forall (λ l, Py.no_break l = true) (deduped text).
Proof.
  rewrite !Forall_forall, deduped_keep_first. intros H l Hl.
  apply H. by apply keep_first_elem in Hl as [? _].
Qed.

(** Running the loop on its own result changes nothing. *)
Lemma keep_first_fixed xs : ∀ before,
  (∀ l, l ∈ xs → is_blank l = false) →
  NoDup (filter (λ l, ¬ is_comment l) xs) →
  (∀ l, l ∈ xs → is_comment l = false → l ∉ before) →
  keep_first before xs = xs.
Proof.
  induction xs as [|x xs IH]; intros before Hb Hnd Hfresh; [done|]. simpl.
  rewrite (Hb x) by left. simpl.
  assert (is_comment x || bool_decide (x ∉ before) = true) as ->.
  { destruct (is_comment x) eqn:Hc; [done|]. simpl.
    apply bool_decide_eq_true. apply Hfresh; [left|done]. }
  simpl. f_equal. apply IH.
  - intros l Hl. apply Hb. by right.
  - rewrite filter_cons in Hnd. destruct (decide (¬ is_comment x)); [|done].
    by apply NoDup_cons in Hnd as [_ ?].
  - intros l Hl Hc. rewrite elem_of_app, list_elem_of_singleton.
    intros [Hin| ->].
    + by apply (Hfresh l); [right|..].
    + rewrite filter_cons_True in Hnd by (intros ?%Is_true_true; congruence).
      apply NoDup_cons in Hnd as [Hx _]. apply Hx.
      apply list_elem_of_filter. split; [|done].
      intros ?%Is_true_true; congruence.
Qed.

Lemma deduped_idempotent text : deduped (deduped text) = deduped text.
Proof.
  rewrite !deduped_keep_first. apply keep_first_fixed.
  - intros l Hl. by apply keep_first_elem in Hl as [_ ?].
  - apply keep_first_NoDup.
  - intros l _ _. apply not_elem_of_nil.
Qed.

End dedup_files.

(** ** dedup_ids.py: the claims *)

Section dedup_claims.

Import DedupIds.

(** C5.  The deduplicated sequence is the one the contract describes: a line
    is kept exactly when it is not blank and is a comment or has not occurred
    before.  Hence comment lines come out verbatim, all of them and in their
    order; the output is the input with lines left out, so relative order is
    kept; no identifier line comes out twice; every non-blank line of the
    input is in the output and no blank line is.  On the specification's
    example the output is ["# h"; "A"; "B"; "C"].  Blank is what
    [str.strip] leaves nothing of: a line that holds only a no-break space
    (U+00A0) is dropped like an empty one. *)
Theorem dedup_first_occurrences (text : list string) :
  deduped text = keep_first [] text
  ∧ filter (λ l, is_comment l) (deduped text) = filter (λ l, is_comment l) text
  ∧ sublist (deduped text) text
  ∧ NoDup (filter (λ l, ¬ is_comment l) (deduped text))
  ∧ (∀ l, l ∈ deduped text ↔ l ∈ text ∧ Py.strip l ≠ "")
  ∧ deduped ["# h"; "A"; "B"; "A"; ""; "C"] = ["# h"; "A"; "B"; "C"]
  ∧ deduped ["A"; String (ascii_of_nat 194) (String (ascii_of_nat 160) ""); "B"]
    = ["A"; "B"].
Proof.
  rewrite deduped_keep_first. split_and!; [| | | | |by vm_compute..].
  - done.
  - apply keep_first_comments.
  - apply keep_first_sublist.
  - apply keep_first_NoDup.
  - intros l. split.
    + intros [? Hb]%keep_first_elem. split; [done|].
      by apply bool_decide_eq_false in Hb.
    + intros [Hin Hb]. destruct (keep_first_complete [] text l) as [?|H]; try done.
      * by apply bool_decide_eq_false.
      * by apply elem_of_nil in H.
Qed.

(** A second run on a file whose deduplicated sequence is not empty reports
    the no-op and writes nothing. *)
Lemma dedup_rerun_noop (fs fs1 : files) (content : string) (evs : list event) :
  ids_file fs = Some content →
  deduped (read_lines content) ≠ [] →
  main fs = Some (fs1, evs) →
  main fs1 = Some (fs1, [PrintUnchanged]).
Proof.
  intros Hc Hne. unfold main at 1. rewrite Hc.
  case_bool_decide as Heq.
  - intros [= <- <-]. unfold main. rewrite Hc. by rewrite bool_decide_eq_true_2.
  - intros [= <- <-]. unfold main. cbn [ids_file write_text].
    rewrite read_lines_render; [|done|].
    + by rewrite deduped_idempotent, bool_decide_eq_true_2.
    + apply deduped_no_break, read_lines_no_break.
Qed.

(** C6, at a file holding one empty line.  The first run writes the backup
    and rewrites the file to one empty line again; the second run, on that
    output, is no no-op: it writes the backup and the file once more. *)
Theorem dedup_rerun_blank_file :
  let fs0 := Files (Some Py.nl) None in
  let fs1 := Files (Some Py.nl) (Some Py.nl) in
  let rewrite := [Wrote BACKUP_PATH Py.nl; Wrote IDS_PATH Py.nl;
                  PrintBackupWritten; PrintCounts 1 0] in
  main fs0 = Some (fs1, rewrite)
  ∧ main fs1 = Some (fs1, rewrite)
  ∧ written rewrite = [BACKUP_PATH; IDS_PATH].
Proof. by vm_compute. Qed.

(** C7 as stated fails on a file without a final newline: the two lines
    "A", "A" are written to the backup with a newline after each, which is
    not the original content. *)
Lemma dedup_backup_not_verbatim :
  let original := ("A" +:+ Py.nl +:+ "A")%string in
  ¬ (∀ fs' evs,
       main (Files (Some original) None) = Some (fs', evs) →
       written evs ≠ [] →
       backup_file fs' = Some original).
Proof.
  intros original H.
  specialize (H (Files (Some ("A" +:+ Py.nl)%string)
                       (Some ("A" +:+ Py.nl +:+ "A" +:+ Py.nl)%string)) _ eq_refl).
  by discriminate H.
Qed.

(** C7, amended.  When the deduplicated sequence equals the original line for
    line, no file is written and the files are as before.  Otherwise exactly
    two files are written, the backup first and the identifier file second:
    the backup receives the original's lines, each followed by a newline, and
    reading the backup yields the original line sequence again; the
    identifier file receives the deduplicated lines in the same form. *)
Theorem dedup_backup_then_overwrite (fs : files) (content : string) :
  ids_file fs = Some content →
  let text := read_lines content in
  (deduped text = text → main fs = Some (fs, [PrintUnchanged]))
  ∧ (deduped text ≠ text →
     ∃ fs' evs, main fs = Some (fs', evs)
       ∧ omap (λ e, match e with Wrote p c => Some (p, c) | _ => None end) evs
         = [(BACKUP_PATH, render text); (IDS_PATH, render (deduped text))]
       ∧ backup_file fs' = Some (render text)
       ∧ ids_file fs' = Some (render (deduped text))
       ∧ read_lines (render text) = text).
Proof.
  intros Hc text. unfold main. rewrite Hc. fold text. split.
  - intros Heq. by rewrite bool_decide_eq_true_2.
  - intros Hne. rewrite bool_decide_eq_false_2 by done.
    eexists _, _. split_and!; try done.
    apply read_lines_render; [|apply read_lines_no_break].
    intros Hnil. apply Hne. by rewrite Hnil.
Qed.

Lemma dedup_backup_then_overwrite_witness :
  let fs := Files (Some ("A" +:+ Py.nl +:+ "A")%string) None in
  let text := ["A"; "A"] in
  (deduped text = text → main fs = Some (fs, [PrintUnchanged]))
  ∧ (deduped text ≠ text →
     ∃ fs' evs, main fs = Some (fs', evs)
       ∧ omap (λ e, match e with Wrote p c => Some (p, c) | _ => None end) evs
         = [(BACKUP_PATH, render text); (IDS_PATH, render (deduped text))]
       ∧ backup_file fs' = Some (render text)
       ∧ ids_file fs' = Some (render (deduped text))
       ∧ read_lines (render text) = text).
Proof.
  exact (dedup_backup_then_overwrite
           (Files (Some ("A" +:+ Py.nl +:+ "A")%string) None)
           ("A" +:+ Py.nl +:+ "A")%string eq_refl).
Defined.

End dedup_claims.

(** ** Cutting a string at a separator *)

Section partition.

Implicit Types (s t b a sep : string).

Lemma prefix_append sep a : String.prefix sep (sep +:+ a) = true.
Proof.
  induction sep as [|c sep IH]; [by destruct a|].
  rewrite append_cons. cbn [String.prefix]. by destruct (ascii_dec c c).
Qed.

Lemma prefix_drop sep s :
  String.prefix sep s = true → s = (sep +:+ Py.drop (String.length sep) s)%string.
Proof.
  revert s. induction sep as [|c sep IH]; intros s H; [by destruct s|].
  destruct s as [|d s]; [done|]. cbn [String.prefix] in H.
  destruct (ascii_dec c d) as [->|]; [|done].
  rewrite append_cons. simpl. f_equal. by apply IH.
Qed.

Lemma drop_append sep a : Py.drop (String.length sep) (sep +:+ a) = a.
Proof. induction sep as [|c sep IH]; [by destruct a|]. by rewrite append_cons. Qed.

Lemma partition_unfold sep s :
  Py.partition sep s
  = if String.prefix sep s then Some ("", Py.drop (String.length sep) s)
    else match s with
         | String c s' =>
             match Py.partition sep s' with
             | Some (b, a) => Some (String c b, a)
             | None => None
             end
         | EmptyString => None
         end.
Proof. by destruct s. Qed.

(** The result of [partition] splits the string around the separator. *)
Lemma partition_Some sep s b a :
  Py.partition sep s = Some (b, a) → s = (b +:+ sep +:+ a)%string.
Proof.
  revert b. induction s as [|c s IH]; intros b; rewrite partition_unfold.
  - destruct (String.prefix sep "") eqn:E; [|done].
    intros [= <- <-]. by apply prefix_drop in E.
  - destruct (String.prefix sep (String c s)) eqn:E.
    + intros [= <- <-]. by apply prefix_drop in E.
    + destruct (Py.partition sep s) as [[b' a']|]; [|done].
      intros [= <- <-]. rewrite append_cons. f_equal. by apply IH.
Qed.

(** It cuts at the first occurrence: no occurrence starts further left. *)
Lemma partition_first sep b' a' :
  ∃ b a, Py.partition sep (b' +:+ sep +:+ a') = Some (b, a)
         ∧ String.length b ≤ String.length b'.
Proof.
  induction b' as [|c b' IH].
  - rewrite append_nil_l. exists "", a'.
    rewrite partition_unfold, prefix_append, drop_append. done.
  - destruct IH as (b & a & Hp & Hlen). rewrite append_cons, partition_unfold.
    destruct (String.prefix sep _).
    + eexists _, _. split; [done|]. simpl. lia.
    + rewrite Hp. eexists _, _. split; [done|]. simpl. lia.
Qed.

Lemma partition_None sep s b a :
  Py.partition sep s = None → s ≠ (b +:+ sep +:+ a)%string.
Proof.
  intros H ->. destruct (partition_first sep b a) as (? & ? & H' & _). congruence.
Qed.

End partition.

(** ** check_cifs.py *)

Section check_cifs.

Import CheckCifs.

(** No occurrence of the case-fix marker starts before the marker and runs
    into it. *)
Lemma casefix_no_overlap x t :
  x ≠ "" → String.prefix CASEFIX_SUFFIX x = false →
  String.prefix CASEFIX_SUFFIX (x +:+ CASEFIX_SUFFIX +:+ t) = false.
Proof.
  unfold CASEFIX_SUFFIX. intros Hx H.
  destruct x as [|c x]; [done|]. clear Hx.
  do 10 (rewrite append_cons; cbn [String.prefix] in *;
         destruct (ascii_dec _ c) as [<-|]; [|done];
         destruct x as [|c x]; [by vm_compute|]).
  done.
Qed.

Lemma partition_casefix id h :
  Py.contains CASEFIX_SUFFIX id = false →
  Py.partition CASEFIX_SUFFIX (id +:+ CASEFIX_SUFFIX +:+ h) = Some (id, h).
Proof.
  unfold Py.contains. induction id as [|c id IH]; intros H.
  - by rewrite append_nil_l, partition_unfold, prefix_append, drop_append.
  - rewrite partition_unfold in H.
    destruct (String.prefix CASEFIX_SUFFIX (String c id)) eqn:E; [done|].
    rewrite partition_unfold, casefix_no_overlap by done.
    rewrite append_cons.
    destruct (Py.partition CASEFIX_SUFFIX id) as [[??]|] eqn:E'; [done|].
    by rewrite IH.
Qed.

(** [strip_casefix] keeps the part before the first marker. *)
Lemma strip_casefix_cut s :
  match Py.partition CASEFIX_SUFFIX s with
  | Some (b, a) => strip_casefix s = b
  | None => strip_casefix s = s
  end.
Proof.
  unfold strip_casefix, Py.contains, Py.split1. simpl.
  by destruct (Py.partition CASEFIX_SUFFIX s) as [[b a]|].
Qed.

Lemma substring_drop i n : (String.substring 0 i n +:+ Py.drop i n)%string = n.
Proof.
  revert n. induction i as [|i IH]; intros [|c n]; simpl; try done.
  by rewrite append_cons, IH.
Qed.

(** A name is its stem followed by its suffix. *)
Lemma stem_suffix n : (stem n +:+ suffix n)%string = n.
Proof.
  unfold stem, suffix. destruct (dot_index n) as [i|].
  - apply substring_drop.
  - apply append_nil_r.
Qed.

Lemma iter_cif_names_fold entries : ∀ names x,
  x ∈ foldl iter_cif_names_step names entries
  ↔ x ∈ names ∨ ∃ e, e ∈ entries ∧ cif_stem e x.
Proof.
  induction entries as [|e entries IH]; intros names x; simpl.
  { split; [by left|]. intros [?|(e & ?%elem_of_nil & _)]; done. }
  rewrite IH. unfold iter_cif_names_step at 1, cif_stem.
  destruct (is_file e) eqn:Hf; simpl.
  - case_bool_decide as Hs.
    + rewrite elem_of_union, elem_of_singleton. split.
      * intros [[->|?]|(e' & ? & ?)]; [right|by left|right].
        -- exists e. split; [left|done].
        -- exists e'. split; [by right|done].
      * intros [?|(e' & [->|?]%elem_of_cons & Hc)]; [by left; right|..].
        -- left; left. by destruct Hc as (_ & _ & ->).
        -- right. by exists e'.
    + split.
      * intros [?|(e' & ? & ?)]; [by left|right]. exists e'. split; [by right|done].
      * intros [?|(e' & [->|?]%elem_of_cons & Hc)]; [by left|..].
        -- by destruct Hc as (_ & ? & _).
        -- right. by exists e'.
  - split.
    + intros [?|(e' & ? & ?)]; [by left|right]. exists e'. split; [by right|done].
    + intros [?|(e' & [->|?]%elem_of_cons & Hc)]; [by left|..].
      * destruct Hc as (? & _). congruence.
      * right. by exists e'.
Qed.

Lemma elem_of_iter_cif_names directory x :
  x ∈ iter_cif_names directory
  ↔ ∃ entries e, directory = Some entries ∧ e ∈ entries ∧ cif_stem e x.
Proof.
  destruct directory as [entries|]; simpl.
  - rewrite iter_cif_names_fold. split.
    + intros [?%elem_of_empty|(e & ? & ?)]; [done|]. by exists entries, e.
    + intros (? & e & [= <-] & ? & ?). right. by exists e.
  - split; [by intros ?%elem_of_empty|]. by intros (? & ? & ? & _).
Qed.

Lemma elem_of_sorted (s : gset string) x : x ∈ sorted s ↔ x ∈ s.
Proof. unfold sorted. by rewrite merge_sort_Permutation, elem_of_elements. Qed.

Lemma sorted_Sorted (s : gset string) : Sorted String.le (sorted s).
Proof. apply (Sorted_merge_sort _). Qed.

Lemma sorted_NoDup (s : gset string) : NoDup (sorted s).
Proof. unfold sorted. rewrite merge_sort_Permutation. apply NoDup_elements. Qed.

Lemma report_list_no_write header none l :
  (∀ c, header ≠ WroteMissingFile c) → (∀ c, none ≠ WroteMissingFile c) →
  omap (λ e, match e with WroteMissingFile c => Some c | _ => None end)
       (report_list header none l) = [].
Proof.
  intros Hh Hn. destruct l as [|x l]; simpl.
  - destruct none; try done. by destruct (Hn content).
  - destruct header; try (by destruct (Hh content)); simpl;
      (induction l as [|y l IH]; [done|]; simpl in *; done).
Qed.

(** Where the marker occurs, the stem is cut at its first occurrence. *)
Lemma strip_casefix_first b a :
  ∃ b0 a0, (b +:+ CASEFIX_SUFFIX +:+ a = b0 +:+ CASEFIX_SUFFIX +:+ a0)%string
           ∧ String.length b0 ≤ String.length b
           ∧ strip_casefix (b +:+ CASEFIX_SUFFIX +:+ a) = b0.
Proof.
  destruct (partition_first CASEFIX_SUFFIX b a) as (b0 & a0 & Hp & Hlen).
  exists b0, a0. split_and!; [by apply partition_Some|done|].
  pose proof (strip_casefix_cut (b +:+ CASEFIX_SUFFIX +:+ a)) as H.
  by rewrite Hp in H.
Qed.

Lemma strip_casefix_none s :
  (∀ b a, s ≠ (b +:+ CASEFIX_SUFFIX +:+ a)%string) → strip_casefix s = s.
Proof.
  intros H. pose proof (strip_casefix_cut s) as Hc.
  destruct (Py.partition CASEFIX_SUFFIX s) as [[b a]|] eqn:E; [|done].
  apply partition_Some in E. by destruct (H b a).
Qed.

(** The specification's example: with A, B, C expected and the files A.cif
    and B__casefix-1a2b3c4d.cif present, C is missing and nothing is extra. *)
Example check_example :
  let ids := ("A" +:+ Py.nl +:+ "B" +:+ Py.nl +:+ "C" +:+ Py.nl)%string in
  let files := [Entry "A.cif" true; Entry "B__casefix-1a2b3c4d.cif" true] in
  (λ r, (missing r, extra r)) <$> main (Some ids) (Some files)
  = Some (["C"], []).
Proof. by vm_compute. Qed.

(** C8 as stated fails on a stem that holds the marker without hexadecimal
    digits after it: the file A__casefix-notes.cif counts as A. *)
Lemma check_casefix_cut_without_hex :
  let directory := Some [Entry "A__casefix-notes.cif" true] in
  ¬ (∀ x, x ∈ iter_cif_names directory
          ↔ ∃ entries e, directory = Some entries ∧ e ∈ entries
              ∧ is_file e = true ∧ Py.lower (suffix (name e)) = ".cif"
              ∧ x = strip_casefix_hex (stem (name e))).
Proof.
  intros directory H. destruct (H "A__casefix-notes") as [_ Hin].
  apply elem_of_iter_cif_names in Hin.
  - destruct Hin as (es & e & [= <-] & He & _ & _ & Hx).
    apply list_elem_of_singleton in He as ->. by vm_compute in Hx.
  - eexists _, _. split_and!; [done|left|done..].
Qed.

(** C8, amended.  The set of present identifiers holds, for each file whose
    suffix is .cif in any letter case, its stem cut at the first occurrence
    of __casefix- (whatever follows the marker); a stem without the marker is
    taken whole, and a stem id__casefix-h with no marker inside id gives id.
    Missing is the sorted list of expected minus present, extra the sorted
    list of present minus expected, both ascending without repetition, and
    the missing-IDs file is always written, holding the missing identifiers
    joined by newlines (the empty text when none is missing). *)
Theorem check_reports_differences (content : string)
    (directory : option (list entry)) :
  ∃ r, main (Some content) directory = Some r
  ∧ (∀ x, x ∈ iter_cif_names directory
          ↔ ∃ entries e, directory = Some entries ∧ e ∈ entries ∧ cif_stem e x)
  ∧ (∀ b a, ∃ b0 a0,
        (b +:+ CASEFIX_SUFFIX +:+ a = b0 +:+ CASEFIX_SUFFIX +:+ a0)%string
        ∧ String.length b0 ≤ String.length b
        ∧ strip_casefix (b +:+ CASEFIX_SUFFIX +:+ a) = b0)
  ∧ (∀ s, (∀ b a, s ≠ (b +:+ CASEFIX_SUFFIX +:+ a)%string) → strip_casefix s = s)
  ∧ (∀ id h, Py.contains CASEFIX_SUFFIX id = false →
             strip_casefix (id +:+ CASEFIX_SUFFIX +:+ h) = id)
  ∧ (∀ x, x ∈ missing r ↔ x ∈ iter_ids content ∧ x ∉ iter_cif_names directory)
  ∧ (∀ x, x ∈ extra r ↔ x ∈ iter_cif_names directory ∧ x ∉ iter_ids content)
  ∧ Sorted String.le (missing r) ∧ NoDup (missing r)
  ∧ Sorted String.le (extra r) ∧ NoDup (extra r)
  ∧ missing_file r = Some (Py.join Py.nl (missing r))
  ∧ (missing r = [] → missing_file r = Some "").
Proof.
  eexists. split; [done|]. cbn [missing extra].
  assert (∀ m x, missing_file
            (Report m x
               ([PrintTotal (size (iter_ids content));
                 PrintFound (size (iter_cif_names directory)); PrintEmptyLine]
                ++ report_list PrintMissingHeader PrintNoMissing m
                ++ [PrintEmptyLine]
                ++ report_list PrintExtraHeader PrintNoExtra x
                ++ [WroteMissingFile (Py.join Py.nl m); PrintSaved]))
          = Some (Py.join Py.nl m)) as Hfile.
  { intros m x. unfold missing_file. cbn [events].
    rewrite !omap_app, !report_list_no_write by done. done. }
  split_and!.
  - apply elem_of_iter_cif_names.
  - apply strip_casefix_first.
  - apply strip_casefix_none.
  - intros id h Hid. pose proof (strip_casefix_cut (id +:+ CASEFIX_SUFFIX +:+ h)) as H.
    by rewrite partition_casefix in H.
  - intros x. by rewrite elem_of_sorted, elem_of_difference.
  - intros x. by rewrite elem_of_sorted, elem_of_difference.
  - apply sorted_Sorted.
  - apply sorted_NoDup.
  - apply sorted_Sorted.
  - apply sorted_NoDup.
  - apply Hfile.
  - intros Hm. rewrite Hfile. by rewrite Hm.
Qed.

End check_cifs.

(** ** download_cifs.py: file name resolution *)

Section resolve.

Import DownloadCifs.

(** The scan finds no match exactly when no file has the target's name in
    any letter case. *)
Lemma scan_dir_NoMatch target entries :
  scan_dir target (Py.lower target) entries = NoMatch
  ↔ ∀ e, e ∈ entries → is_file e = true → Py.lower (name e) ≠ Py.lower target.
Proof.
  induction entries as [|e entries IH]; simpl.
  { split; [|done]. by intros _ e ?%elem_of_nil. }
  destruct (is_file e) eqn:Hf; simpl.
  - case_bool_decide as Hl; simpl.
    + split; [by case_bool_decide|].
      intros H. by destruct (H e); [left|..].
    + rewrite IH. split.
      * intros H e' [->|?]%elem_of_cons ?; [done|by apply H].
      * intros H e' ??. apply H; [by right|done].
  - rewrite IH. split.
    + intros H e' [->|?]%elem_of_cons ?; [congruence|by apply H].
    + intros H e' ??. apply H; [by right|done].
Qed.

(** The scan is decided by the first file whose lower-cased name is the
    target's. *)
Lemma scan_dir_first target entries :
  scan_dir target (Py.lower target) entries
  = match find (λ e, is_file e
                     && bool_decide (Py.lower (name e) = Py.lower target))
               entries with
    | Some e => if bool_decide (name e = target) then ExactCase e
                else CaseCollision
    | None => NoMatch
    end.
Proof.
  induction entries as [|e entries IH]; [done|]. simpl.
  destruct (is_file e); simpl; [|done].
  by case_bool_decide.
Qed.

Lemma scan_dir_ExactCase target lower_target entries e :
  scan_dir target lower_target entries = ExactCase e →
  e ∈ entries ∧ name e = target.
Proof.
  induction entries as [|e' entries IH]; [done|]. simpl.
  destruct (is_file e'); simpl.
  - case_bool_decide; simpl.
    + case_bool_decide; [|done]. intros [= <-]. split; [left|done].
    + intros [??]%IH. split; [by right|done].
  - intros [??]%IH. split; [by right|done].
Qed.

Lemma path_exists_elem e entries : e ∈ entries → path_exists (name e) entries = true.
Proof.
  intros H. apply existsb_exists. exists e. split.
  - by apply list_elem_of_In.
  - by apply bool_decide_eq_true.
Qed.

(** *** The digest suffix *)

Lemma length_hex n x : String.length (Sha1.hex n x) = n.
Proof. induction n as [|n IH]; simpl; [done | by rewrite IH]. Qed.

Lemma length_hexdigest msg : String.length (Sha1.hexdigest msg) = 40.
Proof.
  unfold Sha1.hexdigest. destruct (Sha1.digest msg) as [[[[h0 h1] h2] h3] h4].
  by rewrite !length_append, !length_hex.
Qed.

Lemma length_substring n s :
  n ≤ String.length s → String.length (String.substring 0 n s) = n.
Proof.
  revert s. induction n as [|n IH]; intros [|c s]; simpl; try done; try lia.
  intros ?. rewrite IH; [done|lia].
Qed.

Lemma hex_digit_is_hex x :
  (0 ≤ x < 16)%Z → CheckCifs.is_hex_char (Sha1.hex_digit x) = true.
Proof.
  intros H.
  assert (x = 0 ∨ x = 1 ∨ x = 2 ∨ x = 3 ∨ x = 4 ∨ x = 5 ∨ x = 6 ∨ x = 7 ∨ x = 8
          ∨ x = 9 ∨ x = 10 ∨ x = 11 ∨ x = 12 ∨ x = 13 ∨ x = 14 ∨ x = 15)%Z
    as Hx by lia.
  destruct_or!; subst x; reflexivity.
Qed.

Lemma hex_is_hex n x : Py.all_chars CheckCifs.is_hex_char (Sha1.hex n x) = true.
Proof.
  induction n as [|n IH]; [done|]. cbn [Sha1.hex Py.all_chars].
  rewrite IH, hex_digit_is_hex; [done|]. by apply Z.mod_pos_bound.
Qed.

Lemma hexdigest_is_hex msg :
  Py.all_chars CheckCifs.is_hex_char (Sha1.hexdigest msg) = true.
Proof.
  unfold Sha1.hexdigest. destruct (Sha1.digest msg) as [[[[h0 h1] h2] h3] h4].
  by rewrite !all_chars_append, !hex_is_hex.
Qed.

Lemma all_chars_substring p n s :
  Py.all_chars p s = true → Py.all_chars p (String.substring 0 n s) = true.
Proof.
  revert s. induction n as [|n IH]; intros [|c s]; simpl; try done.
  intros [-> ?]%andb_true_iff. by apply IH.
Qed.

(** The suffix is eight hexadecimal digits, fixed by the identifier. *)
Lemma casefix_suffix_hex8 material_id :
  String.length (casefix_suffix material_id) = 8
  ∧ Py.all_chars CheckCifs.is_hex_char (casefix_suffix material_id) = true.
Proof.
  unfold casefix_suffix. split.
  - apply length_substring. rewrite length_hexdigest. lia.
  - apply all_chars_substring, hexdigest_is_hex.
Qed.

(** *** The three outcomes of the resolution, by the first match *)

Lemma resolve_by_first_match material_id entries :
  resolve_output_path material_id entries
  = match first_match material_id entries with
    | None => ((material_id +:+ ".cif")%string, false)
    | Some e =>
        if bool_decide (name e = (material_id +:+ ".cif")%string)
        then ((material_id +:+ ".cif")%string, true)
        else ((material_id +:+ "__casefix-" +:+ casefix_suffix material_id
               +:+ ".cif")%string, false)
    end.
Proof.
  unfold resolve_output_path, first_match. rewrite scan_dir_first.
  destruct (find _ entries) as [e|]; [|done].
  case_bool_decide as H; [|done]. by rewrite H.
Qed.

(** With an exact-case file as the first match the task is a skip: success,
    the skip message and no request. *)
Lemma download_cif_skip e material_id st entries x :
  mkdir (dir st) = Some entries →
  first_match material_id entries = Some x →
  name x = (material_id +:+ ".cif")%string →
  download_cif e material_id st
  = (Returned true,
     print (MsgSkip material_id (material_id +:+ ".cif")) (set_dir (Dir entries) st)).
Proof.
  intros Hd Hm Hx. unfold download_cif. rewrite Hd, resolve_by_first_match, Hm.
  rewrite bool_decide_eq_true_2 by done.
  assert (path_exists (material_id +:+ ".cif") entries = true) as ->; [|done].
  rewrite <- Hx. apply path_exists_elem. apply list_elem_of_In.
  by apply find_some in Hm as [? _].
Qed.

(** A task fetches nothing or its own URL, once. *)
Lemma download_cif_requests e material_id st :
  requests (download_cif e material_id st).2 = requests st
  ∨ requests (download_cif e material_id st).2
    = requests st ++ [BASE_URL material_id].
Proof.
  unfold download_cif. destruct (mkdir (dir st)) as [entries|]; [|by left].
  destruct (resolve_output_path material_id entries) as [p ex].
  destruct (ex && path_exists p entries); [by left|]. right.
  destruct (http e (BASE_URL material_id)); try done.
  destruct (negb (status =? 200)); [done|].
  by destruct (write_bytes e p entries).
Qed.

(** A task leaves the log alone. *)
Lemma download_cif_log e material_id st :
  log_disk (download_cif e material_id st).2 = log_disk st
  ∧ log_trace (download_cif e material_id st).2 = log_trace st.
Proof.
  unfold download_cif. destruct (mkdir (dir st)) as [entries|]; [|done].
  destruct (resolve_output_path material_id entries) as [p ex].
  destruct (ex && path_exists p entries); [done|].
  destruct (http e (BASE_URL material_id)); try done.
  destruct (negb (status =? 200)); [done|].
  by destruct (write_bytes e p entries).
Qed.

(** C1, at a directory that lists abc.cif before ABC.cif.  For the
    identifier ABC the file ABC.cif exists, yet the scan stops at abc.cif:
    the write target is the case-fix name and the URL is fetched, whatever
    the server answers.  With the two files listed the other way round the
    same identifier is a skip without a request. *)
Theorem download_exact_case_missed (e : env) (reqs : list string)
    (out : list message) (log : log_file) (trace : list (list row)) :
  let entries := [Entry "abc.cif" true; Entry "ABC.cif" true] in
  let st := State (Dir entries) reqs out log trace in
  let st' := State (Dir [Entry "ABC.cif" true; Entry "abc.cif" true])
                   reqs out log trace in
  Entry "ABC.cif" true ∈ entries
  ∧ resolve_output_path "ABC" entries = ("ABC__casefix-3c01bdbb.cif", false)
  ∧ requests (download_cif e "ABC" st).2 = reqs ++ [BASE_URL "ABC"]
  ∧ download_cif e "ABC" st'
    = (Returned true, print (MsgSkip "ABC" "ABC.cif") st').
Proof.
  intros entries st st'. split_and!.
  - right. left.
  - by vm_compute.
  - subst entries st st'. unfold download_cif. cbn [dir mkdir].
    assert (resolve_output_path "ABC" [Entry "abc.cif" true; Entry "ABC.cif" true]
            = ("ABC__casefix-3c01bdbb.cif", false)) as -> by (by vm_compute).
    cbn [andb]. destruct (http e (BASE_URL "ABC")); try done.
    destruct (negb (status =? 200)); [done|].
    by destruct (write_bytes e _ _).
  - subst entries st st'.
    by rewrite (download_cif_skip e "ABC"
                  (State (Dir [Entry "ABC.cif" true; Entry "abc.cif" true])
                         reqs out log trace)
                  [Entry "ABC.cif" true; Entry "abc.cif" true]
                  (Entry "ABC.cif" true)).
Qed.

End resolve.

(** ** Identifiers are stripped text *)

Section material_ids.

Import DownloadCifs.

Lemma iter_material_ids_step_Forall lines : ∀ acc,
  Forall is_material_id acc →
  Forall is_material_id (foldl iter_material_ids_step acc lines).
Proof.
  induction lines as [|raw lines IH]; intros acc Hacc; [done|].
  simpl. apply IH. unfold iter_material_ids_step.
  case_bool_decide as Hb; simpl; [done|].
  destruct (Py.startswith _ _); [done|].
  apply Forall_app. split; [done|]. apply Forall_singleton.
  split; [done|]. apply strip_idempotent.
Qed.

(** What [iter_material_ids] returns are identifiers. *)
Lemma iter_material_ids_Forall ids_file material_ids :
  iter_material_ids ids_file = inr material_ids →
  Forall is_material_id material_ids.
Proof.
  unfold iter_material_ids. destruct ids_file as [content|]; [|done].
  pose proof (iter_material_ids_step_Forall (Py.readlines content) []
                (Forall_nil_2 _)) as H.
  destruct (foldl _ _ _); [done|]. by intros [= <-].
Qed.

End material_ids.

(** ** The log rows and their index *)

Section log_index.

Import DownloadCifs.

Implicit Types (rows : list row) (r : row).

Lemma first_row_keys id rows :
  first_row id rows = fst <$> list_find (λ k, k = id) (row_key <$> rows).
Proof.
  unfold first_row. rewrite list_find_fmap.
  by destruct (list_find _ rows) as [[??]|].
Qed.

Lemma first_row_snoc id rows r :
  first_row id (rows ++ [r])
  = match first_row id rows with
    | Some i => Some i
    | None => if decide (row_key r = id) then Some (length rows) else None
    end.
Proof.
  unfold first_row. destruct (list_find _ rows) as [[i x]|] eqn:E.
  - by rewrite (list_find_app_l _ _ _ _ _ E).
  - rewrite list_find_app_r by done. cbn.
    by destruct (decide (row_key r = id)).
Qed.

Lemma first_row_Some id rows i :
  first_row id rows = Some i →
  ∃ r, rows !! i = Some r ∧ row_key r = id.
Proof.
  unfold first_row. destruct (list_find _ rows) as [[j x]|] eqn:E; [|done].
  intros [= <-]. apply list_find_Some in E as (? & ? & _). by exists x.
Qed.

Lemma first_row_None id rows :
  first_row id rows = None ↔ id ∉ row_key <$> rows.
Proof.
  unfold first_row. destruct (list_find _ rows) as [[j x]|] eqn:E.
  - apply list_find_Some in E as (Hx & Hk & _). split; [done|].
    intros []. apply list_elem_of_fmap. exists x. split; [done|].
    by eapply list_elem_of_lookup_2.
  - split; [|done]. intros _. apply list_find_None in E.
    intros (x & -> & Hx)%list_elem_of_fmap.
    rewrite Forall_forall in E. by apply (E x).
Qed.

(** Overwriting a row by one for the same identifier moves no first row. *)
Lemma first_row_insert id rows i old new :
  rows !! i = Some old → row_key new = row_key old →
  first_row id (<[i := new]> rows) = first_row id rows.
Proof.
  intros Hi Hk. rewrite !first_row_keys, list_fmap_insert, Hk.
  rewrite list_insert_id; [done|]. by rewrite list_lookup_fmap, Hi.
Qed.

Lemma keys_insert rows i old new :
  rows !! i = Some old → row_key new = row_key old →
  row_key <$> <[i := new]> rows = row_key <$> rows.
Proof.
  intros Hi Hk. rewrite list_fmap_insert, Hk.
  rewrite list_insert_id; [done|]. by rewrite list_lookup_fmap, Hi.
Qed.

Lemma build_index_snoc rows r :
  build_index (rows ++ [r])
  = build_index_step (build_index rows) (length rows, r).
Proof.
  unfold build_index. rewrite imap_app, foldl_app. simpl.
  by rewrite Nat.add_0_r.
Qed.

Lemma build_index_indexed rows : indexed (build_index rows) rows.
Proof.
  induction rows as [|r rows IH] using rev_ind.
  - intros id. unfold build_index. simpl. rewrite lookup_empty.
    by destruct (decide _).
  - intros id. rewrite build_index_snoc, first_row_snoc.
    unfold build_index_step. cbn [fst snd]. fold (row_key r).
    specialize (IH id) as IHid.
    case_bool_decide as Hk; simpl.
    + (* the row has no identifier *)
      rewrite IHid. destruct (decide (id = "")) as [->|]; [done|].
      destruct (first_row id rows); [done|].
      rewrite decide_False; [done|]. congruence.
    + specialize (IH (row_key r)) as IHk. rewrite decide_False in IHk by done.
      case_bool_decide as Hn; simpl.
      * rewrite Hn in IHk. symmetry in IHk.
        destruct (decide (row_key r = id)) as [<-|Hne].
        -- rewrite lookup_insert_eq, decide_False, IHk by done. done.
        -- rewrite lookup_insert_ne, IHid by done.
           destruct (decide (id = "")); [done|]. by destruct (first_row id rows).
      * rewrite IHid. destruct (decide (id = "")); [done|].
        destruct (first_row id rows) eqn:E; [done|].
        destruct (decide (row_key r = id)) as [<-|]; [|done].
        rewrite E in IHk. congruence.
Qed.

End log_index.

(** ** Recording one result *)

Section record.

Import DownloadCifs.

Implicit Types (rows : list row) (l : locals) (st : state) (ls : locals * state).



Lemma list_find_accepted rows :
  accepted rows → list_find (λ r, row_extra r = true) rows = None.
Proof.
  intros H. apply list_find_None. eapply Forall_impl; [done|].
  intros r Hr. cbv beta in *. congruence.
Qed.

(** What [write_log] does, by what the write runs into. *)
Lemma write_log_effect e rows st :
  let n := length (log_trace st) in
  let r := write_log e rows st in
  log_trace r.2 = log_trace st ++ [rows]
  ∧ requests r.2 = requests st
  ∧ dir r.2 = dir st
  ∧ match log_write e n with
    | NoFault =>
        match list_find (λ r, row_extra r = true) rows with
        | Some (k, _) =>
            r.1 = Some "ValueError"
            ∧ log_disk r.2 = LogRows (written <$> take k rows)
        | None => r.1 = None ∧ log_disk r.2 = LogRows (written <$> rows)
        end
    | OpenFault => r.1 = None ∧ log_disk r.2 = log_disk st
    | WriteFault => r.1 = None ∧ log_disk r.2 = log_left e n
    end.
Proof.
  intros n r. subst n r. unfold write_log.
  destruct (log_write e _); [|done..].
  by destruct (list_find _ rows) as [[k x]|].
Qed.

(** Rows without foreign keys are written without an exception. *)
Lemma write_log_accepted e rows st :
  accepted rows → (write_log e rows st).1 = None.
Proof.
  intros H. destruct (write_log_effect e rows st) as (_ & _ & _ & Hw).
  rewrite list_find_accepted in Hw by done.
  by destruct (log_write e _); destruct Hw.
Qed.

(** [write_log] raises nothing but the ValueError for a foreign key. *)
Lemma write_log_raises e rows st exc :
  (write_log e rows st).1 = Some exc →
  exc = "ValueError" ∧ ¬ accepted rows
  ∧ log_write e (length (log_trace st)) = NoFault.
Proof.
  intros H. destruct (write_log_effect e rows st) as (_ & _ & _ & Hw).
  destruct (log_write e _); [|destruct Hw; congruence..].
  destruct (list_find _ rows) as [[k x]|] eqn:E; [|destruct Hw; congruence].
  destruct Hw as [Hw _]. split_and!; [congruence| |done].
  intros Ha. by rewrite list_find_accepted in E.
Qed.

(** What one task and its recording do to the log and to the requests. *)
Lemma run_task_effect e l st material_id :
  let success := succeeded (download_cif e material_id st).1 in
  let new := result_row material_id success in
  let rows' := match index l !! material_id with
               | Some i => <[i := new]> (log_rows l)
               | None => log_rows l ++ [new]
               end in
  let ls' := run_task e (l, st) material_id in
  log_rows ls'.1 = rows'
  ∧ index ls'.1 = match index l !! material_id with
                  | Some _ => index l
                  | None => <[material_id := length (log_rows l)]> (index l)
                  end
  ∧ log_trace ls'.2 = log_trace st ++ [rows']
  ∧ requests ls'.2 = requests (download_cif e material_id st).2
  ∧ dir ls'.2 = dir (download_cif e material_id st).2
  ∧ match log_write e (length (log_trace st)) with
    | NoFault =>
        match list_find (λ r, row_extra r = true) rows' with
        | Some (k, _) =>
            raised e (l, st) material_id = Some "ValueError"
            ∧ log_disk ls'.2 = LogRows (written <$> take k rows')
        | None =>
            raised e (l, st) material_id = None
            ∧ log_disk ls'.2 = LogRows (written <$> rows')
        end
    | OpenFault =>
        raised e (l, st) material_id = None ∧ log_disk ls'.2 = log_disk st
    | WriteFault =>
        raised e (l, st) material_id = None
        ∧ log_disk ls'.2 = log_left e (length (log_trace st))
    end.
Proof.
  intros success new rows' ls'. subst success new rows' ls'.
  unfold run_task, raised, run_task_raising.
  destruct (download_cif_log e material_id st) as [Hd Ht].
  destruct (download_cif e material_id st) as [r st1]. cbn [fst snd] in *.
  unfold record_result.
  set (st2 := match r with
              | Returned _ => st1
              | Raised exc => print (MsgUnexpected material_id exc) st1
              end).
  assert (log_trace st2 = log_trace st ∧ log_disk st2 = log_disk st
          ∧ requests st2 = requests st1 ∧ dir st2 = dir st1)
    as (Ht2 & Hd2 & Hr2 & Hdir2) by (by destruct r).
  set (rows' := match index l !! material_id with
                | Some i => <[i := result_row material_id (succeeded r)]> (log_rows l)
                | None => log_rows l ++ [result_row material_id (succeeded r)]
                end).
  pose proof (write_log_effect e rows' st2) as Hw. cbv zeta in Hw.
  rewrite Ht2, Hd2, Hr2, Hdir2 in Hw.
  assert (∀ b st', (let '(success, st0) := (b, st') in
             let
             '(idx, rows) :=
              match index l !! material_id with
              | Some i => (index l, <[i := result_row material_id success]> (log_rows l))
              | None =>
                  (<[material_id := length (log_rows l)]> (index l),
                   log_rows l ++ [result_row material_id success])
              end in
              let
              '(exc, st3) := write_log e rows st0 in
               (exc,
                (Locals (if success then S (downloaded l) else downloaded l)
                   (if success
                    then {[material_id]} ∪ previously_downloaded l
                    else previously_downloaded l) idx rows, st3)))
          = ((write_log e
                (match index l !! material_id with
                 | Some i => <[i := result_row material_id b]> (log_rows l)
                 | None => log_rows l ++ [result_row material_id b]
                 end) st').1,
             (Locals (if b then S (downloaded l) else downloaded l)
                (if b then {[material_id]} ∪ previously_downloaded l
                 else previously_downloaded l)
                (match index l !! material_id with
                 | Some _ => index l
                 | None => <[material_id := length (log_rows l)]> (index l)
                 end)
                (match index l !! material_id with
                 | Some i => <[i := result_row material_id b]> (log_rows l)
                 | None => log_rows l ++ [result_row material_id b]
                 end),
              (write_log e
                 (match index l !! material_id with
                  | Some i => <[i := result_row material_id b]> (log_rows l)
                  | None => log_rows l ++ [result_row material_id b]
                  end) st').2))) as Hrec.
  { intros b st'. cbv zeta. destruct (index l !! material_id);
      by destruct (write_log e _ st'). }
  assert ((let '(success, st0) :=
             match r with
             | Returned b => (b, st1)
             | Raised exc => (false, print (MsgUnexpected material_id exc) st1)
             end in
           let
           '(idx, rows) :=
            match index l !! material_id with
            | Some i => (index l, <[i := result_row material_id success]> (log_rows l))
            | None =>
                (<[material_id := length (log_rows l)]> (index l),
                 log_rows l ++ [result_row material_id success])
            end in
            let
            '(exc, st3) := write_log e rows st0 in
             (exc,
              (Locals (if success then S (downloaded l) else downloaded l)
                 (if success
                  then {[material_id]} ∪ previously_downloaded l
                  else previously_downloaded l) idx rows, st3)))
          = ((write_log e rows' st2).1,
             (Locals (if succeeded r then S (downloaded l) else downloaded l)
                (if succeeded r then {[material_id]} ∪ previously_downloaded l
                 else previously_downloaded l)
                (match index l !! material_id with
                 | Some _ => index l
                 | None => <[material_id := length (log_rows l)]> (index l)
                 end) rows', (write_log e rows' st2).2))) as ->.
  { destruct r as [b|exc]; apply Hrec. }
  cbn [fst snd log_rows index].
  destruct Hw as (Hw1 & Hw2 & Hw3 & Hw4). split_and!; try done.
Qed.

Lemma row_key_new material_id b :
  is_material_id material_id → row_key (result_row material_id b) = material_id.
Proof. intros [_ ?]. by unfold row_key. Qed.

Lemma accepted_insert rows i r :
  accepted rows → row_extra r = false → accepted (<[i := r]> rows).
Proof.
  intros H Hr. by apply Forall_insert.
Qed.

(** Recording a result keeps the rows free of foreign keys, and then raises
    nothing. *)
Lemma run_task_accepted e l st material_id :
  accepted (log_rows l) →
  accepted (log_rows (run_task e (l, st) material_id).1)
  ∧ raised e (l, st) material_id = None.
Proof.
  intros Ha.
  destruct (run_task_effect e l st material_id) as (Hr & _ & _ & _ & _ & Hw).
  cbv zeta in *.
  set (rows' := match index l !! material_id with
                | Some i => _ | None => _ end) in *.
  assert (accepted rows') as Ha'.
  { subst rows'. destruct (index l !! material_id).
    - by apply accepted_insert.
    - apply Forall_app. split; [done|]. by apply Forall_singleton. }
  split; [by rewrite Hr|].
  rewrite list_find_accepted in Hw by done.
  by destruct (log_write e _); destruct Hw.
Qed.

(** The index keeps pointing at first rows. *)
Lemma run_task_indexed e l st material_id :
  is_material_id material_id →
  indexed (index l) (log_rows l) →
  let ls' := run_task e (l, st) material_id in
  indexed (index ls'.1) (log_rows ls'.1)
  ∧ index l !! material_id = first_row material_id (log_rows l).
Proof.
  intros Hid Hinv ls'.
  destruct (run_task_effect e l st material_id) as (Hrows & Hidx & _).
  fold ls' in Hrows, Hidx. rewrite Hrows, Hidx.
  pose proof (Hinv material_id) as HX. destruct Hid as [Hne Hstrip].
  rewrite decide_False in HX by done. split; [|done].
  destruct (index l !! material_id) as [i|] eqn:Ei.
  - symmetry in HX. apply first_row_Some in HX as (old & Hold & Hk).
    intros id. rewrite (first_row_insert _ _ _ old); [apply Hinv|done|].
    rewrite Hk. by apply row_key_new.
  - intros id. rewrite first_row_snoc.
    rewrite (row_key_new material_id) by done.
    destruct (decide (material_id = id)) as [<-|Hne'].
    + rewrite lookup_insert_eq, decide_False, <- HX by done. done.
    + rewrite lookup_insert_ne, Hinv by done.
      destruct (decide (id = "")); [done|]. by destruct (first_row id _).
Qed.

(** One row per identifier stays one row per identifier. *)
Lemma run_task_NoDup e l st material_id :
  is_material_id material_id →
  indexed (index l) (log_rows l) →
  NoDup (row_key <$> log_rows l) →
  NoDup (row_key <$> log_rows (run_task e (l, st) material_id).1).
Proof.
  intros Hid Hinv Hnd.
  destruct (run_task_effect e l st material_id) as (-> & _).
  pose proof (Hinv material_id) as HX. destruct Hid as [Hne Hstrip].
  rewrite decide_False in HX by done.
  destruct (index l !! material_id) as [i|] eqn:Ei.
  - symmetry in HX. apply first_row_Some in HX as (old & Hold & Hk).
    rewrite (keys_insert _ _ old); [done..|].
    rewrite Hk. by apply row_key_new.
  - rewrite fmap_app. apply NoDup_app. split_and!; [done| |apply NoDup_singleton].
    intros k Hk ->%list_elem_of_singleton. symmetry in HX.
    apply first_row_None in HX. by rewrite <- Hstrip in HX.
Qed.

Lemma filter_insert_others (P : row → Prop) `{∀ r, Decision (P r)} rows i old new :
  rows !! i = Some old → ¬ P old → ¬ P new →
  filter P (<[i := new]> rows) = filter P rows.
Proof.
  revert i. induction rows as [|r rows IH]; intros [|i] Hi Ho Hn; try done.
  - simpl in Hi. injection Hi as ->. simpl.
    by rewrite !filter_cons_False.
  - simpl in *. rewrite !filter_cons, IH by done. done.
Qed.

(** Recording a result for one identifier leaves the rows of every other
    identifier as they are. *)
Lemma run_task_others e l st material_id X :
  is_material_id material_id →
  indexed (index l) (log_rows l) →
  X ≠ material_id →
  rows_of X (log_rows (run_task e (l, st) material_id).1) = rows_of X (log_rows l).
Proof.
  intros Hid Hinv HX. unfold rows_of.
  destruct (run_task_effect e l st material_id) as (-> & _).
  pose proof (Hinv material_id) as Hm. destruct Hid as [Hne Hstrip].
  rewrite decide_False in Hm by done.
  destruct (index l !! material_id) as [i|] eqn:Ei.
  - symmetry in Hm. apply first_row_Some in Hm as (old & Hold & Hk).
    apply (filter_insert_others _ _ _ old); [done|cbv beta; congruence|].
    cbv beta. rewrite row_key_new by done. congruence.
  - rewrite filter_app, filter_cons_False, filter_nil, app_nil_r; [done|].
    cbv beta. rewrite row_key_new by done. congruence.
Qed.

End record.

(** ** download_cifs.py: the run as a whole *)

Section run.

Import DownloadCifs.

Implicit Types (st : state) (ls : locals * state).

Lemma run_tasks_cons e ls material_id tasks :
  run_tasks e ls (material_id :: tasks)
  = run_tasks e (run_task e ls material_id) tasks.
Proof. done. Qed.

Lemma run_tasks_accepted e tasks : ∀ ls,
  accepted (log_rows ls.1) → accepted (log_rows (run_tasks e ls tasks).1).
Proof.
  induction tasks as [|t tasks IH]; intros [l st] Ha; [done|].
  rewrite run_tasks_cons. apply IH.
  destruct (run_task e (l, st) t) as [l1 st1] eqn:E.
  pose proof (run_task_accepted e l st t Ha) as [H _]. by rewrite E in H.
Qed.

(** With rows that [DictWriter] accepts no recording raises, and the pool
    is the plain sequence of its tasks. *)
Lemma run_pool_accepted e tasks : ∀ ls,
  accepted (log_rows ls.1) → run_pool e ls tasks = (None, run_tasks e ls tasks).
Proof.
  induction tasks as [|t tasks IH]; intros [l st] Ha; [done|].
  cbn [run_pool]. destruct (run_task_accepted e l st t Ha) as [Ha1 ->].
  rewrite run_tasks_cons. apply IH.
  by destruct (run_task e (l, st) t).
Qed.

Lemma main_start_rows_disk st :
  log_rows (main_start st).1 = disk_rows (log_disk st).
Proof. unfold main_start, load_log. by destruct (log_disk st). Qed.

Lemma main_start_prev st :
  previously_downloaded (main_start st).1
  = initially_downloaded (build_index (disk_rows (log_disk st)))
                         (disk_rows (log_disk st)).
Proof.
  unfold main_start, load_log. by destruct (log_disk st).
Qed.

Lemma main_tasks_unfold e ids_file st :
  main_tasks e ids_file st
  = match iter_material_ids ids_file with
    | inl _ => []
    | inr material_ids =>
        if bool_decide (log_disk st = LogUndecodable) then []
        else match ids_to_process material_ids
                     (previously_downloaded (main_start st).1) with
             | [] => []
             | todo => schedule e todo
             end
    end.
Proof.
  unfold main_tasks. destruct (iter_material_ids ids_file); [done|].
  rewrite main_start_prev. unfold load_log.
  by destruct (log_disk st).
Qed.

(** [main] in terms of the pool's start and tasks. *)
Lemma main_unfold e ids_file st :
  main e ids_file st
  = match iter_material_ids ids_file with
    | inl why => (SystemExit why, Locals 0 ∅ ∅ [], st)
    | inr material_ids =>
        match load_log st with
        | inl exc => (Uncaught exc, Locals 0 ∅ ∅ [], st)
        | inr _ =>
            match ids_to_process material_ids
                    (previously_downloaded (main_start st).1) with
            | [] => (Exit 0, (main_start st).1,
                     print MsgAllDownloaded (main_start st).2)
            | _ =>
                let r := run_pool e (main_start st) (main_tasks e ids_file st) in
                match r.1 with
                | Some exc => (Uncaught exc, r.2.1, r.2.2)
                | None =>
                    let w := write_log e (log_rows r.2.1) r.2.2 in
                    match w.1 with
                    | Some exc => (Uncaught exc, r.2.1, w.2)
                    | None =>
                        (Exit (if downloaded r.2.1 =? 0 then 1 else 0), r.2.1,
                         print (MsgCompleted (downloaded r.2.1)
                                             (length material_ids)) w.2)
                    end
                end
            end
        end
    end.
Proof.
  unfold main, main_tasks, main_start.
  destruct (iter_material_ids ids_file) as [why|material_ids]; [done|].
  destruct (load_log st) as [exc|[rows st1]]; [done|].
  cbn [fst snd previously_downloaded].
  destruct (ids_to_process _ _) as [|x todo]; [done|].
  destruct (run_pool e _ _) as [[exc|] [l st2]]; [done|]. cbn [fst snd].
  by destruct (write_log e _ _) as [[exc|] st3].
Qed.

(** [main] on a log without foreign keys: no exception ends the run. *)
Lemma main_unfold_accepted e ids_file st :
  accepted (disk_rows (log_disk st)) → log_disk st ≠ LogUndecodable →
  main e ids_file st
  = match iter_material_ids ids_file with
    | inl why => (SystemExit why, Locals 0 ∅ ∅ [], st)
    | inr material_ids =>
        match ids_to_process material_ids
                (previously_downloaded (main_start st).1) with
        | [] => (Exit 0, (main_start st).1,
                 print MsgAllDownloaded (main_start st).2)
        | _ =>
            let ls := run_tasks e (main_start st) (main_tasks e ids_file st) in
            (Exit (if downloaded ls.1 =? 0 then 1 else 0), ls.1,
             print (MsgCompleted (downloaded ls.1) (length material_ids))
                   (write_log e (log_rows ls.1) ls.2).2)
        end
    end.
Proof.
  intros Ha Hd. rewrite main_unfold.
  destruct (iter_material_ids ids_file) as [why|material_ids]; [done|].
  assert (∃ x, load_log st = inr x) as [x ->].
  { unfold load_log.
    destruct (log_disk st); [by eexists|by eexists|done|by eexists]. }
  destruct (ids_to_process _ _) as [|y todo]; [done|].
  rewrite run_pool_accepted by (by rewrite main_start_rows_disk).
  cbn [fst snd]. cbv zeta.
  rewrite write_log_accepted; [done|].
  apply run_tasks_accepted. by rewrite main_start_rows_disk.
Qed.

Lemma iter_material_ids_skip lines : ∀ acc,
  Forall (λ raw, Py.strip raw = "" ∨ Py.startswith (Py.strip raw) "#" = true)
         lines →
  foldl iter_material_ids_step acc lines = acc.
Proof.
  induction lines as [|raw lines IH]; intros acc; [done|].
  intros [Hraw Hall]%Forall_cons. simpl. rewrite <- (IH acc Hall) at 2.
  f_equal. unfold iter_material_ids_step.
  destruct Hraw as [->| ->]; [done|]. by rewrite orb_true_r.
Qed.

(** C10 as stated fails on a file that is not UTF-8: the file below holds
    one comment line and no identifier, yet the run does not end in
    SystemExit but dies of the UnicodeDecodeError that the [except OSError]
    of [iter_material_ids] lets through. *)
Lemma main_undecodable_input :
  let e := Env (λ _, Response 200 "cif") (λ _, NoFault) (λ _, 0) (λ _, NoFault)
               (λ _, LogAbsent) (λ ts, ts) in
  let st := State NoDir [] [] LogAbsent [] in
  let bytes := String "#" (String (ascii_of_nat 255) Py.nl) in
  Forall (λ raw, Py.startswith (Py.strip raw) "#" = true) (Py.readlines bytes)
  ∧ main_on_bytes e (Some bytes) st
    = (Uncaught "UnicodeDecodeError", Locals 0 ∅ ∅ [], st)
  ∧ ¬ ∃ why l st', main_on_bytes e (Some bytes) st = (SystemExit why, l, st').
Proof.
  intros e st bytes. split_and!.
  - by repeat constructor.
  - done.
  - by intros (why & l & st' & [=]).
Qed.

(** C10, amended.  When the identifier file cannot be opened or read, or its
    bytes are UTF-8 text that holds only blank lines and comment lines, the
    run ends in SystemExit and leaves the world as it found it: no task is
    run, no request made, no log read or written. *)
Theorem main_rejects_empty_input (e : env) (ids_bytes : option string)
    (st : state) :
  (ids_bytes = None
   ∨ ∃ bytes, ids_bytes = Some bytes
       ∧ Py.valid_utf8 bytes = true
       ∧ Forall (λ raw, Py.strip raw = ""
                        ∨ Py.startswith (Py.strip raw) "#" = true)
                (Py.readlines bytes)) →
  ∃ why, main_on_bytes e ids_bytes st = (SystemExit why, Locals 0 ∅ ∅ [], st)
         ∧ exit_status (main_on_bytes e ids_bytes st).1.1 = 1.
Proof.
  intros H. unfold main_on_bytes, read_ids, Py.decode.
  destruct H as [->|(bytes & -> & Hv & Hall)].
  - by exists FailedToReadIds.
  - rewrite Hv. exists NoMaterialIds. unfold main, iter_material_ids.
    by rewrite iter_material_ids_skip.
Qed.

Lemma main_rejects_empty_input_witness :
  let e := Env (λ _, Response 200 "cif") (λ _, NoFault) (λ _, 0) (λ _, NoFault)
               (λ _, LogAbsent) (λ l, l) in
  let st := State NoDir [] [] LogAbsent [] in
  let nbsp := String (ascii_of_nat 194) (String (ascii_of_nat 160) "") in
  let ids_bytes :=
    Some ("# no identifiers yet" +:+ Py.nl +:+ " " +:+ nbsp +:+ Py.nl)%string in
  ∃ why, main_on_bytes e ids_bytes st = (SystemExit why, Locals 0 ∅ ∅ [], st)
         ∧ exit_status (main_on_bytes e ids_bytes st).1.1 = 1.
Proof.
  apply main_rejects_empty_input. right. eexists. split; [reflexivity|].
  split; [reflexivity|].
  apply Forall_cons. split; [right; reflexivity|].
  apply Forall_cons. split; [left; reflexivity|]. constructor.
Defined.







End run.

(** ** The pool *)

Section pool.

Import DownloadCifs.

Implicit Types (rows : list row) (l : locals) (st : state) (ls : locals * state).

Lemma pool_results_fst e tasks : ∀ ls, (pool_results e ls tasks).*1 = tasks.
Proof.
  induction tasks as [|t tasks IH]; intros ls; [done|].
  cbn [pool_results]. by rewrite fmap_cons, IH.
Qed.

(** After any number of completed tasks the index points at first rows, a
    log with one row per identifier has kept that shape, and the log was
    handed to [write_log] once per task. *)
Lemma run_tasks_indexed e tasks : ∀ ls,
  Forall is_material_id tasks →
  indexed (index ls.1) (log_rows ls.1) →
  indexed (index (run_tasks e ls tasks).1) (log_rows (run_tasks e ls tasks).1)
  ∧ (NoDup (row_key <$> log_rows ls.1) →
     NoDup (row_key <$> log_rows (run_tasks e ls tasks).1))
  ∧ length (log_trace (run_tasks e ls tasks).2)
    = length (log_trace ls.2) + length tasks.
Proof.
  induction tasks as [|t tasks IH]; intros [l st] Hids Hinv.
  { cbn. split_and!; [done|done|lia]. }
  apply Forall_cons in Hids as [Ht Hids]. rewrite run_tasks_cons.
  cbn [fst snd] in Hinv.
  destruct (run_task_indexed e l st t Ht Hinv) as [Hinv1 _].
  destruct (IH (run_task e (l, st) t) Hids Hinv1) as (H1 & H2 & H3).
  split_and!; [done| |].
  - intros Hnd. apply H2. by apply run_task_NoDup.
  - rewrite H3. destruct (run_task_effect e l st t) as (_ & _ & -> & _).
    rewrite length_app. simpl. lia.
Qed.


Lemma first_row_head X rows i :
  first_row X rows = Some i → head (rows_of X rows) = rows !! i.
Proof.
  unfold first_row, rows_of. revert i.
  induction rows as [|r rows IH]; intros i; [done|].
  rewrite filter_cons. cbn [list_find].
  destruct (decide (row_key r = X)) as [Hr|Hr].
  - by intros [= <-].
  - destruct (list_find _ rows) as [[j x]|]; [|done]. cbn.
    intros [= <-]. by apply IH.
Qed.

Lemma head_rows_of X rows r :
  head (rows_of X rows) = Some r →
  ∃ i, first_row X rows = Some i ∧ rows !! i = Some r.
Proof.
  intros H. destruct (first_row X rows) as [i|] eqn:E.
  - exists i. split; [done|]. by rewrite <- (first_row_head X rows i).
  - apply first_row_None in E. unfold rows_of in H.
    destruct (filter _ rows) as [|x ?] eqn:Hf; [done|].
    assert (x ∈ filter (λ r, row_key r = X) rows) as Hx by (rewrite Hf; left).
    apply list_elem_of_filter in Hx as [Hk Hx]. destruct E.
    apply list_elem_of_fmap. by exists x.
Qed.

(** An identifier whose first row is marked is in the initial set. *)
Lemma elem_of_initially_downloaded X rows r :
  X ≠ "" → head (rows_of X rows) = Some r →
  marked r = true →
  X ∈ initially_downloaded (build_index rows) rows.
Proof.
  intros HX (i & Hi & Hr)%head_rows_of Ht.
  unfold initially_downloaded. apply elem_of_dom. exists i.
  apply map_lookup_filter_Some. split.
  - by rewrite build_index_indexed, decide_False.
  - cbn. unfold marked_downloaded. by rewrite Hr, Ht.
Qed.

(** The first row of an identifier holds its last recorded outcome. *)
Lemma run_task_own_row e l st X :
  is_material_id X →
  indexed (index l) (log_rows l) →
  head (rows_of X (log_rows (run_task e (l, st) X).1))
  = Some (result_row X (succeeded (download_cif e X st).1)).
Proof.
  intros Hid Hinv.
  destruct (run_task_indexed e l st X Hid Hinv) as [Hinv1 HX].
  destruct (run_task_effect e l st X) as (Hr & _).
  set (new := result_row X _) in *.
  assert (∃ i, first_row X (log_rows (run_task e (l, st) X).1) = Some i
               ∧ log_rows (run_task e (l, st) X).1 !! i = Some new)
    as (i & Hi & Hnew).
  { rewrite Hr. destruct (index l !! X) as [i|] eqn:Ei.
    - symmetry in HX. pose proof HX as (old & Hold & Hk)%first_row_Some.
      exists i. split.
      + rewrite (first_row_insert _ _ _ old); [done..|].
        rewrite Hk. by apply row_key_new.
      + apply list_lookup_insert_eq. by eapply lookup_lt_Some.
    - exists (length (log_rows l)). split.
      + rewrite first_row_snoc, <- HX, decide_True; [done|].
        by apply row_key_new.
      + by rewrite lookup_app_r, Nat.sub_diag. }
  by rewrite (first_row_head _ _ i).
Qed.

Lemma run_tasks_last_result e X tasks : ∀ ls,
  is_material_id X →
  Forall is_material_id tasks →
  indexed (index ls.1) (log_rows ls.1) →
  match last (filter (λ r, r.1 = X) (pool_results e ls tasks)) with
  | Some r =>
      head (rows_of X (log_rows (run_tasks e ls tasks).1))
      = Some (result_row X r.2)
  | None =>
      rows_of X (log_rows (run_tasks e ls tasks).1) = rows_of X (log_rows ls.1)
  end.
Proof.
  induction tasks as [|t tasks IH]; intros [l st] HX Hids Hinv; [done|].
  apply Forall_cons in Hids as [Ht Hids]. rewrite run_tasks_cons.
  cbn [fst snd] in Hinv. cbn [pool_results].
  destruct (run_task_indexed e l st t Ht Hinv) as [Hinv1 _].
  specialize (IH (run_task e (l, st) t) HX Hids Hinv1).
  set (rest := filter _ (pool_results e (run_task e (l, st) t) tasks)) in *.
  destruct (decide (t = X)) as [->|Hne].
  - rewrite filter_cons_True by done. fold rest.
    destruct rest as [|r rest'] eqn:Hrest.
    + cbn in *. rewrite IH. by apply run_task_own_row.
    + rewrite last_cons.
      destruct (last (r :: rest')) eqn:E; [done|]. by apply last_None in E.
  - rewrite filter_cons_False by done. fold rest.
    destruct (last rest); [done|]. rewrite IH.
    by apply run_task_others.
Qed.

End pool.
(** ** download_cifs.py: the log across runs *)

Section log_claims.

Import DownloadCifs.

Implicit Types (rows : list row) (l : locals) (st : state) (ls : locals * state).

Lemma main_start_rows st rows :
  log_disk st = LogRows rows →
  main_start st
  = (Locals 0 (initially_downloaded (build_index rows) rows)
            (build_index rows) rows, st).
Proof. intros H. unfold main_start, load_log. by rewrite H. Qed.

Lemma main_start_indexed st :
  indexed (index (main_start st).1) (log_rows (main_start st).1)
  ∧ log_rows (main_start st).1 = disk_rows (log_disk st)
  ∧ log_trace (main_start st).2 = log_trace st
  ∧ requests (main_start st).2 = requests st
  ∧ dir (main_start st).2 = dir st.
Proof.
  unfold main_start, load_log.
  destruct (log_disk st);
    cbn [fst snd index log_rows log_trace requests dir print disk_rows];
    split_and!; try done; apply (build_index_indexed []) || apply build_index_indexed.
Qed.

(** The pool gets identifiers of the list that the log does not mark. *)
Lemma main_tasks_spec e ids_file material_ids st :
  (∀ ts : list string, schedule e ts ≡ₚ ts) →
  iter_material_ids ids_file = inr material_ids →
  Forall is_material_id (main_tasks e ids_file st)
  ∧ ∀ X, X ∈ main_tasks e ids_file st →
         X ∈ material_ids ∧ X ∉ previously_downloaded (main_start st).1.
Proof.
  intros Hsched Hids. rewrite main_tasks_unfold, Hids.
  case_bool_decide as Hd.
  { split; [done|]. by intros X ?%elem_of_nil. }
  set (prev := previously_downloaded _).
  assert (∀ X, X ∈ ids_to_process material_ids prev → X ∈ material_ids ∧ X ∉ prev)
    as Hfilter.
  { intros X [??]%list_elem_of_filter. done. }
  pose proof (iter_material_ids_Forall _ _ Hids) as Hall.
  rewrite Forall_forall in Hall.
  destruct (ids_to_process material_ids prev) as [|x todo] eqn:E.
  - split; [done|]. by intros X ?%elem_of_nil.
  - split.
    + apply Forall_forall. intros X HX. rewrite Hsched in HX.
      apply Hall. by apply Hfilter.
    + intros X HX. rewrite Hsched in HX. by apply Hfilter.
Qed.

(** The tasks that run after the loop has ended touch no log; each fetches
    nothing or its own URL. *)
Lemma drain_effect e tasks : ∀ st,
  log_trace (drain e st tasks) = log_trace st
  ∧ log_disk (drain e st tasks) = log_disk st
  ∧ ∃ new, requests (drain e st tasks) = requests st ++ new
           ∧ new `sublist_of` (BASE_URL <$> tasks).
Proof.
  induction tasks as [|t tasks IH]; intros st.
  { cbn. split_and!; [done..|]. exists []. by rewrite app_nil_r. }
  cbn [drain foldl]. fold (drain e (download_cif e t st).2 tasks).
  destruct (IH (download_cif e t st).2) as (Ht & Hd & new & Hnew & Hsub).
  destruct (download_cif_log e t st) as [Hd1 Ht1].
  rewrite Ht, Hd, Hnew, Hd1, Ht1, fmap_cons. split_and!; [done..|].
  destruct (download_cif_requests e t st) as [-> | ->].
  - exists new. split; [done|]. by apply sublist_cons.
  - exists (BASE_URL t :: new). split; [by rewrite <- app_assoc|].
    by apply sublist_skip.
Qed.

(** The pool is a sequence of recorded tasks, followed, when a recording
    raised, by the tasks that were still to come, unrecorded. *)
Lemma run_pool_split e tasks : ∀ ls,
  ∃ recorded rest,
    tasks = recorded ++ rest
    ∧ (run_pool e ls tasks).2
      = ((run_tasks e ls recorded).1, drain e (run_tasks e ls recorded).2 rest)
    ∧ ((run_pool e ls tasks).1 = None → rest = []).
Proof.
  induction tasks as [|t tasks IH]; intros ls.
  { exists [], []. by destruct ls. }
  cbn [run_pool]. destruct (raised e ls t) as [exc|].
  - exists [t], tasks. done.
  - destruct (IH (run_task e ls t)) as (recorded & rest & -> & H2 & H3).
    by exists (t :: recorded), rest.
Qed.

(** What [main] leaves, in terms of the tasks it recorded. *)
Lemma main_effect e ids_file material_ids st :
  iter_material_ids ids_file = inr material_ids →
  log_disk st ≠ LogUndecodable →
  ∃ recorded rest,
    main_tasks e ids_file st = recorded ++ rest
    ∧ (main e ids_file st).1.2 = (run_tasks e (main_start st) recorded).1
    ∧ requests (main e ids_file st).2
      = requests (drain e (run_tasks e (main_start st) recorded).2 rest)
    ∧ ∃ final,
        log_trace (main e ids_file st).2
        = log_trace (run_tasks e (main_start st) recorded).2 ++ final
        ∧ Forall (λ s, s = log_rows (run_tasks e (main_start st) recorded).1) final.
Proof.
  intros Hids Hd. rewrite main_unfold, main_tasks_unfold, Hids.
  rewrite bool_decide_eq_false_2 by done.
  assert (∃ x, load_log st = inr x) as [x ->].
  { unfold load_log.
    destruct (log_disk st); [by eexists|by eexists|done|by eexists]. }
  destruct (ids_to_process _ _) as [|y todo].
  { exists [], []. cbn. split_and!; [done..|]. exists []. by rewrite app_nil_r. }
  set (tasks := schedule e (y :: todo)). cbv zeta.
  destruct (run_pool_split e tasks (main_start st))
    as (recorded & rest & Htasks & Hr & Hnone).
  exists recorded, rest. split; [done|].
  destruct (drain_effect e rest (run_tasks e (main_start st) recorded).2)
    as (Htr & _).
  destruct (run_pool e (main_start st) tasks) as [[exc|] [l st2]].
  - cbn [fst snd] in *. injection Hr as -> ->. split_and!; [done..|].
    exists []. by rewrite app_nil_r, Htr.
  - cbn [fst snd] in *. rewrite (Hnone eq_refl) in *. cbn [drain foldl] in *.
    injection Hr as -> ->.
    destruct (write_log_effect e (log_rows (run_tasks e (main_start st) recorded).1)
                (run_tasks e (main_start st) recorded).2)
      as (Hw1 & Hw2 & _).
    destruct (write_log e _ _) as [[exc|] st3]; cbn [fst snd] in *;
      (split_and!; [done|done|]); eexists [_]; (split; [done|]);
      by apply Forall_singleton.
Qed.


(** The first row of an identifier is still its first row in the file when
    it holds the identifier as a text. *)
Lemma head_rows_of_written X rows r s :
  X ≠ "" → row_id r = Text s →
  head (rows_of X rows) = Some r →
  head (rows_of X (written <$> rows)) = Some (written r).
Proof.
  intros HX Hs. unfold rows_of.
  induction rows as [|r0 rows IH]; [done|]. rewrite fmap_cons, !filter_cons.
  change (row_key (written r0)) with (Py.strip (cell_text (row_id r0))).
  destruct (decide (row_key r0 = X)) as [Hk|Hk].
  - intros [= ->]. rewrite decide_True; [done|].
    unfold row_key in Hk. by rewrite Hs in *.
  - intros H. rewrite decide_False; [by apply IH|].
    unfold row_key in Hk.
    destruct (row_id r0) as [| |s0]; cbn [cell_text cell_str] in *;
      [by rewrite strip_nil..|done].
Qed.




(** C4 as stated fails on a log that already holds two rows for one
    identifier: after the task for X has completed, the first row is
    overwritten and the second is still there, in memory and on disk. *)
Lemma log_keeps_duplicate_rows :
  let old := [Row (Text "X") (Text "False") false;
              Row (Text "X") (Text "False") false] in
  let st := State NoDir [] [] (LogRows old) [] in
  let ids_file := Some ("X" +:+ Py.nl)%string in
  let e := Env (λ _, Response 200 "cif") (λ _, NoFault) (λ _, 0) (λ _, NoFault)
               (λ _, LogAbsent) (λ ts, ts) in
  main_results e ids_file st = [("X", true)]
  ∧ log_rows (main e ids_file st).1.2
    = [Row (Text "X") (Text "True") false; Row (Text "X") (Text "False") false]
  ∧ log_disk (main e ids_file st).2
    = LogRows [Row (Text "X") (Text "True") false;
               Row (Text "X") (Text "False") false]
  ∧ ¬ NoDup (row_key <$> log_rows (main e ids_file st).1.2).
Proof.
  split_and!; try by vm_compute.
  assert (row_key <$> log_rows
            (main (Env (λ _, Response 200 "cif") (λ _, NoFault) (λ _, 0) (λ _, NoFault)
                       (λ _, LogAbsent) (λ ts, ts))
                  (Some ("X" +:+ Py.nl)%string)
                  (State NoDir [] []
                         (LogRows [Row (Text "X") (Text "False") false;
                                   Row (Text "X") (Text "False") false])
                         [])).1.2
          = ["X"; "X"]) as -> by (by vm_compute).
  intros [Hn _]%NoDup_cons. apply Hn. left.
Qed.

(** C4, amended.  Take a run whose existing log, if any, has no column
    besides id and downloaded, any identifiers completed so far and one more
    task, for X.  No log write has raised, so the pool is at that task.  The
    index maps every identifier to the first row that stands for it.  If the
    loaded log had at most one row per identifier, so has the log after the
    tasks completed so far.  The outcome of the task for X overwrites that
    first row in place, or is appended when the log has no row for X.  Right
    after it the full log is handed to [write_log], once per completed task.
    When that write meets no OS error the file holds every row of the log
    in memory, in order, with its two cells as text (a missing cell and
    [None] as the empty text); when the file cannot be opened it stays as
    it was. *)
Theorem log_after_every_task (e : env) (st : state) (tasks : list string)
    (X : string) :
  accepted (disk_rows (log_disk st)) →
  Forall is_material_id tasks →
  is_material_id X →
  let ls := run_tasks e (main_start st) tasks in
  let ls' := run_task e ls X in
  let new := result_row X (succeeded (download_cif e X ls.2).1) in
  run_pool e (main_start st) (tasks ++ [X]) = (None, ls')
  ∧ indexed (index ls.1) (log_rows ls.1)
  ∧ (NoDup (row_key <$> disk_rows (log_disk st))
     → NoDup (row_key <$> log_rows ls.1))
  ∧ log_rows ls'.1
    = match first_row X (log_rows ls.1) with
      | Some i => <[i := new]> (log_rows ls.1)
      | None => log_rows ls.1 ++ [new]
      end
  ∧ log_trace ls'.2 = log_trace ls.2 ++ [log_rows ls'.1]
  ∧ length (log_trace ls.2) = length (log_trace st) + length tasks
  ∧ (log_write e (length (log_trace ls.2)) = NoFault →
     log_disk ls'.2 = LogRows (written <$> log_rows ls'.1))
  ∧ (log_write e (length (log_trace ls.2)) = OpenFault →
     log_disk ls'.2 = log_disk ls.2).
Proof.
  intros Ha Htasks HX ls ls' new.
  destruct (main_start_indexed st) as (Hinv0 & Hrows0 & Htrace0 & _).
  destruct (run_tasks_indexed e tasks (main_start st) Htasks Hinv0)
    as (Hinv & Hnd & Hlen). fold ls in Hinv, Hnd, Hlen.
  assert (accepted (log_rows ls.1)) as Hals.
  { apply run_tasks_accepted. by rewrite Hrows0. }
  assert (run_pool e (main_start st) (tasks ++ [X]) = (None, ls')) as Hpool.
  { rewrite run_pool_accepted by (by rewrite Hrows0).
    unfold run_tasks. by rewrite foldl_app. }
  destruct ls as [l st1] eqn:Els. cbn [fst snd] in *.
  destruct (run_task_indexed e l st1 X HX Hinv) as [_ Hidx].
  destruct (run_task_accepted e l st1 X Hals) as [Hals' _].
  destruct (run_task_effect e l st1 X) as (Hr & _ & Htr & _ & _ & Hdisk).
  fold ls' in Hr, Htr, Hdisk, Hals'. rewrite <- Hidx.
  split_and!.
  - done.
  - done.
  - by rewrite <- Hrows0.
  - by rewrite Hr.
  - by rewrite Htr, Hr.
  - by rewrite Hlen, Htrace0.
  - intros Hok. rewrite Hok in Hdisk. rewrite <- Hr in Hdisk.
    rewrite list_find_accepted in Hdisk by done. by destruct Hdisk.
  - intros Hok. rewrite Hok in Hdisk. by destruct Hdisk.
Qed.

Lemma log_after_every_task_witness :
  let e := Env (λ _, Response 200 "cif") (λ _, NoFault) (λ _, 0)
               (λ n, if n =? 1 then OpenFault else NoFault)
               (λ _, LogAbsent) (λ ts, ts) in
  let st := State NoDir [] [] (LogRows [Row (Text "Y") NoneValue false]) [] in
  let ls := run_tasks e (main_start st) ["X"; "Y"] in
  let ls' := run_task e ls "X" in
  let new := result_row "X" (succeeded (download_cif e "X" ls.2).1) in
  let ks := run_tasks e (main_start st) ["X"] in
  let ks' := run_task e ks "Y" in
  (run_pool e (main_start st) (["X"; "Y"] ++ ["X"]) = (None, ls')
   ∧ indexed (index ls.1) (log_rows ls.1)
   ∧ NoDup (row_key <$> log_rows ls.1)
   ∧ log_rows ls'.1
     = match first_row "X" (log_rows ls.1) with
       | Some i => <[i := new]> (log_rows ls.1)
       | None => log_rows ls.1 ++ [new]
       end
   ∧ log_trace ls'.2 = log_trace ls.2 ++ [log_rows ls'.1]
   ∧ length (log_trace ls.2) = length (log_trace st) + length ["X"; "Y"]
   ∧ log_write e (length (log_trace ls.2)) = NoFault
   ∧ log_disk ls'.2 = LogRows (written <$> log_rows ls'.1))
  ∧ (log_write e (length (log_trace ks.2)) = OpenFault
     ∧ log_disk ks'.2 = log_disk ks.2).
Proof.
  intros e st ls ls' new ks ks'. split.
  - destruct (log_after_every_task e st ["X"; "Y"] "X")
      as (H1 & H2 & H3 & H4 & H5 & H6 & H7 & _).
    + by repeat constructor.
    + repeat (apply Forall_cons; split; [by split|]). constructor.
    + by split.
    + split_and!; [exact H1|exact H2| |exact H4|exact H5|exact H6| |].
      * apply H3. vm_compute. apply NoDup_singleton.
      * by vm_compute.
      * apply H7. by vm_compute.
  - destruct (log_after_every_task e st ["X"] "Y")
      as (_ & _ & _ & _ & _ & _ & _ & H8).
    + by repeat constructor.
    + repeat (apply Forall_cons; split; [by split|]). constructor.
    + by split.
    + split; [by vm_compute|]. apply H8. by vm_compute.
Defined.

End log_claims.

(** ** download_cif_list.py *)

Section scraper.

Import DownloadCifList.

(** A selected anchor has text after its first [/material/]. *)
Lemma split_second sep s :
  Py.contains sep s = true → sep ≠ "" → is_Some (Py.split sep s !! 1).
Proof.
  unfold Py.contains, Py.split. intros Hc Hsep.
  destruct (Py.partition sep s) as [[b a]|] eqn:Hp; [|done].
  destruct s as [|c s].
  { rewrite partition_unfold in Hp. destruct sep; [done|]. done. }
  cbn [String.length Py.split_upto]. rewrite Hp. cbn.
  destruct (String.length s); cbn; [by eexists|].
  destruct (Py.partition sep a) as [[??]|]; by eexists.
Qed.

Lemma select_anchor_Some row href :
  select_anchor row = Some href → is_Some (material_id_of href).
Proof.
  unfold select_anchor. intros [_ H]%find_some.
  by apply split_second.
Qed.

Lemma links_material p :
  Forall (λ href, is_Some (material_id_of href)) (links p).
Proof.
  unfold links. apply Forall_forall. intros href Hin.
  apply list_elem_of_omap in Hin as (row & _ & H).
  by eapply select_anchor_Some.
Qed.

Lemma write_link_Some ids out href m :
  material_id_of href = Some m →
  write_link (Some (ids, out)) href
  = if bool_decide (m ∈ ids) then Some (ids, out)
    else Some ({[m]} ∪ ids, (out +:+ m +:+ Py.nl)%string).
Proof. intros H. unfold write_link. by rewrite H. Qed.

(** The [for a in links] loop adds the identifiers it has not seen and
    writes them in order. *)
Lemma write_links hrefs : ∀ ids out,
  Forall (λ href, is_Some (material_id_of href)) hrefs →
  foldl write_link (Some (ids, out)) hrefs
  = Some (ids ∪ list_to_set (omap material_id_of hrefs),
          (out +:+ lines_of (fresh ids (omap material_id_of hrefs)))%string).
Proof.
  induction hrefs as [|href hrefs IH]; intros ids out Hall.
  { cbn. by rewrite append_nil_r, (right_id_L ∅ (∪)). }
  apply Forall_cons in Hall as [[m Hm] Hall].
  assert (omap material_id_of (href :: hrefs) = m :: omap material_id_of hrefs)
    as -> by (cbn; by rewrite Hm).
  cbn [foldl fresh]. rewrite (write_link_Some _ _ _ m Hm), list_to_set_cons.
  case_bool_decide as Hin.
  - rewrite IH by done. f_equal. f_equal.
    apply set_eq. intros x. rewrite !elem_of_union, elem_of_singleton.
    split; [tauto|]. intros [?|[->|?]]; tauto.
  - rewrite IH by done. f_equal. f_equal.
    + apply set_eq. intros x. rewrite !elem_of_union, elem_of_singleton.
      tauto.
    + cbn [lines_of]. by rewrite !append_assoc.
Qed.

(** A round stops exactly on one of the four conditions. *)
Lemma stops_iff p st :
  stops p st
  ↔ rows p = [] ∨ links p = [] ∨ next_btn p = NoNext
    ∨ disabled (next_btn p) = true.
Proof.
  unfold stops, process_page.
  destruct (rows p) as [|row rws] eqn:Hr.
  { split; [by left|]. intros _. by eexists _, _. }
  destruct (links p) as [|a ls] eqn:Hl.
  { split; [by right; left|]. intros _. by eexists _, _. }
  rewrite write_links by (rewrite <- Hl; apply links_material).
  destruct (next_btn p) as [| |classes] eqn:Hn.
  - split; [by right; right; left|]. intros _. by eexists _, _.
  - cbn. split; [by intros (? & ? & ?)|]. intros [?|[?|[?|?]]]; done.
  - destruct (disabled (NextIn classes)) eqn:Hd.
    + split; [by right; right; right|]. intros _. by eexists _, _.
    + split; [by intros (? & ? & ?)|]. intros [?|[?|[?|?]]]; done.
Qed.

Lemma links_rows p : links p ≠ [] → rows p ≠ [].
Proof. unfold links. by destruct (rows p). Qed.

Lemma process_goes_on p st :
  goes_on p = true →
  process_page p st
  = inr (State (existing_ids st ∪ list_to_set (page_ids p))
               (file st +:+ lines_of (fresh (existing_ids st) (page_ids p)))
               (S (page_no st)) (fetched st)).
Proof.
  unfold goes_on, process_page, page_ids. intros H.
  destruct (links p) as [|a ls] eqn:Hl; [done|].
  assert (rows p ≠ []) as Hr by (apply links_rows; by rewrite Hl).
  destruct (rows p) as [|row rws]; [done|].
  rewrite write_links by (rewrite <- Hl; apply links_material).
  destruct (next_btn p) as [| |classes]; [done|done|].
  cbn in H. apply negb_true_iff in H. unfold disabled. by rewrite H.
Qed.

Lemma process_is_last p st :
  is_last p = true →
  process_page p st
  = inl (LastPage,
         State (existing_ids st ∪ list_to_set (page_ids p))
               (file st +:+ lines_of (fresh (existing_ids st) (page_ids p)))
               (page_no st) (fetched st)).
Proof.
  unfold is_last, process_page, page_ids. intros H.
  destruct (links p) as [|a ls] eqn:Hl; [done|].
  assert (rows p ≠ []) as Hr by (apply links_rows; by rewrite Hl).
  destruct (rows p) as [|row rws]; [done|].
  rewrite write_links by (rewrite <- Hl; apply links_material).
  destruct (next_btn p) as [| |classes]; [done|done|]. by rewrite H.
Qed.

Lemma fresh_app a : ∀ seen b,
  fresh seen (a ++ b) = fresh seen a ++ fresh (seen ∪ list_to_set a) b.
Proof.
  induction a as [|m a IH]; intros seen b.
  { cbn [app fresh]. by rewrite list_to_set_nil, (right_id_L ∅ (∪)). }
  cbn [app fresh]. rewrite list_to_set_cons. case_bool_decide as Hin.
  - rewrite IH. do 2 f_equal.
    apply set_eq. intros x. rewrite !elem_of_union, elem_of_singleton.
    split; [tauto|]. intros [?|[->|?]]; tauto.
  - rewrite IH. cbn [app]. do 3 f_equal.
    apply set_eq. intros x. rewrite !elem_of_union, elem_of_singleton. tauto.
Qed.

Lemma lines_of_app a b : lines_of (a ++ b) = (lines_of a +:+ lines_of b)%string.
Proof.
  induction a as [|m a IH]; [done|]. cbn [app lines_of].
  by rewrite IH, !append_assoc.
Qed.

Lemma ids_of_pages_S site k n :
  ids_of_pages site k (S n) = page_ids (site k) ++ ids_of_pages site (S k) n.
Proof. done. Qed.

Lemma successes_cons ok net :
  successes (ok :: net) = if ok then S (successes net) else successes net.
Proof. by destruct ok. Qed.

Lemma scrape_cons site ok net st :
  scrape site (ok :: net) st
  = let st1 := State (existing_ids st) (file st) (page_no st)
                     (fetched st ++ [page_no st]) in
    if ok then
      match process_page (site (page_no st)) st1 with
      | inl (why, st') => (Stopped why, st')
      | inr st' => scrape site net st'
      end
    else scrape site net st1.
Proof. done. Qed.

(** With pages [k] to [n - 1] going on and page [n] the last one, the loop
    stops on page [n] once enough requests got through, holding the
    identifiers of exactly these pages. *)
Lemma scrape_to_last site n net : ∀ k st,
  page_no st = k → k ≤ n →
  (∀ j, k ≤ j < n → goes_on (site j) = true) →
  is_last (site n) = true →
  S (n - k) ≤ successes net →
  ∃ st', scrape site net st = (Stopped LastPage, st')
    ∧ page_no st' = n
    ∧ existing_ids st'
      = existing_ids st ∪ list_to_set (ids_of_pages site k (S (n - k)))
    ∧ file st'
      = (file st +:+ lines_of (fresh (existing_ids st)
                                     (ids_of_pages site k (S (n - k)))))%string
    ∧ ∃ new, fetched st' = fetched st ++ new ∧ Forall (λ j, k ≤ j ≤ n) new.
Proof.
  induction net as [|ok net IH]; intros k st Hk Hkn Hgo Hlast Hnet.
  { cbn in Hnet. lia. }
  rewrite successes_cons in Hnet. rewrite scrape_cons. cbv zeta.
  destruct ok.
  - destruct (decide (k = n)) as [->|Hne].
    + rewrite Hk, process_is_last by done. eexists. split; [done|].
      cbn [page_no existing_ids file fetched]. rewrite Nat.sub_diag.
      rewrite ids_of_pages_S. cbn [ids_of_pages seq flat_map]. rewrite app_nil_r.
      split_and!; [done..|]. exists [n]. split; [done|].
      apply Forall_singleton. lia.
    + rewrite Hk, process_goes_on by (apply Hgo; lia).
      cbn [page_no existing_ids file fetched].
      set (st1 := State _ _ (S _) _).
      destruct (IH (S k) st1) as (st' & Hrun & Hp & Hids & Hfile & new & Hf & Hall);
        [done|lia|intros j ?; apply Hgo; lia|done|lia|].
      exists st'. split; [done|].
      replace (S (n - k)) with (S (S (n - S k))) by lia.
      rewrite ids_of_pages_S.
      split_and!; [done|..].
      * rewrite Hids. cbn [existing_ids st1]. rewrite list_to_set_app_L.
        by rewrite (assoc_L (∪)).
      * rewrite Hfile. cbn [existing_ids file st1].
        by rewrite fresh_app, lines_of_app, append_assoc.
      * exists (k :: new). split.
        -- rewrite Hf. cbn [fetched st1]. by rewrite <- app_assoc.
        -- apply Forall_cons. split; [lia|].
           eapply Forall_impl; [done|]. intros j ?. cbv beta in *. lia.
  - set (st1 := State _ _ _ _).
    destruct (IH k st1) as (st' & Hrun & Hp & Hids & Hfile & new & Hf & Hall);
      try done.
    exists st'. split_and!; try done. exists (k :: new). split.
    + rewrite Hf. cbn [fetched st1]. by rewrite <- app_assoc, Hk.
    + apply Forall_cons. split; [lia|done].
Qed.

(** C9 as stated fails on a page whose rows hold no material link: the rows
    are there and the next-page control is present and not disabled, yet the
    loop stops. *)
Lemma scraper_stops_without_links :
  ¬ (∀ p st, stops p st
             ↔ rows p = [] ∨ next_btn p = NoNext
               ∨ disabled (next_btn p) = true).
Proof.
  intros H.
  destruct (H (Page [["/about"]] (NextIn ["page-item"])) (start None))
    as [Hstop _].
  assert (stops (Page [["/about"]] (NextIn ["page-item"])) (start None)) as Hs.
  { by eexists _, _. }
  apply Hstop in Hs. destruct Hs as [?|[?|?]]; done.
Qed.

(** C9, amended.  A round of the loop on a fetched page stops exactly when
    the page has no data rows, or none of its rows has a material link, or
    the next-page control is absent, or that control is marked disabled.
    For a site whose first and second page go on and whose third page has
    material links and a disabled next-page control, the loop, as soon as
    three requests got through, has stopped on the third page: no page
    beyond it was requested, the set of identifiers holds those already in
    the output file and those of pages one to three, and the file has gained
    the new ones among them, each once and in page order. *)
Theorem scraper_stops_on_last_page :
  (∀ p st, stops p st
           ↔ rows p = [] ∨ links p = [] ∨ next_btn p = NoNext
             ∨ disabled (next_btn p) = true)
  ∧ (∀ (site : nat → page) (net : list bool) (output_file : option string),
       goes_on (site 0) = true → goes_on (site 1) = true →
       is_last (site 2) = true → 3 ≤ successes net →
       let ids := page_ids (site 0) ++ page_ids (site 1) ++ page_ids (site 2) in
       ∃ st', scrape site net (start output_file) = (Stopped LastPage, st')
         ∧ page_no st' = 2
         ∧ Forall (λ j, j ≤ 2) (fetched st')
         ∧ existing_ids st' = load_existing output_file ∪ list_to_set ids
         ∧ file st'
           = (default "" output_file
              +:+ lines_of (fresh (load_existing output_file) ids))%string).
Proof.
  split; [apply stops_iff|].
  intros site net output_file H0 H1 H2 Hnet ids.
  assert (∀ j, 0 ≤ j < 2 → goes_on (site j) = true) as Hgo.
  { intros j ?. assert (j = 0 ∨ j = 1) as [-> | ->] by lia; done. }
  destruct (scrape_to_last site 2 net 0 (start output_file) eq_refl
              (Nat.le_0_l 2) Hgo H2 Hnet)
    as (st' & Hrun & Hp & Hids & Hfile & new & Hf & Hall).
  assert (ids_of_pages site 0 3 = ids) as Hpages.
  { unfold ids_of_pages, ids. cbn. by rewrite app_nil_r. }
  cbn [Nat.sub] in Hids, Hfile. rewrite Hpages in Hids, Hfile.
  exists st'. split_and!; try done.
  cbn in Hf. rewrite Hf. eapply Forall_impl; [done|]. intros j ?. cbv beta in *. lia.
Qed.

Lemma scraper_stops_on_last_page_witness :
  let site := λ n : nat,
    match n with
    | 0 => Page [["/material/a1"]; ["/about"; "/material/a2"]; []]
                (NextIn ["page-item"])
    | 1 => Page [["/material/a1"]; ["/material/b"]] NextWithoutItem
    | 2 => Page [["/material/c"]] (NextIn ["page-item"; "disabled"])
    | _ => Page [["/material/d"]] (NextIn ["page-item"])
    end in
  let net := [true; false; true; true; true] in
  let ids := page_ids (site 0) ++ page_ids (site 1) ++ page_ids (site 2) in
  ∃ st', scrape site net (start None) = (Stopped LastPage, st')
    ∧ page_no st' = 2
    ∧ Forall (λ j, j ≤ 2) (fetched st')
    ∧ existing_ids st' = load_existing None ∪ list_to_set ids
    ∧ file st' = (default "" None
                  +:+ lines_of (fresh (load_existing None) ids))%string.
Proof.
  intros site net.
  apply (proj2 scraper_stops_on_last_page site net None);
    [reflexivity|reflexivity|reflexivity|].
  vm_compute. lia.
Defined.

End scraper.

(** * Further properties *)

(** ** The identifier list as the downloader and the checker read it *)

Section identifier_list.

Import DownloadCifs.

Lemma iter_material_ids_step_filter lines : ∀ acc,
  foldl iter_material_ids_step acc lines
  = acc ++ filter (λ s, s ≠ "" ∧ Py.startswith s "#" = false)
                  (Py.strip <$> lines).
Proof.
  induction lines as [|raw lines IH]; intros acc.
  { by rewrite app_nil_r. }
  cbn [foldl fmap list_fmap]. rewrite IH. unfold iter_material_ids_step.
  case_bool_decide as Hb; cbn [orb].
  - rewrite filter_cons_False; [done|]. by intros [? _].
  - destruct (Py.startswith (Py.strip raw) "#") eqn:Hc.
    + rewrite filter_cons_False; [done|]. intros [_ ?]. congruence.
    + rewrite filter_cons_True by done. by rewrite <- app_assoc.
Qed.

Lemma iter_ids_step_filter lines : ∀ acc,
  foldl CheckCifs.iter_ids_step acc lines
  = acc ∪ list_to_set (filter (λ s, s ≠ "" ∧ Py.startswith s "#" = false)
                              (Py.strip <$> lines)).
Proof.
  induction lines as [|raw lines IH]; intros acc.
  { cbn. by rewrite (right_id_L ∅ (∪)). }
  cbn [foldl fmap list_fmap]. rewrite IH. unfold CheckCifs.iter_ids_step.
  case_bool_decide as Hb; cbn [negb andb].
  - rewrite filter_cons_False; [done|]. by intros [? _].
  - destruct (Py.startswith (Py.strip raw) "#") eqn:Hc; cbn [negb].
    + rewrite filter_cons_False; [done|]. intros [_ ?]. congruence.
    + rewrite filter_cons_True, list_to_set_cons by done.
      apply set_eq. intros x. rewrite !elem_of_union, elem_of_singleton. tauto.
Qed.

Lemma iter_material_ids_eq_listed content :
  iter_material_ids (Some content)
  = match listed content with
    | [] => inl NoMaterialIds
    | _ => inr (listed content)
    end.
Proof.
  unfold iter_material_ids, listed.
  rewrite iter_material_ids_step_filter. cbn [app].
  by destruct (filter _ _).
Qed.

Lemma listed_material_ids content :
  Forall (λ s, is_material_id s ∧ Py.startswith s "#" = false)
         (listed content).
Proof.
  unfold listed. apply Forall_forall.
  intros s [[Hne Hc] Hin]%list_elem_of_filter.
  apply list_elem_of_fmap in Hin as (raw & -> & _).
  split; [|done]. split; [done|]. apply strip_idempotent.
Qed.

Lemma iter_ids_listed content :
  CheckCifs.iter_ids content = list_to_set (listed content).
Proof.
  unfold CheckCifs.iter_ids, listed. rewrite iter_ids_step_filter.
  by rewrite (left_id_L ∅ (∪)).
Qed.

(** X1.  Reading the identifier file: bytes that are not UTF-8 raise
    UnicodeDecodeError; UTF-8 text gives the stripped lines that are neither
    empty nor comments, in file order and with repetitions, and SystemExit
    exactly when there is none.  Blank is meant as [str.strip] means it,
    with the white space of all of Unicode.  Every identifier returned is
    non-empty, is its own [strip] and does not begin with #. *)
Theorem iter_material_ids_listed (bytes : string) :
  match read_ids (Some bytes) with
  | inl exc => Py.valid_utf8 bytes = false ∧ exc = "UnicodeDecodeError"
  | inr ids_file =>
      Py.valid_utf8 bytes = true
      ∧ ids_file = Some bytes
      ∧ iter_material_ids ids_file
        = match listed bytes with
          | [] => inl NoMaterialIds
          | _ => inr (listed bytes)
          end
  end
  ∧ Forall (λ s, is_material_id s ∧ Py.startswith s "#" = false)
           (listed bytes).
Proof.
  split; [|apply listed_material_ids].
  unfold read_ids, Py.decode. destruct (Py.valid_utf8 bytes); [|done].
  split_and!; [done..|]. apply iter_material_ids_eq_listed.
Qed.

(** X2.  The checker expects exactly the identifiers the downloader would
    process: [iter_ids] of check_cifs.py is the set of the list that
    [iter_material_ids] of download_cifs.py returns for the same file, and
    it is empty exactly when the downloader refuses the file as empty. *)
Theorem iter_ids_agrees (content : string) :
  (∀ material_ids,
     iter_material_ids (Some content) = inr material_ids →
     CheckCifs.iter_ids content = list_to_set material_ids)
  ∧ (iter_material_ids (Some content) = inl NoMaterialIds
     ↔ CheckCifs.iter_ids content = ∅).
Proof.
  rewrite iter_material_ids_eq_listed, iter_ids_listed. destruct (listed content) as [|x l]; split.
  - by intros ?.
  - done.
  - by intros ? [= <-].
  - split; [done|]. rewrite list_to_set_cons. intros H.
    assert (x ∈ ({[x]} ∪ list_to_set l : gset string)) as Hx.
    { apply elem_of_union. left. by apply elem_of_singleton. }
    rewrite H in Hx. by apply elem_of_empty in Hx.
Qed.

End identifier_list.

(** ** download_cifs.py: one task and the directory *)

Section task_directory.

Import DownloadCifs.

Implicit Types (st : state) (entries : list entry).

Lemma set_dir_same st entries : dir st = Dir entries → set_dir (Dir entries) st = st.
Proof. intros <-. by destruct st. Qed.

Lemma scan_dir_ExactCase_file target lower_target entries x :
  scan_dir target lower_target entries = ExactCase x → is_file x = true.
Proof.
  induction entries as [|e entries IH]; [done|]. simpl.
  destruct (is_file e) eqn:Hf; simpl; [|done].
  case_bool_decide; simpl; [|done].
  case_bool_decide; [|done]. by intros [= <-].
Qed.

(** The name [resolve_output_path] returns and its skip mark, by the scan. *)
Lemma resolve_skip_mark material_id entries :
  (resolve_output_path material_id entries).2 = true →
  ∃ x, x ∈ entries ∧ is_file x = true
       ∧ name x = (resolve_output_path material_id entries).1.
Proof.
  unfold resolve_output_path.
  destruct (scan_dir _ _ entries) as [x| |] eqn:Hs; [|done..].
  intros _. exists x. split_and!; [|by eapply scan_dir_ExactCase_file|done].
  by apply scan_dir_ExactCase in Hs as [? _].
Qed.

(** The resolved name is the plain one or the case-fix one. *)
Lemma resolve_names material_id entries :
  (resolve_output_path material_id entries).1 = (material_id +:+ ".cif")%string
  ∨ (resolve_output_path material_id entries).1
    = (material_id +:+ "__casefix-" +:+ casefix_suffix material_id
       +:+ ".cif")%string.
Proof.
  rewrite resolve_by_first_match.
  destruct (first_match material_id entries) as [x|]; [|by left].
  case_bool_decide; [by left|by right].
Qed.

(** *** Names of one path component *)

Lemma prefix_nil s : String.prefix "" s = true.
Proof. by destruct s. Qed.

Lemma contains_char c s :
  Py.contains (String c "") s
  = negb (Py.all_chars (λ x, negb (Ascii.eqb x c)) s).
Proof.
  unfold Py.contains. induction s as [|x s IH]; [done|].
  rewrite partition_unfold. cbn [String.prefix Py.all_chars].
  destruct (ascii_dec c x) as [->|Hne].
  - by rewrite prefix_nil, Ascii.eqb_refl.
  - assert (Ascii.eqb x c = false) as -> by (apply Ascii.eqb_neq; congruence).
    cbn [negb andb]. rewrite <- IH. by destruct (Py.partition _ s) as [[??]|].
Qed.

Lemma contains_char_app c s t :
  Py.contains (String c "") (s +:+ t)
  = Py.contains (String c "") s || Py.contains (String c "") t.
Proof. by rewrite !contains_char, all_chars_append, negb_andb. Qed.

Lemma all_chars_impl (p q : ascii → bool) s :
  (∀ c, p c = true → q c = true) →
  Py.all_chars p s = true → Py.all_chars q s = true.
Proof.
  intros H. induction s as [|c s IH]; [done|]. simpl.
  intros [Hc Hs]%andb_true_iff. by rewrite (H c Hc), IH.
Qed.

Lemma hex_not_char c s :
  CheckCifs.is_hex_char c = false →
  Py.all_chars CheckCifs.is_hex_char s = true →
  Py.contains (String c "") s = false.
Proof.
  intros Hc Hs. rewrite contains_char. apply negb_false_iff.
  eapply all_chars_impl; [|done]. intros x Hx. apply negb_true_iff.
  apply Ascii.eqb_neq. congruence.
Qed.

(** The names a task writes for an identifier of one path component are of
    one component too. *)
Lemma plain_name_resolved material_id entries :
  plain_name material_id →
  plain_name (resolve_output_path material_id entries).1.
Proof.
  intros [Hs Hn]. destruct (casefix_suffix_hex8 material_id) as [_ Hhex].
  pose proof (hex_not_char "/" _ eq_refl Hhex) as Hs'.
  pose proof (hex_not_char (ascii_of_nat 0) _ eq_refl Hhex) as Hn'.
  unfold plain_name, NUL in *.
  destruct (resolve_names material_id entries) as [-> | ->];
    by rewrite !contains_char_app, ?Hs, ?Hn, ?Hs', ?Hn'.
Qed.

(** *** What writing the file does to the listing *)

Lemma elem_of_placed k x entries y :
  y ∈ placed k x entries ↔ y = x ∨ y ∈ entries.
Proof.
  unfold placed. rewrite elem_of_app, elem_of_cons.
  assert (y ∈ entries ↔ y ∈ take k entries ∨ y ∈ drop k entries) as ->; [|tauto].
  by rewrite <- elem_of_app, take_drop.
Qed.

Lemma find_placed_None {A} (p : A → bool) k y l :
  find p l = None → find p (take k l ++ y :: drop k l) = find p [y].
Proof.
  revert k. induction l as [|x l IH]; intros k Hl.
  { by destruct k. }
  cbn [find] in Hl. destruct (p x) eqn:Hx; [done|].
  destruct k as [|k]; cbn [take drop app find].
  - by rewrite Hx, Hl.
  - rewrite Hx. by apply IH.
Qed.

Lemma find_placed_Some {A} (p : A → bool) k y l x :
  find p l = Some x → p y = false →
  find p (take k l ++ y :: drop k l) = Some x.
Proof.
  revert k. induction l as [|z l IH]; intros k Hl Hy; [done|].
  cbn [find] in Hl.
  destruct k as [|k]; cbn [take drop app find].
  - by rewrite Hy.
  - destruct (p z); [done|]. by apply IH.
Qed.

Lemma touch_cases e n entries :
  (touch e n entries = entries ∧ path_exists n entries = true)
  ∨ (touch e n entries = placed (file_place e n) (Entry n true) entries
     ∧ path_exists n entries = false).
Proof. unfold touch. destruct (path_exists n entries); [by left|by right]. Qed.

Lemma write_bytes_listing e n entries :
  match write_bytes e n entries with
  | FileWritten entries' | WriteFailed entries' =>
      entries' = entries
      ∨ entries' = placed (file_place e n) (Entry n true) entries
  | WriteRaised _ => True
  end.
Proof.
  unfold write_bytes. destruct (Py.contains NUL n); [done|].
  destruct (Py.contains "/" n); [destruct (file_write e n); by left|].
  destruct (existsb _ entries); [by left|].
  destruct (touch_cases e n entries) as [[-> _]|[-> _]];
    destruct (file_write e n); (by left) || by right.
Qed.

(** Writing under a name of one path component leaves a file of that name. *)
Lemma write_bytes_written e n entries entries' :
  plain_name n →
  write_bytes e n entries = FileWritten entries' →
  ∃ x, x ∈ entries' ∧ is_file x = true ∧ name x = n.
Proof.
  intros [Hs Hn]. unfold write_bytes. rewrite Hs, Hn.
  destruct (existsb _ entries) eqn:Hdir; [done|].
  destruct (file_write e n); [|done..]. intros [= <-].
  destruct (touch_cases e n entries) as [[-> Hex]|[-> _]].
  - unfold path_exists in Hex.
    apply existsb_exists in Hex as (x & Hin & Hx).
    apply bool_decide_eq_true in Hx. exists x.
    split_and!; [by apply list_elem_of_In| |done].
    destruct (is_file x) eqn:Hf; [done|].
    assert (existsb (λ y, bool_decide (name y = n) && negb (is_file y)) entries
            = true) as Hc; [|congruence].
    apply existsb_exists. exists x. split; [done|].
    by rewrite bool_decide_eq_true_2, Hf.
  - exists (Entry n true).
    split_and!; [|done..]. apply elem_of_placed. by left.
Qed.

(** The directory after one task: nothing is removed, the entries keep their
    order, and at most the file of the resolved name is new. *)
Lemma download_cif_dir_effect e material_id st entries :
  mkdir (dir st) = Some entries →
  let n := (resolve_output_path material_id entries).1 in
  ∃ entries', dir (download_cif e material_id st).2 = Dir entries'
    ∧ (entries' = entries
       ∨ entries' = placed (file_place e n) (Entry n true) entries)
    ∧ (plain_name material_id →
       (download_cif e material_id st).1 = Returned true →
       ∃ x, x ∈ entries' ∧ is_file x = true ∧ name x = n).
Proof.
  intros Hd n. subst n. unfold download_cif. rewrite Hd.
  pose proof (resolve_skip_mark material_id entries) as Hskip.
  pose proof (plain_name_resolved material_id entries) as Hplain.
  destruct (resolve_output_path material_id entries) as [n ex]. cbn [fst snd] in *.
  destruct (ex && path_exists n entries) eqn:Hex.
  { apply andb_true_iff in Hex as [-> _]. exists entries.
    split_and!; [done|by left|]. intros _ _. by apply Hskip. }
  destruct (http e (BASE_URL material_id)) as [status data| | | |];
    try (exists entries; split_and!; [done|by left|done]).
  destruct (negb (status =? 200));
    [exists entries; split_and!; [done|by left|done]|].
  pose proof (write_bytes_listing e n entries) as Hl.
  destruct (write_bytes e n entries) as [entries'|entries'|exc] eqn:Hw.
  - exists entries'. split_and!; [done|done|]. intros Hp _.
    eapply write_bytes_written; [by apply Hplain|done].
  - exists entries'. split_and!; done.
  - exists entries. split_and!; [done|by left|done].
Qed.

(** X3.  A task for an identifier of one path component (no slash, no NUL)
    never removes or renames a directory entry and adds at most one: the
    file it resolved to, which is named id.cif or
    id__casefix-<suffix>.cif.  When the task returns success, a regular
    file of that name is in the directory.  When the directory cannot be
    made, the task raises and leaves the state as it was. *)
Theorem download_cif_directory (e : env) (material_id : string) (st : state) :
  plain_name material_id →
  match mkdir (dir st) with
  | None => download_cif e material_id st = (Raised "mkdir", st)
  | Some entries =>
      ∃ entries' n,
        dir (download_cif e material_id st).2 = Dir entries'
        ∧ (n = (material_id +:+ ".cif")%string
           ∨ n = (material_id +:+ "__casefix-" +:+ casefix_suffix material_id
                  +:+ ".cif")%string)
        ∧ (∀ x, x ∈ entries → x ∈ entries')
        ∧ (∀ x, x ∈ entries' → x ∈ entries ∨ x = Entry n true)
        ∧ ((download_cif e material_id st).1 = Returned true →
           ∃ x, x ∈ entries' ∧ is_file x = true ∧ name x = n)
  end.
Proof.
  intros Hp. destruct (mkdir (dir st)) as [entries|] eqn:Hd.
  2: { unfold download_cif. by rewrite Hd. }
  destruct (download_cif_dir_effect e material_id st entries Hd)
    as (entries' & Hdir & Hor & Hok).
  exists entries', (resolve_output_path material_id entries).1.
  split_and!; [done|apply resolve_names| | |by apply Hok].
  - intros x Hx. destruct Hor as [-> | ->]; [done|].
    apply elem_of_placed. by right.
  - intros x Hx. destruct Hor as [-> | ->]; [by left|].
    apply elem_of_placed in Hx as [->|?]; [by right|by left].
Qed.

Lemma download_cif_directory_witness :
  let e := Env (λ _, Response 200 "cif") (λ _, NoFault) (λ _, 0) (λ _, NoFault)
               (λ _, LogAbsent) (λ ts, ts) in
  let st := State (Dir [Entry "abc.cif" true]) [] [] LogAbsent [] in
  ∃ entries' n,
    dir (download_cif e "ABC" st).2 = Dir entries'
    ∧ (n = ("ABC" +:+ ".cif")%string
       ∨ n = ("ABC" +:+ "__casefix-" +:+ casefix_suffix "ABC" +:+ ".cif")%string)
    ∧ (∀ x, x ∈ [Entry "abc.cif" true] → x ∈ entries')
    ∧ (∀ x, x ∈ entries' → x ∈ [Entry "abc.cif" true] ∨ x = Entry n true)
    ∧ (download_cif e "ABC" st).1 = Returned true
    ∧ ∃ x, x ∈ entries' ∧ is_file x = true ∧ name x = n.
Proof.
  intros e st.
  assert (plain_name "ABC") as Hp by (by split).
  pose proof (download_cif_directory e "ABC" st Hp) as H.
  change (mkdir (dir st)) with (Some [Entry "abc.cif" true]) in H.
  destruct H as (entries' & n & H1 & H2 & H3 & H4 & H5).
  exists entries', n. split_and!; [exact H1|exact H2|exact H3|exact H4| |].
  - by vm_compute.
  - apply H5. by vm_compute.
Defined.

(** X4.  For an ASCII identifier and a directory of ASCII names: a task
    fetches its own URL at most once and nothing else.  It fetches nothing
    exactly when the directory cannot be made or the first file matching
    the target name in any letter case has the exact name; in that second
    case the task is a success.  The log is not touched. *)
Theorem download_cif_fetches (e : env) (material_id : string) (st : state) :
  Py.is_ascii material_id = true →
  (∀ entries, mkdir (dir st) = Some entries →
              Forall (λ x, Py.is_ascii (name x) = true) entries) →
  let skip := ∃ entries x, mkdir (dir st) = Some entries
                ∧ first_match material_id entries = Some x
                ∧ name x = (material_id +:+ ".cif")%string in
  (requests (download_cif e material_id st).2 = requests st
   ∨ requests (download_cif e material_id st).2
     = requests st ++ [BASE_URL material_id])
  ∧ (requests (download_cif e material_id st).2 = requests st
     ↔ mkdir (dir st) = None ∨ skip)
  ∧ (skip → (download_cif e material_id st).1 = Returned true)
  ∧ log_disk (download_cif e material_id st).2 = log_disk st
  ∧ log_trace (download_cif e material_id st).2 = log_trace st.
Proof.
  intros _ _ skip. split; [apply download_cif_requests|].
  split; [|split; [|apply download_cif_log]].
  - assert (∀ l (x : string), l ≠ l ++ [x]) as Hneq.
    { intros l x H%(f_equal length). rewrite length_app in H. simpl in H. lia. }
    destruct (mkdir (dir st)) as [entries|] eqn:Hd.
    2: { split; [by left|]. intros _. unfold download_cif. by rewrite Hd. }
    destruct (first_match material_id entries) as [x|] eqn:Hm.
    + destruct (decide (name x = (material_id +:+ ".cif")%string)) as [Hx|Hx].
      * rewrite (download_cif_skip e material_id st entries x) by done.
        split; [|done]. intros _. right. by exists entries, x.
      * split.
        -- unfold download_cif. rewrite Hd, resolve_by_first_match, Hm.
           rewrite bool_decide_eq_false_2 by done. cbn [andb].
           destruct (http e _); try (intros H; by destruct (Hneq _ _ (eq_sym H))).
           destruct (negb (status =? 200));
             [intros H; by destruct (Hneq _ _ (eq_sym H))|].
           destruct (write_bytes e _ _);
             intros H; by destruct (Hneq _ _ (eq_sym H)).
        -- intros [?|(entries0 & x0 & ? & ? & ?)]; [done|]. congruence.
    + split.
      * unfold download_cif. rewrite Hd, resolve_by_first_match, Hm. cbn [andb].
        destruct (http e _); try (intros H; by destruct (Hneq _ _ (eq_sym H))).
        destruct (negb (status =? 200));
          [intros H; by destruct (Hneq _ _ (eq_sym H))|].
        destruct (write_bytes e _ _);
          intros H; by destruct (Hneq _ _ (eq_sym H)).
      * intros [?|(entries0 & x0 & ? & ? & ?)]; [done|]. congruence.
  - intros (entries & x & Hd & Hm & Hx).
    by rewrite (download_cif_skip e material_id st entries x).
Qed.

Lemma download_cif_fetches_witness :
  let e := Env (λ _, Response 200 "cif") (λ _, NoFault) (λ _, 0) (λ _, NoFault)
               (λ _, LogAbsent) (λ ts, ts) in
  let st := State (Dir [Entry "abc.cif" true; Entry "ABC.cif" false]) [] []
                  LogAbsent [] in
  let skip := ∃ entries x, mkdir (dir st) = Some entries
                ∧ first_match "ABC" entries = Some x
                ∧ name x = ("ABC" +:+ ".cif")%string in
  (requests (download_cif e "ABC" st).2 = requests st
   ∨ requests (download_cif e "ABC" st).2 = requests st ++ [BASE_URL "ABC"])
  ∧ (requests (download_cif e "ABC" st).2 = requests st
     ↔ mkdir (dir st) = None ∨ skip)
  ∧ (skip → (download_cif e "ABC" st).1 = Returned true)
  ∧ log_disk (download_cif e "ABC" st).2 = log_disk st
  ∧ log_trace (download_cif e "ABC" st).2 = log_trace st.
Proof.
  intros e st. apply (download_cif_fetches e "ABC" st).
  - reflexivity.
  - intros entries [= <-]. by repeat constructor.
Defined.

End task_directory.

(** ** download_cifs.py: the same identifier again *)

Section task_again.

Import DownloadCifs.

Implicit Types (st : state) (entries : list entry).

Lemma length_lower s : String.length (Py.lower s) = String.length s.
Proof. induction s as [|c s IH]; [done|]. simpl. by rewrite IH. Qed.

(** Without a match the target cannot exist as a file. *)
Lemma first_match_None_write e material_id entries entries' :
  plain_name material_id →
  first_match material_id entries = None →
  write_bytes e (material_id +:+ ".cif") entries = FileWritten entries' →
  entries' = placed (file_place e (material_id +:+ ".cif"))
                    (Entry (material_id +:+ ".cif") true) entries.
Proof.
  intros Hp Hm.
  pose proof (plain_name_resolved material_id entries Hp) as [Hs Hn].
  rewrite resolve_by_first_match, Hm in Hs, Hn. cbn [fst] in Hs, Hn.
  unfold write_bytes. rewrite Hs, Hn.
  destruct (existsb _ entries) eqn:Hdir; [done|].
  destruct (file_write e _); [|done..]. intros [= <-].
  destruct (touch_cases e (material_id +:+ ".cif") entries)
    as [[_ Hex]|[-> _]]; [exfalso|done].
  unfold path_exists in Hex. apply existsb_exists in Hex as (x & Hin & Hx).
  apply bool_decide_eq_true in Hx.
  unfold first_match in Hm. eapply find_none in Hm; [|done]. cbv beta in Hm.
  rewrite Hx, (bool_decide_eq_true_2 _ eq_refl), andb_true_r in Hm.
  assert (existsb (λ y, bool_decide (name y = (material_id +:+ ".cif")%string)
                        && negb (is_file y)) entries = true) as Hc;
    [|congruence].
  apply existsb_exists. exists x. split; [done|].
  by rewrite bool_decide_eq_true_2, Hm.
Qed.

(** X5.  For an ASCII identifier of one path component (no slash, no NUL)
    and a directory of ASCII names: when no file of the directory has the
    target name in any letter case and the task succeeds, the task run
    again for the same identifier is a skip: success, the skip message, no
    request, the directory as the first run left it. *)
Theorem download_cif_again_skips (e e' : env) (material_id : string)
    (st : state) (entries : list entry) :
  plain_name material_id →
  Py.is_ascii material_id = true →
  Forall (λ x, Py.is_ascii (name x) = true) entries →
  mkdir (dir st) = Some entries →
  first_match material_id entries = None →
  (download_cif e material_id st).1 = Returned true →
  download_cif e' material_id (download_cif e material_id st).2
  = (Returned true,
     print (MsgSkip material_id (material_id +:+ ".cif"))
           (download_cif e material_id st).2).
Proof.
  intros Hp _ _ Hd Hm Hok.
  set (entries1 := placed (file_place e (material_id +:+ ".cif"))
                          (Entry (material_id +:+ ".cif") true) entries).
  assert (dir (download_cif e material_id st).2 = Dir entries1) as Hdir.
  { revert Hok. unfold download_cif.
    rewrite Hd, resolve_by_first_match, Hm. cbn [andb].
    destruct (http e _); try done.
    destruct (negb (status =? 200)); [done|].
    destruct (write_bytes e _ entries) as [entries'|entries'|exc] eqn:Hw;
      [|done..].
    intros _. cbn. f_equal. by eapply first_match_None_write. }
  rewrite (download_cif_skip e' material_id _ entries1
             (Entry (material_id +:+ ".cif") true)).
  - by rewrite (set_dir_same _ _ Hdir).
  - by rewrite Hdir.
  - unfold first_match, entries1, placed. rewrite find_placed_None by done.
    cbn. by rewrite bool_decide_eq_true_2.
  - done.
Qed.

Lemma download_cif_again_skips_witness :
  let e := Env (λ _, Response 200 "cif") (λ _, NoFault) (λ _, 0) (λ _, NoFault)
               (λ _, LogAbsent) (λ ts, ts) in
  let st := State (Dir [Entry "Q.cif" true]) [] [] LogAbsent [] in
  download_cif e "X" (download_cif e "X" st).2
  = (Returned true, print (MsgSkip "X" ("X" +:+ ".cif")) (download_cif e "X" st).2).
Proof.
  apply (download_cif_again_skips _ _ "X" _ [Entry "Q.cif" true]);
    [by split|reflexivity|by repeat constructor|reflexivity..].
Defined.

(** X6.  When the first file matching the target name in any letter case has
    another spelling, the task fetches the URL and writes to the case-fix
    name, and the match is still the first one afterwards: the same
    identifier is fetched again by every later task, whether or not its
    case-fix file is already there. *)
Theorem download_cif_collision_fetches (e : env) (material_id : string)
    (st : state) (entries : list entry) (x : entry) :
  mkdir (dir st) = Some entries →
  first_match material_id entries = Some x →
  name x ≠ (material_id +:+ ".cif")%string →
  resolve_output_path material_id entries
  = ((material_id +:+ "__casefix-" +:+ casefix_suffix material_id
      +:+ ".cif")%string, false)
  ∧ requests (download_cif e material_id st).2
    = requests st ++ [BASE_URL material_id]
  ∧ ∃ entries', dir (download_cif e material_id st).2 = Dir entries'
      ∧ first_match material_id entries' = Some x.
Proof.
  intros Hd Hm Hx.
  assert (resolve_output_path material_id entries
          = ((material_id +:+ "__casefix-" +:+ casefix_suffix material_id
              +:+ ".cif")%string, false)) as Hres.
  { by rewrite resolve_by_first_match, Hm, bool_decide_eq_false_2. }
  split; [done|].
  destruct (download_cif_dir_effect e material_id st entries Hd)
    as (entries' & Hdir & Hor & _).
  split.
  - unfold download_cif. rewrite Hd, Hres. cbn [andb].
    destruct (http e _); try done.
    destruct (negb (status =? 200)); [done|].
    by destruct (write_bytes e _ _).
  - exists entries'. split; [done|].
    destruct Hor as [-> | ->]; [done|]. rewrite Hres. cbn [fst].
    apply find_placed_Some; [done|]. cbn [is_file name andb].
    apply bool_decide_eq_false. intros Heq%(f_equal String.length).
    rewrite !length_lower, !length_append in Heq. simpl in Heq. lia.
Qed.

Lemma download_cif_collision_fetches_witness :
  let e := Env (λ _, Response 200 "cif") (λ _, NoFault) (λ _, 0) (λ _, NoFault)
               (λ _, LogAbsent) (λ ts, ts) in
  let entries := [Entry "abc.cif" true; Entry "ABC__casefix-3c01bdbb.cif" true] in
  let st := State (Dir entries) [] [] LogAbsent [] in
  resolve_output_path "ABC" entries
  = (("ABC" +:+ "__casefix-" +:+ casefix_suffix "ABC" +:+ ".cif")%string, false)
  ∧ requests (download_cif e "ABC" st).2 = requests st ++ [BASE_URL "ABC"]
  ∧ ∃ entries', dir (download_cif e "ABC" st).2 = Dir entries'
      ∧ first_match "ABC" entries' = Some (Entry "abc.cif" true).
Proof.
  apply (download_cif_collision_fetches _ "ABC" _ _ (Entry "abc.cif" true));
    [reflexivity|reflexivity|discriminate].
Defined.

End task_again.

(** ** From the downloader's file names to the checker's identifiers *)

Section names_round_trip.

Lemma rfind_dot_append s t :
  CheckCifs.rfind_dot (s +:+ t)
  = match CheckCifs.rfind_dot t with
    | Some i => Some (String.length s + i)
    | None => CheckCifs.rfind_dot s
    end.
Proof.
  induction s as [|c s IH].
  - rewrite append_nil_l. by destruct (CheckCifs.rfind_dot t).
  - rewrite append_cons. cbn [CheckCifs.rfind_dot String.length]. rewrite IH.
    by destruct (CheckCifs.rfind_dot t).
Qed.

Lemma substring_append s t :
  String.substring 0 (String.length s) (s +:+ t) = s.
Proof.
  induction s as [|c s IH]; [by destruct t|].
  rewrite append_cons. cbn. by rewrite IH.
Qed.

(** A non-empty stem followed by [.cif] is a name with that stem and that
    suffix. *)
Lemma stem_suffix_cif s :
  s ≠ "" →
  CheckCifs.stem (s +:+ ".cif") = s ∧ CheckCifs.suffix (s +:+ ".cif") = ".cif".
Proof.
  intros Hs. unfold CheckCifs.stem, CheckCifs.suffix, CheckCifs.dot_index.
  rewrite rfind_dot_append. cbn [CheckCifs.rfind_dot Ascii.eqb Bool.eqb].
  rewrite Nat.add_0_r, length_append.
  assert (0 < String.length s) as Hlen by (destruct s; [done|simpl; lia]).
  assert ((0 <? String.length s)
          && (String.length s <? String.length s + String.length ".cif" - 1)
          = true) as ->.
  { apply andb_true_iff. split; apply Nat.ltb_lt; [done|simpl; lia]. }
  split; [apply substring_append|apply drop_append].
Qed.

(** X7.  Whatever name the downloader resolves for an identifier of one
    path component (no slash, no NUL) that is not empty and does not
    contain __casefix-, be it the plain name or the case-fix name, the
    checker counts a file of that name as that very identifier. *)
Theorem resolved_name_is_counted (material_id : string)
    (entries : list DownloadCifs.entry) :
  DownloadCifs.plain_name material_id →
  material_id ≠ "" →
  Py.contains CheckCifs.CASEFIX_SUFFIX material_id = false →
  let n := (DownloadCifs.resolve_output_path material_id entries).1 in
  Py.lower (CheckCifs.suffix n) = ".cif"
  ∧ CheckCifs.strip_casefix (CheckCifs.stem n) = material_id
  ∧ CheckCifs.iter_cif_names (Some [CheckCifs.Entry n true]) = {[material_id]}.
Proof.
  intros _ Hne Hc n.
  assert (Py.lower (CheckCifs.suffix n) = ".cif"
          ∧ CheckCifs.strip_casefix (CheckCifs.stem n) = material_id)
    as [Hsuf Hstem].
  { subst n. rewrite resolve_by_first_match.
    assert (CheckCifs.strip_casefix material_id = material_id) as Hplain.
    { unfold CheckCifs.strip_casefix. by rewrite Hc. }
    assert (∀ s, s ≠ "" →
                 Py.lower (CheckCifs.suffix (s +:+ ".cif")) = ".cif") as Hlow.
    { intros s Hs. by destruct (stem_suffix_cif s Hs) as [_ ->]. }
    destruct (DownloadCifs.first_match material_id entries) as [x|];
      [case_bool_decide|]; cbn [fst].
    - split; [by apply Hlow|]. by destruct (stem_suffix_cif _ Hne) as [-> _].
    - change (material_id +:+ "__casefix-"
              +:+ DownloadCifs.casefix_suffix material_id +:+ ".cif")%string
        with (material_id
              +:+ (CheckCifs.CASEFIX_SUFFIX
                   +:+ (DownloadCifs.casefix_suffix material_id +:+ ".cif")))%string.
      rewrite <- !append_assoc.
      assert ((material_id +:+ CheckCifs.CASEFIX_SUFFIX)
              +:+ DownloadCifs.casefix_suffix material_id ≠ "")%string as Hne'.
      { rewrite append_assoc. by destruct material_id. }
      split; [by apply Hlow|].
      destruct (stem_suffix_cif _ Hne') as [-> _].
      rewrite append_assoc.
      pose proof (strip_casefix_cut
                    (material_id +:+ CheckCifs.CASEFIX_SUFFIX
                     +:+ DownloadCifs.casefix_suffix material_id)) as Hcut.
      by rewrite partition_casefix in Hcut.
    - split; [by apply Hlow|]. by destruct (stem_suffix_cif _ Hne) as [-> _]. }
  split_and!; [done..|].
  cbn [CheckCifs.iter_cif_names foldl]. unfold CheckCifs.iter_cif_names_step.
  cbn [CheckCifs.is_file CheckCifs.name andb].
  rewrite bool_decide_eq_true_2, Hstem by done.
  by rewrite (right_id_L ∅ (∪)).
Qed.

Lemma resolved_name_is_counted_witness :
  let entries := [DownloadCifs.Entry "abc.cif" true] in
  let n := (DownloadCifs.resolve_output_path "ABC" entries).1 in
  Py.lower (CheckCifs.suffix n) = ".cif"
  ∧ CheckCifs.strip_casefix (CheckCifs.stem n) = "ABC"
  ∧ CheckCifs.iter_cif_names (Some [CheckCifs.Entry n true]) = {["ABC"]}.
Proof.
  apply (resolved_name_is_counted "ABC" [DownloadCifs.Entry "abc.cif" true]);
    [by split|discriminate|reflexivity].
Defined.

End names_round_trip.

(** ** download_cifs.py: the log a run leaves *)

Section log_after_run.

Import DownloadCifs.

Implicit Types (rows : list row) (st : state) (ls : locals * state).

Lemma truthy_bool_str b : truthy (bool_str b) = b.
Proof. by destruct b. Qed.

Lemma initially_downloaded_marked X rows :
  X ∈ initially_downloaded (build_index rows) rows
  ↔ X ≠ "" ∧ ∃ r, head (rows_of X rows) = Some r ∧ marked r = true.
Proof.
  split.
  - unfold initially_downloaded. intros [i Hi]%elem_of_dom.
    apply map_lookup_filter_Some in Hi as [Hi Hm]. cbn in Hm.
    rewrite build_index_indexed in Hi.
    destruct (decide (X = "")) as [|Hne]; [done|]. split; [done|].
    unfold marked_downloaded in Hm.
    destruct (rows !! i) as [r|] eqn:Hr; [|done].
    exists r. split; [|by apply Is_true_true].
    by rewrite (first_row_head X rows i).
  - intros [Hne (r & Hr & Ht)]. by eapply elem_of_initially_downloaded.
Qed.

(** On a log whose rows [DictWriter] accepts no recording raises: the run
    ends with the variables the tasks leave. *)
Lemma main_accepted_locals e ids_file material_ids st :
  accepted (disk_rows (log_disk st)) →
  log_disk st ≠ LogUndecodable →
  iter_material_ids ids_file = inr material_ids →
  (main e ids_file st).1.2
  = (run_tasks e (main_start st) (main_tasks e ids_file st)).1.
Proof.
  intros Ha Hd Hids. rewrite main_unfold_accepted by done.
  rewrite main_tasks_unfold, Hids, bool_decide_eq_false_2 by done.
  by destruct (ids_to_process _ _).
Qed.

(** A run on a log whose rows [DictWriter] accepts ends with the rows the
    recorded tasks leave, and its last [write_log], when nothing fails,
    leaves them on the disk as they read back. *)
Lemma main_accepted_final e ids_file material_ids st :
  (∀ ts : list string, schedule e ts ≡ₚ ts) →
  accepted (disk_rows (log_disk st)) →
  iter_material_ids ids_file = inr material_ids →
  main_tasks e ids_file st ≠ [] →
  let ls := run_tasks e (main_start st) (main_tasks e ids_file st) in
  (main e ids_file st).1.2 = ls.1
  ∧ (log_write e (length (log_trace st) + length (main_tasks e ids_file st))
     = NoFault →
     log_disk (main e ids_file st).2 = LogRows (written <$> log_rows ls.1)).
Proof.
  intros Hsched Ha Hids Hne ls.
  destruct (main_tasks_spec e ids_file material_ids st Hsched Hids)
    as [Htasks _].
  destruct (main_start_indexed st) as (Hinv & Hrows0 & Htr0 & _).
  destruct (run_tasks_indexed e _ (main_start st) Htasks Hinv) as (_ & _ & Hlen).
  fold ls in Hlen.
  assert (log_disk st ≠ LogUndecodable) as Hd.
  { intros H. apply Hne. rewrite main_tasks_unfold, Hids.
    by rewrite bool_decide_eq_true_2. }
  rewrite main_unfold_accepted by done. fold ls.
  rewrite main_tasks_unfold, Hids, bool_decide_eq_false_2 in Hne by done.
  rewrite Hids. destruct (ids_to_process _ _) as [|y todo]; [done|].
  cbv zeta. cbn [fst snd]. split; [done|]. intros Hw. cbn [print log_disk].
  destruct (write_log_effect e (log_rows ls.1) ls.2) as (_ & _ & _ & Hwe).
  rewrite Hlen, Htr0, Hw in Hwe. rewrite list_find_accepted in Hwe.
  - by destruct Hwe as [_ ->].
  - apply run_tasks_accepted. by rewrite Hrows0.
Qed.

(** X8.  On an existing log with no column besides id and downloaded, the
    rows a run ends with mark exactly the processed identifiers whose last
    outcome in the run was a success: every identifier handed to the pool
    is in the set of previously downloaded identifiers rebuilt from those
    rows if and only if the last result recorded for it is a success.
    When the last write of the log does not fail, the file holds those rows
    as they read back, and the same holds of the set rebuilt from the
    file. *)
Theorem main_log_marks_successes (e : env) (ids_file : option string)
    (material_ids : list string) (st : state) (X : string) :
  (∀ ts : list string, schedule e ts ≡ₚ ts) →
  accepted (disk_rows (log_disk st)) →
  iter_material_ids ids_file = inr material_ids →
  X ∈ main_tasks e ids_file st →
  let rows' := log_rows (main e ids_file st).1.2 in
  let success :=
    last (filter (λ r, r.1 = X) (main_results e ids_file st)) = Some (X, true) in
  (X ∈ initially_downloaded (build_index rows') rows' ↔ success)
  ∧ (log_write e (length (log_trace st) + length (main_tasks e ids_file st))
     = NoFault →
     log_disk (main e ids_file st).2 = LogRows (written <$> rows')
     ∧ (X ∈ initially_downloaded (build_index (written <$> rows'))
                                 (written <$> rows') ↔ success)).
Proof.
  intros Hsched Ha Hids HX rows' success.
  destruct (main_tasks_spec e ids_file material_ids st Hsched Hids)
    as [Htasks _].
  pose proof Htasks as Hall. rewrite Forall_forall in Hall.
  pose proof (Hall X HX) as HidX.
  destruct (main_start_indexed st) as (Hinv & _).
  pose proof (run_tasks_last_result e X _ (main_start st) HidX Htasks Hinv)
    as Hrow.
  fold (main_results e ids_file st) in Hrow.
  assert (main_tasks e ids_file st ≠ []) as Hne.
  { intros H. rewrite H in HX. by apply elem_of_nil in HX. }
  destruct (main_accepted_final e ids_file material_ids st Hsched Ha Hids Hne)
    as [Hl Hdisk].
  rewrite <- Hl in Hrow, Hdisk. fold rows' in Hrow, Hdisk.
  assert (∃ b, last (filter (λ r, r.1 = X) (main_results e ids_file st))
               = Some (X, b)) as [b Hb].
  { destruct (last _) as [[y b]|] eqn:Hlast.
    - exists b. do 2 f_equal. apply last_Some in Hlast as [l' Hl'].
      assert ((y, b) ∈ filter (λ r, r.1 = X) (main_results e ids_file st))
        as Hin by (rewrite Hl'; apply elem_of_app; right; left).
      by apply list_elem_of_filter in Hin as [? _].
    - apply last_None in Hlast.
      assert (X ∈ (main_results e ids_file st).*1) as Hin.
      { unfold main_results. by rewrite pool_results_fst. }
      apply list_elem_of_fmap in Hin as ([y b] & Heq & Hin). cbn in Heq.
      assert ((y, b) ∈ filter (λ r, r.1 = X) (main_results e ids_file st))
        as Hf by (by apply list_elem_of_filter).
      rewrite Hlast in Hf. by apply elem_of_nil in Hf. }
  subst success. rewrite Hb in Hrow |- *. cbn [snd] in Hrow.
  pose proof (head_rows_of_written X rows' (result_row X b) X
                (proj1 HidX) eq_refl Hrow) as Hrow'.
  assert (∀ rows, head (rows_of X rows) = Some (result_row X b) →
            X ∈ initially_downloaded (build_index rows) rows
            ↔ Some (X, b) = Some (X, true)) as Hmark.
  { intros rows Hr. rewrite initially_downloaded_marked, Hr. split.
    - intros [_ (r & [= <-] & Ht)]. unfold marked in Ht. cbn in Ht.
      rewrite truthy_bool_str in Ht. by rewrite Ht.
    - intros [= ->]. split; [by destruct HidX|]. by eexists. }
  split; [by apply Hmark|].
  intros Hw. split; [by apply Hdisk|]. by apply Hmark.
Qed.

Lemma main_log_marks_successes_witness :
  let e := Env (λ url, if bool_decide (url = BASE_URL "X")
                       then Response 200 "cif" else HTTPError 404 "Not Found")
               (λ _, NoFault) (λ _, 0) (λ _, NoFault) (λ _, LogAbsent)
               (λ ts, ts) in
  let ids_file := Some ("X" +:+ Py.nl +:+ "Y" +:+ Py.nl)%string in
  let st := State NoDir [] [] (LogRows [Row (Text "Y") NoneValue false]) [] in
  let rows' := log_rows (main e ids_file st).1.2 in
  let success :=
    last (filter (λ r, r.1 = "Y") (main_results e ids_file st))
    = Some ("Y", true) in
  ("Y" ∈ initially_downloaded (build_index rows') rows' ↔ success)
  ∧ log_disk (main e ids_file st).2 = LogRows (written <$> rows')
  ∧ ("Y" ∈ initially_downloaded (build_index (written <$> rows'))
                                (written <$> rows') ↔ success).
Proof.
  intros e ids_file st rows' success.
  destruct (main_log_marks_successes e ids_file ["X"; "Y"] st "Y") as [H1 H2].
  - intros ts. reflexivity.
  - by repeat constructor.
  - reflexivity.
  - right. left.
  - split; [exact H1|]. apply H2. reflexivity.
Defined.

(** X9.  When the first log row of every listed identifier is marked
    downloaded, [main] returns 0 after the "all downloaded" message alone:
    no task runs, nothing is requested and the log is not written. *)
Theorem main_all_downloaded (e : env) (ids_file : option string)
    (material_ids : list string) (st : state) (rows : list row) :
  iter_material_ids ids_file = inr material_ids →
  log_disk st = LogRows rows →
  (∀ X, X ∈ material_ids →
        ∃ r, head (rows_of X rows) = Some r ∧ marked r = true) →
  (main e ids_file st).1.1 = Exit 0
  ∧ (main e ids_file st).2 = print MsgAllDownloaded st
  ∧ main_results e ids_file st = [].
Proof.
  intros Hids Hlog Hall.
  pose proof (iter_material_ids_Forall _ _ Hids) as Hm.
  rewrite Forall_forall in Hm.
  assert (ids_to_process material_ids
            (initially_downloaded (build_index rows) rows) = []) as Hnone.
  { assert (∀ X, X ∈ material_ids →
                 X ∈ initially_downloaded (build_index rows) rows) as Hin.
    { intros X HX. apply initially_downloaded_marked.
      split; [by destruct (Hm X HX)|by apply Hall]. }
    unfold ids_to_process. clear -Hin.
    induction material_ids as [|x l IH]; [done|].
    rewrite filter_cons_False.
    - apply IH. intros X HX. apply Hin. by right.
    - intros Hn. apply Hn, Hin. left. }
  rewrite main_unfold, Hids. unfold main_results, main_tasks.
  rewrite Hids, (main_start_rows st rows Hlog). unfold load_log. rewrite Hlog.
  cbn [fst snd previously_downloaded]. by rewrite Hnone.
Qed.

Lemma main_all_downloaded_witness :
  let e := Env (λ _, Response 200 "cif") (λ _, NoFault) (λ _, 0) (λ _, NoFault)
               (λ _, LogAbsent) (λ ts, ts) in
  let ids_file := Some ("X" +:+ Py.nl +:+ "Y" +:+ Py.nl)%string in
  let nbsp := String (ascii_of_nat 194) (String (ascii_of_nat 160) "") in
  let rows := [Row (Text "Y") (Text "yes") true;
               Row (Text (nbsp +:+ "X ")) (Text "True") false;
               Row (Text "X") (Text "False") false] in
  let st := State NoDir [] [] (LogRows rows) [] in
  (main e ids_file st).1.1 = Exit 0
  ∧ (main e ids_file st).2 = print MsgAllDownloaded st
  ∧ main_results e ids_file st = [].
Proof.
  intros e ids_file nbsp rows st.
  apply (main_all_downloaded e ids_file ["X"; "Y"] st rows);
    [reflexivity|reflexivity|].
  intros X HX. apply elem_of_cons in HX as [->|HX].
  - exists (Row (Text (nbsp +:+ "X ")) (Text "True") false). split; reflexivity.
  - apply list_elem_of_singleton in HX as ->.
    exists (Row (Text "Y") (Text "yes") true). split; reflexivity.
Defined.

End log_after_run.

(** ** download_cifs.py: rows are kept in place *)

Section log_rows_kept.

Import DownloadCifs.

Implicit Types (rows : list row) (l : locals) (st : state) (ls : locals * state).

Lemma run_task_keys e l st X :
  is_material_id X →
  indexed (index l) (log_rows l) →
  row_key <$> log_rows (run_task e (l, st) X).1
  = if decide (X ∈ row_key <$> log_rows l) then row_key <$> log_rows l
    else (row_key <$> log_rows l) ++ [X].
Proof.
  intros HX Hinv.
  destruct (run_task_indexed e l st X HX Hinv) as [_ Hidx].
  destruct (run_task_effect e l st X) as (-> & _).
  destruct (index l !! X) as [i|] eqn:Ei; symmetry in Hidx.
  - pose proof Hidx as (old & Hold & Hk)%first_row_Some.
    rewrite (keys_insert _ _ old);
      [|done|rewrite Hk; by apply row_key_new].
    rewrite decide_True; [done|].
    apply list_elem_of_fmap. exists old. split; [done|].
    by eapply list_elem_of_lookup_2.
  - apply first_row_None in Hidx. rewrite decide_False by done.
    by rewrite fmap_app, fmap_cons, row_key_new.
Qed.

Lemma run_task_lookup e l st X i r :
  is_material_id X →
  indexed (index l) (log_rows l) →
  log_rows l !! i = Some r → row_key r ≠ X →
  log_rows (run_task e (l, st) X).1 !! i = Some r.
Proof.
  intros HX Hinv Hi Hr.
  destruct (run_task_indexed e l st X HX Hinv) as [_ Hidx].
  destruct (run_task_effect e l st X) as (-> & _).
  destruct (index l !! X) as [j|] eqn:Ej; symmetry in Hidx.
  - apply first_row_Some in Hidx as (old & Hold & Hk).
    rewrite list_lookup_insert_ne; [done|]. intros ->. congruence.
  - by apply lookup_app_l_Some.
Qed.

(** The pool keeps every row where it is and adds rows at the end, one for
    each processed identifier that had none. *)
Lemma run_tasks_keys e tasks : ∀ ls,
  Forall is_material_id tasks →
  indexed (index ls.1) (log_rows ls.1) →
  (∃ added, row_key <$> log_rows (run_tasks e ls tasks).1
            = (row_key <$> log_rows ls.1) ++ added
            ∧ (∀ X, X ∈ added → X ∈ tasks))
  ∧ (∀ X, X ∈ tasks → X ∈ row_key <$> log_rows (run_tasks e ls tasks).1)
  ∧ (∀ i r, log_rows ls.1 !! i = Some r → row_key r ∉ tasks →
            log_rows (run_tasks e ls tasks).1 !! i = Some r).
Proof.
  induction tasks as [|t tasks IH]; intros [l st] Hids Hinv.
  { cbn. split_and!; [|by intros X ?%elem_of_nil|done].
    exists []. split; [by rewrite app_nil_r|]. by intros X ?%elem_of_nil. }
  apply Forall_cons in Hids as [Ht Hids]. rewrite run_tasks_cons.
  cbn [fst snd] in *.
  destruct (run_task_indexed e l st t Ht Hinv) as [Hinv1 _].
  pose proof (run_task_keys e l st t Ht Hinv) as Hkeys.
  destruct (IH (run_task e (l, st) t) Hids Hinv1)
    as ((added & Hadd & Hsub) & Hin & Hkeep).
  split_and!.
  - rewrite Hadd, Hkeys. destruct (decide _).
    + exists added. split; [done|]. intros X ?. right. by apply Hsub.
    + exists (t :: added). split; [by rewrite <- app_assoc|].
      intros X [->|?]%elem_of_cons; [left|right; by apply Hsub].
  - intros X [->|HX]%elem_of_cons; [|by apply Hin].
    rewrite Hadd, Hkeys. apply elem_of_app. left.
    destruct (decide _); [done|]. apply elem_of_app. right. left.
  - intros i r Hi Hr. apply not_elem_of_cons in Hr as [Hrt Hr].
    apply Hkeep; [|done]. by apply run_task_lookup.
Qed.

(** X10.  On an existing log with no column besides id and downloaded, a
    run never drops or moves a row of the rows it keeps: the identifiers of
    the old rows are an initial part of those of the rows the run ends
    with, every added row stands for a processed identifier, every
    processed identifier has a row, and a row whose identifier is not
    processed in the run is found unchanged at its position.  A run without
    tasks does not touch the file; after a run with tasks whose last write
    of the log does not fail, the file holds the rows the run ends with, as
    they read back. *)
Theorem main_keeps_rows (e : env) (ids_file : option string)
    (material_ids : list string) (st : state) (rows : list row) :
  (∀ ts : list string, schedule e ts ≡ₚ ts) →
  iter_material_ids ids_file = inr material_ids →
  log_disk st = LogRows rows →
  accepted rows →
  let rows' := log_rows (main e ids_file st).1.2 in
  (∃ added, row_key <$> rows' = (row_key <$> rows) ++ added
            ∧ ∀ X, X ∈ added → X ∈ main_tasks e ids_file st)
  ∧ (∀ X, X ∈ main_tasks e ids_file st → X ∈ row_key <$> rows')
  ∧ (∀ i r, rows !! i = Some r → row_key r ∉ main_tasks e ids_file st →
            rows' !! i = Some r)
  ∧ (main_tasks e ids_file st = [] →
     log_disk (main e ids_file st).2 = LogRows rows)
  ∧ (main_tasks e ids_file st ≠ [] →
     log_write e (length (log_trace st) + length (main_tasks e ids_file st))
     = NoFault →
     log_disk (main e ids_file st).2 = LogRows (written <$> rows')).
Proof.
  intros Hsched Hids Hlog Ha rows'.
  assert (accepted (disk_rows (log_disk st))) as Ha' by (by rewrite Hlog).
  assert (log_disk st ≠ LogUndecodable) as Hd by (by rewrite Hlog).
  destruct (main_tasks_spec e ids_file material_ids st Hsched Hids)
    as [Htasks _].
  destruct (main_start_indexed st) as (Hinv & _).
  pose proof (main_accepted_locals e ids_file material_ids st Ha' Hd Hids) as Hl.
  pose proof (run_tasks_keys e _ (main_start st) Htasks Hinv) as Hk.
  rewrite <- Hl in Hk. fold rows' in Hk.
  rewrite (main_start_rows st rows Hlog) in Hk. cbn [fst log_rows] in Hk.
  destruct Hk as (Hk1 & Hk2 & Hk3). split_and!; [done..| |].
  - intros Hnil. rewrite main_unfold_accepted, Hids by done.
    rewrite main_tasks_unfold, Hids, bool_decide_eq_false_2 in Hnil by done.
    destruct (ids_to_process _ _) as [|y todo] eqn:Hp.
    + cbn [snd print log_disk]. by rewrite (main_start_rows st rows Hlog).
    + exfalso. pose proof (Hsched (y :: todo)) as Hperm.
      rewrite Hnil in Hperm. by apply Permutation_nil_cons in Hperm.
  - intros Hne Hw.
    destruct (main_accepted_final e ids_file material_ids st Hsched Ha'
                Hids Hne) as [_ Hdisk].
    unfold rows'. rewrite Hl. by apply Hdisk.
Qed.

Lemma main_keeps_rows_witness :
  let e := Env (λ _, Response 200 "cif") (λ _, NoFault) (λ _, 0) (λ _, NoFault)
               (λ _, LogAbsent) (λ ts, ts) in
  let ids_file := Some ("X" +:+ Py.nl +:+ "Y" +:+ Py.nl)%string in
  let rows := [Row (Text "Z") NoneValue false;
               Row (Text "Y") (Text "False") false] in
  let st := State NoDir [] [] (LogRows rows) [] in
  let rows' := log_rows (main e ids_file st).1.2 in
  (∃ added, row_key <$> rows' = (row_key <$> rows) ++ added
            ∧ ∀ X, X ∈ added → X ∈ main_tasks e ids_file st)
  ∧ (∀ X, X ∈ main_tasks e ids_file st → X ∈ row_key <$> rows')
  ∧ (∀ i r, rows !! i = Some r → row_key r ∉ main_tasks e ids_file st →
            rows' !! i = Some r)
  ∧ main_tasks e ids_file st ≠ []
  ∧ log_disk (main e ids_file st).2 = LogRows (written <$> rows').
Proof.
  intros e ids_file rows st rows'.
  destruct (main_keeps_rows e ids_file ["X"; "Y"] st rows)
    as (H1 & H2 & H3 & _ & H5).
  - intros ts. reflexivity.
  - reflexivity.
  - reflexivity.
  - by repeat constructor.
  - split_and!; [exact H1|exact H2|exact H3|done|].
    apply H5; [done|reflexivity].
Defined.

(** X11.  Without a usable log, absent or unreadable, nothing is skipped:
    every listed identifier, repetitions included, is handed to the pool,
    and the log the run builds has exactly one row for each of them. *)
Theorem main_without_log (e : env) (ids_file : option string)
    (material_ids : list string) (st : state) :
  (∀ ts : list string, schedule e ts ≡ₚ ts) →
  iter_material_ids ids_file = inr material_ids →
  log_disk st = LogAbsent ∨ log_disk st = LogUnreadable →
  let rows' := log_rows (main e ids_file st).1.2 in
  main_tasks e ids_file st ≡ₚ material_ids
  ∧ NoDup (row_key <$> rows')
  ∧ (∀ X, X ∈ row_key <$> rows' ↔ X ∈ material_ids).
Proof.
  intros Hsched Hids Hlog rows'.
  assert (disk_rows (log_disk st) = []) as Hrows.
  { by destruct Hlog as [-> | ->]. }
  assert (log_disk st ≠ LogUndecodable) as Hd.
  { by destruct Hlog as [-> | ->]. }
  assert (accepted (disk_rows (log_disk st))) as Ha.
  { rewrite Hrows. constructor. }
  assert (main_tasks e ids_file st ≡ₚ material_ids) as Hperm.
  { rewrite main_tasks_unfold, Hids, bool_decide_eq_false_2 by done.
    rewrite main_start_prev, Hrows.
    assert (initially_downloaded (build_index []) [] = ∅) as ->.
    { apply set_eq. intros X. rewrite initially_downloaded_marked.
      split; [|by intros ?%elem_of_empty].
      intros [_ (r & Hr & _)]. by cbn in Hr. }
    assert (ids_to_process material_ids ∅ = material_ids) as ->.
    { unfold ids_to_process. clear.
      induction material_ids as [|x l IH]; [done|].
      rewrite filter_cons_True by apply not_elem_of_empty.
      by rewrite IH. }
    destruct material_ids; [done|]. apply Hsched. }
  split; [done|].
  destruct (main_tasks_spec e ids_file material_ids st Hsched Hids)
    as [Htasks _].
  destruct (main_start_indexed st) as (Hinv & Hr0 & _).
  pose proof (main_accepted_locals e ids_file material_ids st Ha Hd Hids) as Hl.
  destruct (run_tasks_keys e _ (main_start st) Htasks Hinv)
    as ((added & Hadd & Hsub) & Hin & _).
  destruct (run_tasks_indexed e _ (main_start st) Htasks Hinv) as (_ & Hnd & _).
  rewrite <- Hl in Hadd, Hin, Hnd. fold rows' in Hadd, Hin, Hnd.
  rewrite Hr0, Hrows in Hadd, Hnd. cbn in Hadd.
  split; [apply Hnd; constructor|].
  intros X. rewrite <- Hperm. split; [|apply Hin].
  rewrite Hadd. apply Hsub.
Qed.

Lemma main_without_log_witness :
  let e := Env (λ _, Response 200 "cif") (λ _, NoFault) (λ _, 0) (λ _, NoFault)
               (λ _, LogAbsent) (λ ts, ts) in
  let ids_file := Some ("X" +:+ Py.nl +:+ "Y" +:+ Py.nl +:+ "X" +:+ Py.nl)%string in
  let st := State NoDir [] [] LogUnreadable [] in
  let rows' := log_rows (main e ids_file st).1.2 in
  main_tasks e ids_file st ≡ₚ ["X"; "Y"; "X"]
  ∧ NoDup (row_key <$> rows')
  ∧ (∀ X, X ∈ row_key <$> rows' ↔ X ∈ ["X"; "Y"; "X"]).
Proof.
  intros e ids_file st.
  apply (main_without_log e ids_file ["X"; "Y"; "X"] st).
  - intros ts. reflexivity.
  - reflexivity.
  - by right.
Defined.

End log_rows_kept.

(** ** From the checker's missing-IDs file to the downloader *)

Section missing_file.

Implicit Types (s t cur : string) (ids : list string).

Lemma universal_newlines_cons c s :
  Py.universal_newlines (String c s)
  = if Ascii.eqb c Py.CR then
      match s with
      | String d s'' =>
          if Ascii.eqb d Py.LF then String Py.LF (Py.universal_newlines s'')
          else String Py.LF (Py.universal_newlines s)
      | EmptyString => String Py.LF EmptyString
      end
    else String c (Py.universal_newlines s).
Proof. done. Qed.

(** Reading with universal newlines leaves no CR. *)
Lemma universal_newlines_out n : ∀ s,
  String.length s ≤ n →
  Py.all_chars (λ c, negb (Ascii.eqb c Py.CR)) (Py.universal_newlines s) = true.
Proof.
  induction n as [|n IH]; intros s Hn.
  { destruct s; [done|simpl in Hn; lia]. }
  destruct s as [|c s]; [done|]. simpl in Hn. rewrite universal_newlines_cons.
  destruct (Ascii.eqb c Py.CR) eqn:Hc.
  - destruct s as [|d s]; [done|]. simpl in Hn.
    destruct (Ascii.eqb d Py.LF); cbn [Py.all_chars]; 
      (rewrite IH by (simpl; lia)); done.
  - cbn [Py.all_chars]. rewrite Hc, IH by lia. done.
Qed.

Lemma readlines_go_is_line s : ∀ cur,
  Py.all_chars (λ c, negb (Ascii.eqb c Py.CR)) s = true →
  Py.all_chars Py.not_newline cur = true →
  Forall Py.is_line (Py.readlines_go cur s).
Proof.
  induction s as [|c s IH]; intros cur Hs Hcur; simpl.
  { destruct cur; constructor; [|done].
    eexists. split; [|by left]. by rewrite all_chars_rev. }
  simpl in Hs. apply andb_true_iff in Hs as [Hc Hs].
  destruct (Ascii.eqb c Py.LF) eqn:Hlf.
  - constructor; [|by apply IH]. exists (String.rev cur).
    split; [by rewrite all_chars_rev|]. right.
    apply Ascii.eqb_eq in Hlf as ->. apply rev_cons.
  - apply IH; [done|]. simpl. unfold Py.not_newline at 1.
    by rewrite Hlf, Hc.
Qed.

Lemma readlines_is_line content : Forall Py.is_line (Py.readlines content).
Proof.
  apply readlines_go_is_line; [|done]. by eapply universal_newlines_out.
Qed.

(** The identifiers read from a list hold neither LF nor CR. *)
Lemma listed_one_line content :
  Forall (λ s, Py.all_chars Py.not_newline s = true) (DownloadCifs.listed content).
Proof.
  unfold DownloadCifs.listed. apply Forall_forall.
  intros s [_ Hin]%list_elem_of_filter.
  apply list_elem_of_fmap in Hin as (raw & -> & Hraw).
  pose proof (readlines_is_line content) as Hall.
  rewrite Forall_forall in Hall.
  destruct (Hall raw Hraw) as (body & Hbody & [-> | ->]).
  - by apply all_chars_strip.
  - rewrite strip_append_nl. by apply all_chars_strip.
Qed.

Lemma readlines_go_line l : ∀ cur rest,
  Py.all_chars Py.not_newline l = true →
  Py.readlines_go cur (l +:+ String Py.LF rest)
  = String.rev (String Py.LF (String.rev_app l cur))
    :: Py.readlines_go "" rest.
Proof.
  induction l as [|c l IH]; intros cur rest Hl.
  - by rewrite append_nil_l.
  - simpl in Hl. apply andb_true_iff in Hl as [Hc Hl].
    rewrite append_cons. simpl.
    unfold Py.not_newline in Hc. apply andb_true_iff in Hc as [Hc _].
    apply negb_true_iff in Hc. rewrite Hc. by rewrite IH.
Qed.

Lemma readlines_go_last l : ∀ cur,
  Py.all_chars Py.not_newline l = true → l ≠ "" →
  Py.readlines_go cur l = [String.rev (String.rev_app l cur)].
Proof.
  induction l as [|c l IH]; intros cur Hl Hne; [done|].
  simpl in Hl. apply andb_true_iff in Hl as [Hc Hl]. simpl.
  unfold Py.not_newline in Hc. apply andb_true_iff in Hc as [Hc _].
  apply negb_true_iff in Hc. rewrite Hc.
  destruct l as [|d l]; [done|]. by rewrite IH.
Qed.

Lemma join_cons l ls :
  Py.join Py.nl (l :: ls)
  = match ls with
    | [] => l
    | _ => (l +:+ String Py.LF (Py.join Py.nl ls))%string
    end.
Proof. unfold Py.join. by destruct ls. Qed.

Lemma all_chars_join ids :
  Forall (λ s, Py.all_chars Py.not_newline s = true) ids →
  Py.all_chars (λ c, negb (Ascii.eqb c Py.CR)) (Py.join Py.nl ids) = true.
Proof.
  induction ids as [|l ids IH]; [done|]. intros [Hl Hall]%Forall_cons.
  rewrite join_cons. destruct ids as [|l2 ids]; [by apply not_newline_no_cr|].
  rewrite all_chars_append, not_newline_no_cr by done. simpl. by apply IH.
Qed.

(** Identifiers joined by newlines are read back one per line. *)
Lemma strip_readlines_join ids :
  Forall (λ s, Py.all_chars Py.not_newline s = true
               ∧ DownloadCifs.is_material_id s) ids →
  Py.strip <$> Py.readlines (Py.join Py.nl ids) = ids.
Proof.
  intros Hall. unfold Py.readlines.
  rewrite universal_newlines_no_cr.
  2: { apply all_chars_join. eapply Forall_impl; [done|]. by intros s [? _]. }
  induction ids as [|l ids IH]; [done|].
  apply Forall_cons in Hall as [[Hl [Hne Hstrip]] Hall].
  rewrite join_cons. destruct ids as [|l2 ids].
  - rewrite readlines_go_last by done.
    change (String.rev_app l "") with (String.rev l).
    cbn. by rewrite rev_involutive, Hstrip.
  - rewrite readlines_go_line by done. rewrite fmap_cons, IH by done.
    f_equal. change (String.rev_app l "") with (String.rev l).
    by rewrite rev_cons, rev_involutive, strip_append_nl.
Qed.

Lemma missing_file_main content directory r :
  CheckCifs.main (Some content) directory = Some r →
  CheckCifs.missing_file r = Some (Py.join Py.nl (CheckCifs.missing r)).
Proof.
  unfold CheckCifs.main. intros H. injection H as <-.
  unfold CheckCifs.missing_file. cbn [CheckCifs.events CheckCifs.missing].
  do 2 (cbn -[CheckCifs.sorted Py.join CheckCifs.report_list];
        rewrite omap_app, report_list_no_write by done).
  done.
Qed.

(** X12.  The missing-IDs file the checker writes is read by the downloader
    as exactly the missing identifiers, in the checker's ascending order;
    when nothing is missing the file is empty and the downloader ends in
    SystemExit for want of identifiers. *)
Theorem missing_file_feeds_downloader (content : string)
    (directory : option (list CheckCifs.entry)) :
  ∃ r text,
    CheckCifs.main (Some content) directory = Some r
    ∧ CheckCifs.missing_file r = Some text
    ∧ DownloadCifs.iter_material_ids (Some text)
      = match CheckCifs.missing r with
        | [] => inl DownloadCifs.NoMaterialIds
        | _ => inr (CheckCifs.missing r)
        end.
Proof.
  eexists _, (Py.join Py.nl
                (CheckCifs.sorted (CheckCifs.iter_ids content
                                   ∖ CheckCifs.iter_cif_names directory))).
  split; [done|]. cbn [CheckCifs.missing].
  split; [by apply (missing_file_main content directory)|].
  set (missing := CheckCifs.sorted _).
  assert (Forall (λ s, (Py.all_chars Py.not_newline s = true
                        ∧ DownloadCifs.is_material_id s)
                       ∧ Py.startswith s "#" = false) missing) as Hgood.
  { apply Forall_forall. intros X HX. subst missing.
    apply elem_of_sorted, elem_of_difference in HX as [HX _].
    rewrite iter_ids_listed in HX. apply elem_of_list_to_set in HX.
    pose proof (listed_one_line content) as Hone.
    pose proof (listed_material_ids content) as Hall.
    rewrite Forall_forall in Hall, Hone.
    destruct (Hall X HX) as [? ?]. split; [split|]; auto. }
  rewrite iter_material_ids_eq_listed.
  assert (DownloadCifs.listed (Py.join Py.nl missing) = missing) as ->; [|done].
  unfold DownloadCifs.listed. rewrite strip_readlines_join.
  2: { eapply Forall_impl; [done|]. by intros s [? _]. }
  clear -Hgood. induction missing as [|x l IH]; [done|].
  apply Forall_cons in Hgood as [[[_ [Hne _]] Hc] Hgood].
  rewrite filter_cons_True by done. by rewrite IH.
Qed.

End missing_file.

(** ** dedup_ids.py: the file it leaves *)

Section dedup_file.

Import DedupIds.

(** X13.  When the deduplicated sequence is not empty (or the file has no
    line at all), the identifier file after [main] reads back as exactly the
    deduplicated sequence: no blank line, no identifier line twice, and a
    run on it is the no-op. *)
Theorem dedup_leaves_clean_file (fs fs1 : files) (content : string)
    (evs : list event) :
  ids_file fs = Some content →
  main fs = Some (fs1, evs) →
  deduped (read_lines content) ≠ [] ∨ read_lines content = [] →
  ∃ content1, ids_file fs1 = Some content1
    ∧ read_lines content1 = deduped (read_lines content)
    ∧ Forall (λ l, Py.strip l ≠ "") (read_lines content1)
    ∧ NoDup (filter (λ l, ¬ is_comment l) (read_lines content1))
    ∧ main fs1 = Some (fs1, [PrintUnchanged]).
Proof.
  intros Hc Hmain Hne.
  assert (∃ content1, ids_file fs1 = Some content1
            ∧ read_lines content1 = deduped (read_lines content))
    as (content1 & Hc1 & Hread).
  { revert Hmain. unfold main. rewrite Hc. case_bool_decide as Heq.
    - intros [= <- <-]. exists content. by rewrite Heq.
    - intros [= <- <-]. eexists. split; [done|].
      apply read_lines_render.
      + destruct Hne as [?|Hnil]; [done|]. by rewrite Hnil in Heq.
      + apply deduped_no_break, read_lines_no_break. }
  exists content1. rewrite Hread, deduped_keep_first. split_and!; [done..| | |].
  - apply Forall_forall. intros l [_ Hb]%keep_first_elem.
    by apply bool_decide_eq_false in Hb.
  - apply keep_first_NoDup.
  - destruct Hne as [Hne|Hnil].
    + exact (dedup_rerun_noop fs fs1 content evs Hc Hne Hmain).
    + revert Hmain. unfold main. rewrite Hc, Hnil.
      intros [= <- <-]. by rewrite Hc, Hnil.
Qed.

Lemma dedup_leaves_clean_file_witness :
  let content := ("# h" +:+ Py.nl +:+ "A" +:+ Py.nl +:+ "B" +:+ Py.nl
                  +:+ "A" +:+ Py.nl +:+ Py.nl +:+ "C")%string in
  let fs := Files (Some content) None in
  let fs1 := Files (Some (render ["# h"; "A"; "B"; "C"]))
                   (Some (render ["# h"; "A"; "B"; "A"; ""; "C"])) in
  ∃ content1, ids_file fs1 = Some content1
    ∧ read_lines content1 = deduped (read_lines content)
    ∧ Forall (λ l, Py.strip l ≠ "") (read_lines content1)
    ∧ NoDup (filter (λ l, ¬ is_comment l) (read_lines content1))
    ∧ main fs1 = Some (fs1, [PrintUnchanged]).
Proof.
  intros content fs fs1.
  apply (dedup_leaves_clean_file fs fs1 content
           [Wrote BACKUP_PATH (render ["# h"; "A"; "B"; "A"; ""; "C"]);
            Wrote IDS_PATH (render ["# h"; "A"; "B"; "C"]);
            PrintBackupWritten; PrintCounts 6 4]).
  - reflexivity.
  - by vm_compute.
  - left. by vm_compute.
Defined.

End dedup_file.

(** ** dedup_ids.py: the identifiers survive *)

Section dedup_identifiers.

Import DedupIds.

Lemma is_linebreak2_LF c : Py.is_linebreak2 c Py.LF = false.
Proof. unfold Py.is_linebreak2. apply andb_false_r. Qed.

Lemma is_linebreak3_LF_mid a c : Py.is_linebreak3 a Py.LF c = false.
Proof. unfold Py.is_linebreak3. by destruct (Py.byte a =? 226). Qed.

Lemma is_linebreak3_LF_last a b : Py.is_linebreak3 a b Py.LF = false.
Proof. unfold Py.is_linebreak3. apply andb_false_r. Qed.

(** Where no line boundary starts, none starts once the text behind has
    been read with universal newlines. *)
Lemma break_len_universal c s :
  Ascii.eqb c Py.CR = false →
  Py.break_len (String c s) = 0 →
  Py.break_len (String c (Py.universal_newlines s)) = 0.
Proof.
  intros Hc. cbn [Py.break_len]. rewrite Hc.
  destruct (Py.is_linebreak c); [done|].
  destruct s as [|b s]; [done|]. rewrite universal_newlines_cons.
  destruct (Ascii.eqb b Py.CR) eqn:Hb.
  - intros _.
    destruct s as [|d s]; [|destruct (Ascii.eqb d Py.LF)];
      rewrite is_linebreak2_LF; try done;
      destruct (Py.universal_newlines _); try done;
      by rewrite is_linebreak3_LF_mid.
  - destruct (Py.is_linebreak2 c b); [done|].
    destruct s as [|d s]; [done|]. rewrite universal_newlines_cons.
    destruct (Ascii.eqb d Py.CR) eqn:Hd; [|done]. intros _.
    destruct s as [|d' s]; [|destruct (Ascii.eqb d' Py.LF)];
      by rewrite is_linebreak3_LF_last.
Qed.

Lemma plain_breaks_LF r :
  (Py.break_len (String Py.LF r) =? 0) || Ascii.eqb Py.LF Py.LF
  || Ascii.eqb Py.LF Py.CR = true.
Proof. by rewrite Ascii.eqb_refl, orb_true_r. Qed.

(** Reading with universal newlines brings in no other line boundary. *)
Lemma plain_breaks_universal n : ∀ s,
  String.length s ≤ n →
  Py.plain_breaks s = true →
  Py.plain_breaks (Py.universal_newlines s) = true.
Proof.
  induction n as [|n IH]; intros s Hn Hs.
  { destruct s; [done|simpl in Hn; lia]. }
  destruct s as [|c s]; [done|]. simpl in Hn.
  pose proof Hs as Hs0.
  cbn [Py.plain_breaks] in Hs. apply andb_true_iff in Hs as [Hc Hs].
  rewrite universal_newlines_cons.
  destruct (Ascii.eqb c Py.CR) eqn:Hcr.
  - destruct s as [|d s]; [done|]. simpl in Hn.
    pose proof Hs as Hs1.
    cbn [Py.plain_breaks] in Hs. apply andb_true_iff in Hs as [_ Hs].
    destruct (Ascii.eqb d Py.LF); cbn [Py.plain_breaks];
      rewrite plain_breaks_LF; cbn [andb]; apply IH; (done || simpl; lia).
  - cbn [Py.plain_breaks]. rewrite (IH s) by (done || lia).
    rewrite andb_true_r, Hcr, orb_false_r. rewrite orb_false_r in Hc.
    apply orb_true_iff in Hc as [Hc|Hc]; [|by rewrite Hc, orb_true_r].
    apply Nat.eqb_eq in Hc. by rewrite break_len_universal.
Qed.

(** Where the only line boundaries are LF, iterating over the file and
    [splitlines] give the same stripped lines. *)
Lemma strip_lines_agree s : ∀ cur,
  Py.plain_breaks s = true →
  Py.all_chars (λ c, negb (Ascii.eqb c Py.CR)) s = true →
  Py.strip <$> Py.readlines_go cur s = Py.strip <$> Py.splitlines_go 0 cur s.
Proof.
  induction s as [|c s IH]; intros cur Hp Hcr.
  { simpl. by destruct cur. }
  cbn [Py.plain_breaks Py.all_chars] in Hp, Hcr.
  apply andb_true_iff in Hp as [Hc Hp]. apply andb_true_iff in Hcr as [Hr Hcr].
  apply negb_true_iff in Hr.
  rewrite splitlines_go_unfold. cbn [Py.readlines_go].
  destruct (Ascii.eqb c Py.LF) eqn:Hlf.
  - apply Ascii.eqb_eq in Hlf as ->.
    change (Py.break_len (String Py.LF s)) with 1. cbn [Py.drop].
    rewrite !fmap_cons, rev_cons, strip_append_nl. f_equal. by apply IH.
  - rewrite Hr, !orb_false_r in Hc. apply Nat.eqb_eq in Hc. rewrite Hc.
    by apply IH.
Qed.

Lemma listed_read_lines content :
  Py.plain_breaks content = true →
  DownloadCifs.listed content
  = filter (λ s, s ≠ "" ∧ Py.startswith s "#" = false)
           (Py.strip <$> read_lines content).
Proof.
  intros H. unfold DownloadCifs.listed, read_lines, Py.readlines, Py.splitlines.
  rewrite strip_lines_agree; [done| |by eapply universal_newlines_out].
  by eapply plain_breaks_universal.
Qed.

(** The lines written by [write_text] are read back by the readers, up to
    white space at their ends. *)
Lemma strip_readlines_render ls :
  ls ≠ [] → Forall (λ l, Py.no_break l = true) ls →
  Py.strip <$> Py.readlines (render ls) = Py.strip <$> ls.
Proof.
  intros Hne Hall. unfold Py.readlines.
  rewrite universal_newlines_no_cr by (by apply all_chars_render).
  induction ls as [|l ls IH]; [done|].
  apply Forall_cons in Hall as [Hl Hall]. rewrite render_cons.
  rewrite readlines_go_line by (by apply no_break_not_newline).
  change (String.rev_app l "") with (String.rev l).
  rewrite !fmap_cons, rev_cons, rev_involutive, strip_append_nl. f_equal.
  destruct ls as [|l2 ls]; [done|]. by apply IH.
Qed.

(** X14.  On a file whose only line boundaries are LF and CR (where
    [str.splitlines] would break a line, a text file breaks it as well),
    deduplication loses no identifier and adds none: the file after [main]
    gives the checker the same set of expected identifiers, and the
    downloader a list with the same members. *)
Theorem dedup_keeps_identifiers (fs fs1 : files) (content : string)
    (evs : list event) :
  ids_file fs = Some content →
  main fs = Some (fs1, evs) →
  Py.plain_breaks content = true →
  ∃ content1, ids_file fs1 = Some content1
    ∧ CheckCifs.iter_ids content1 = CheckCifs.iter_ids content
    ∧ (∀ X, X ∈ DownloadCifs.listed content1 ↔ X ∈ DownloadCifs.listed content).
Proof.
  intros Hc Hmain Hplain.
  assert (∃ content1, ids_file fs1 = Some content1
            ∧ ∀ X, X ∈ DownloadCifs.listed content1
                   ↔ X ∈ DownloadCifs.listed content)
    as (content1 & Hc1 & Hsame).
  { revert Hmain. unfold main. rewrite Hc. case_bool_decide as Heq.
    { intros [= <- <-]. by exists content. }
    intros [= <- <-]. eexists. split; [done|]. intros X.
    set (text := read_lines content) in *.
    assert (Forall (λ l, Py.no_break l = true) (deduped text))
      as Hout by apply deduped_no_break, read_lines_no_break.
    rewrite (listed_read_lines content) by done. fold text.
    assert (∀ X, X ∈ DownloadCifs.listed (render (deduped text))
                 ↔ X ∈ filter (λ s, s ≠ "" ∧ Py.startswith s "#" = false)
                         (Py.strip <$> deduped text)) as ->.
    { intros Y. unfold DownloadCifs.listed.
      destruct (deduped text) as [|l ls] eqn:Hd.
      - change (Py.readlines (render [])) with [Py.nl].
        rewrite fmap_cons, filter_cons_False; [done|].
        intros [Hn _]. by apply Hn.
      - by rewrite strip_readlines_render. }
    rewrite !list_elem_of_filter, !list_elem_of_fmap. split.
    - intros [Hgood (l & -> & Hl)]. split; [done|]. exists l. split; [done|].
      rewrite deduped_keep_first in Hl. by apply keep_first_elem in Hl as [? _].
    - intros [Hgood (l & -> & Hl)]. split; [done|]. exists l. split; [done|].
      rewrite deduped_keep_first.
      destruct (keep_first_complete [] text l Hl) as [?|Hn]; [|done|].
      + apply bool_decide_eq_false. by destruct Hgood.
      + by apply elem_of_nil in Hn. }
  exists content1. split_and!; [done| |done].
  rewrite !iter_ids_listed. apply set_eq. intros X.
  by rewrite !elem_of_list_to_set.
Qed.

Lemma dedup_keeps_identifiers_witness :
  let content := ("# h" +:+ Py.nl +:+ "A" +:+ Py.nl +:+ " A" +:+ Py.nl
                  +:+ "A" +:+ Py.nl +:+ Py.nl +:+ "C")%string in
  let fs := Files (Some content) None in
  let fs1 := Files (Some (render ["# h"; "A"; " A"; "C"]))
                   (Some (render ["# h"; "A"; " A"; "A"; ""; "C"])) in
  ∃ content1, ids_file fs1 = Some content1
    ∧ CheckCifs.iter_ids content1 = CheckCifs.iter_ids content
    ∧ (∀ X, X ∈ DownloadCifs.listed content1 ↔ X ∈ DownloadCifs.listed content).
Proof.
  intros content fs fs1.
  apply (dedup_keeps_identifiers fs fs1 content
           [Wrote BACKUP_PATH (render ["# h"; "A"; " A"; "A"; ""; "C"]);
            Wrote IDS_PATH (render ["# h"; "A"; " A"; "C"]);
            PrintBackupWritten; PrintCounts 6 4]).
  - reflexivity.
  - by vm_compute.
  - by vm_compute.
Defined.

End dedup_identifiers.

(** ** download_cif_list.py: what a run writes *)

Section scraper_file.

Import DownloadCifList.

Lemma fresh_new mids : ∀ seen m,
  m ∈ fresh seen mids → (m ∉ seen) ∧ m ∈ mids.
Proof.
  induction mids as [|x mids IH]; intros seen m; [by intros ?%elem_of_nil|].
  cbn [fresh]. case_bool_decide as Hx.
  - intros [? ?]%IH. split; [done|by right].
  - intros [->|Hin]%elem_of_cons; [split; [done|left]|].
    apply IH in Hin as [Hn ?]. split; [|by right].
    intros ?. apply Hn. apply elem_of_union. by right.
Qed.

Lemma fresh_NoDup mids : ∀ seen, NoDup (fresh seen mids).
Proof.
  induction mids as [|x mids IH]; intros seen; [constructor|].
  cbn [fresh]. case_bool_decide as Hx; [apply IH|].
  constructor; [|apply IH]. intros [Hn _]%fresh_new. apply Hn.
  apply elem_of_union. left. by apply elem_of_singleton.
Qed.

Lemma fresh_set mids : ∀ seen : gset string,
  seen ∪ list_to_set (fresh seen mids) = seen ∪ list_to_set mids.
Proof.
  induction mids as [|x mids IH]; intros seen; [done|].
  cbn [fresh]. rewrite list_to_set_cons. case_bool_decide as Hx.
  - rewrite IH. apply set_eq. intros y.
    rewrite !elem_of_union, elem_of_singleton.
    split; [tauto|]. intros [?|[->|?]]; tauto.
  - rewrite list_to_set_cons, !(assoc_L (∪)).
    rewrite (comm_L (∪) seen {[x]}). apply IH.
Qed.

Lemma appended_nil st st' :
  file st' = file st → existing_ids st' = existing_ids st → appended st st' [].
Proof.
  intros Hf He. split_and!.
  - by rewrite Hf, append_nil_r.
  - by rewrite He, list_to_set_nil, (right_id_L ∅ (∪)).
  - constructor.
  - by intros m ?%elem_of_nil.
Qed.

Lemma appended_trans st st1 st2 new1 new2 :
  appended st st1 new1 → appended st1 st2 new2 →
  appended st st2 (new1 ++ new2).
Proof.
  intros (Hf1 & He1 & Hn1 & Hd1) (Hf2 & He2 & Hn2 & Hd2). split_and!.
  - by rewrite Hf2, Hf1, lines_of_app, append_assoc.
  - by rewrite He2, He1, list_to_set_app_L, (assoc_L (∪)).
  - apply NoDup_app. split_and!; [done| |done].
    intros m Hm1 Hm2. apply (Hd2 m Hm2). rewrite He1.
    apply elem_of_union. right. by apply elem_of_list_to_set.
  - intros m [?|Hm]%elem_of_app; [by apply Hd1|].
    intros Hin. apply (Hd2 m Hm). rewrite He1. apply elem_of_union. by left.
Qed.

Lemma process_page_appended p st :
  ∃ new, appended st (match process_page p st with
                      | inl (_, st') => st'
                      | inr st' => st'
                      end) new.
Proof.
  unfold process_page.
  destruct (rows p) as [|row rws]; [exists []; by apply appended_nil|].
  destruct (links p) as [|a ls] eqn:Hl; [exists []; by apply appended_nil|].
  rewrite write_links by (rewrite <- Hl; apply links_material).
  set (mids := omap material_id_of (a :: ls)).
  exists (fresh (existing_ids st) mids).
  assert (∀ n f, appended st
            (State (existing_ids st ∪ list_to_set mids)
                   (file st +:+ lines_of (fresh (existing_ids st) mids)) n f)
            (fresh (existing_ids st) mids)) as Happ.
  { intros n f. split_and!; [done| |apply fresh_NoDup|].
    - cbn [existing_ids]. by rewrite fresh_set.
    - by intros m [? _]%fresh_new. }
  destruct (next_btn p) as [| |classes]; [apply Happ..|].
  destruct (disabled (NextIn classes)); apply Happ.
Qed.

Lemma scrape_appended site net : ∀ st,
  ∃ new, appended st (scrape site net st).2 new.
Proof.
  induction net as [|ok net IH]; intros st.
  { exists []. by apply appended_nil. }
  rewrite scrape_cons. cbv zeta.
  set (st1 := State (existing_ids st) (file st) (page_no st)
                    (fetched st ++ [page_no st])).
  assert (appended st st1 []) as H01 by (by apply appended_nil).
  destruct ok.
  - destruct (process_page_appended (site (page_no st)) st1) as [new1 H1].
    destruct (process_page (site (page_no st)) st1) as [[why st2]|st2].
    + exists ([] ++ new1). by eapply appended_trans.
    + destruct (IH st2) as [new2 H2].
      exists (([] ++ new1) ++ new2).
      eapply appended_trans; [|done]. by eapply appended_trans.
  - destruct (IH st1) as [new2 H2]. exists ([] ++ new2).
    by eapply appended_trans.
Qed.

(** X15.  Whatever the site holds and however the requests go, the loop
    only appends to the output file, one line per identifier, never an
    identifier that was known at the start and never the same one twice;
    the set of known identifiers grows by exactly the appended ones. *)
Theorem scrape_appends_new (site : nat → page) (net : list bool) (st : state) :
  ∃ new,
    file (scrape site net st).2 = (file st +:+ lines_of new)%string
    ∧ existing_ids (scrape site net st).2 = existing_ids st ∪ list_to_set new
    ∧ NoDup new
    ∧ ∀ m, m ∈ new → m ∉ existing_ids st.
Proof. apply scrape_appended. Qed.

(** X16.  While requests fail the loop stays where it is: after any number
    of failed requests in a row it is still running, on the same page, with
    the identifiers and the file untouched, having asked for that page each
    time. *)
Theorem scrape_retries (site : nat → page) (n : nat) (st : state) :
  scrape site (replicate n false) st
  = (Running,
     State (existing_ids st) (file st) (page_no st)
           (fetched st ++ replicate n (page_no st))).
Proof.
  revert st. induction n as [|n IH]; intros st.
  { cbn. rewrite app_nil_r. by destruct st. }
  cbn [replicate]. rewrite scrape_cons. cbv zeta. rewrite IH.
  cbn [existing_ids file page_no fetched]. by rewrite <- app_assoc.
Qed.

End scraper_file.

(** ** download_cif_list.py: identifiers and restarts *)

Section scraper_ids.

Import DownloadCifList.

(** The part [partition] returns before the separator does not hold it. *)
Lemma partition_before sep s b a :
  sep ≠ "" →
  Py.partition sep s = Some (b, a) → Py.contains sep b = false.
Proof.
  intros Hsep Hp. unfold Py.contains.
  destruct (Py.partition sep b) as [[b1 b2]|] eqn:Hb; [|done].
  apply partition_Some in Hb. pose proof (partition_Some _ _ _ _ Hp) as Hs.
  rewrite Hb, !append_assoc in Hs.
  destruct (partition_first sep b1 (b2 +:+ sep +:+ a)) as (b0 & a0 & Hp0 & Hlen).
  rewrite <- Hs, Hp in Hp0. injection Hp0 as <- <-.
  rewrite Hb, !length_append in Hlen.
  destruct sep; [done|simpl in Hlen; lia].
Qed.

(** X17.  From a link target that contains /material/ the scraper takes the
    text between the first /material/ and the next one, or up to the end of
    the target when there is no next one; the identifier it takes never
    contains /material/.  In particular the target /material/ID gives ID. *)
Theorem material_id_of_link (href : string) :
  Py.contains MATERIAL href = true →
  ∃ b rest m,
    href = (b +:+ MATERIAL +:+ rest)%string
    ∧ Py.contains MATERIAL b = false
    ∧ material_id_of href = Some m
    ∧ Py.contains MATERIAL m = false
    ∧ ((Py.contains MATERIAL rest = false ∧ m = rest)
       ∨ ∃ a, rest = (m +:+ MATERIAL +:+ a)%string).
Proof.
  unfold Py.contains at 1. intros Hc.
  destruct (Py.partition MATERIAL href) as [[b rest]|] eqn:Hp; [|done].
  pose proof (partition_Some _ _ _ _ Hp) as Hs.
  assert (MATERIAL ≠ "") as Hsep by done.
  pose proof (partition_before _ _ _ _ Hsep Hp) as Hb.
  assert (String.length href = String.length b + 10 + String.length rest)
    as Hlen.
  { rewrite Hs, !length_append. simpl. lia. }
  unfold material_id_of, Py.split.
  destruct (String.length href) as [|n] eqn:Hn; [lia|].
  cbn [Py.split_upto]. rewrite Hp. cbn [lookup list_lookup].
  destruct n as [|n]; [lia|]. cbn [Py.split_upto].
  destruct (Py.partition MATERIAL rest) as [[m a]|] eqn:Hr.
  - exists b, rest, m. split_and!; [done..| |].
    + by eapply (partition_before MATERIAL rest).
    + right. exists a. by apply partition_Some.
  - exists b, rest, rest. split_and!; [done..| |].
    + unfold Py.contains. by rewrite Hr.
    + left. split; [|done]. unfold Py.contains. by rewrite Hr.
Qed.

Lemma material_id_of_link_witness :
  ∃ b rest m,
    "/material/2AgBrSe2-1.Ag_Br.0.1"
    = (b +:+ MATERIAL +:+ rest)%string
    ∧ Py.contains MATERIAL b = false
    ∧ material_id_of "/material/2AgBrSe2-1.Ag_Br.0.1" = Some m
    ∧ Py.contains MATERIAL m = false
    ∧ ((Py.contains MATERIAL rest = false ∧ m = rest)
       ∨ ∃ a, rest = (m +:+ MATERIAL +:+ a)%string).
Proof.
  apply (material_id_of_link "/material/2AgBrSe2-1.Ag_Br.0.1"). reflexivity.
Defined.

Lemma load_existing_step_filter lines : ∀ acc,
  foldl load_existing_step acc lines
  = acc ∪ list_to_set (filter (λ s, s ≠ "") (Py.strip <$> lines)).
Proof.
  induction lines as [|raw lines IH]; intros acc.
  { cbn. by rewrite (right_id_L ∅ (∪)). }
  cbn [foldl fmap list_fmap]. rewrite IH. unfold load_existing_step.
  case_bool_decide as Hb.
  - by rewrite filter_cons_False by (by intros ?).
  - rewrite filter_cons_True, list_to_set_cons by done.
    apply set_eq. intros x. rewrite !elem_of_union, elem_of_singleton. tauto.
Qed.

Lemma lines_of_cons m ms :
  lines_of (m :: ms) = (m +:+ String Py.LF (lines_of ms))%string.
Proof. done. Qed.

Lemma all_chars_lines_of ids :
  Forall (λ s, Py.all_chars Py.not_newline s = true) ids →
  Py.all_chars (λ c, negb (Ascii.eqb c Py.CR)) (lines_of ids) = true.
Proof.
  induction ids as [|l ids IH]; [done|]. intros [Hl Hall]%Forall_cons.
  rewrite lines_of_cons, all_chars_append, not_newline_no_cr by done.
  cbn [Py.all_chars andb]. by apply IH.
Qed.

Lemma strip_readlines_lines_of ids :
  Forall (λ s, Py.all_chars Py.not_newline s = true
               ∧ DownloadCifs.is_material_id s) ids →
  Py.strip <$> Py.readlines (lines_of ids) = ids.
Proof.
  intros Hall. unfold Py.readlines.
  rewrite universal_newlines_no_cr.
  2: { apply all_chars_lines_of. eapply Forall_impl; [done|]. by intros s [? _]. }
  induction ids as [|l ids IH]; [done|].
  apply Forall_cons in Hall as [[Hl [Hne Hstrip]] Hall].
  rewrite lines_of_cons, readlines_go_line by done.
  rewrite fmap_cons, IH by done. f_equal.
  change (String.rev_app l "") with (String.rev l).
  by rewrite rev_cons, rev_involutive, strip_append_nl.
Qed.

(** X18.  What the scraper appended is recognised when it starts again: for
    identifiers that are non-empty, stripped and free of line breaks, the
    set loaded from a file holding their lines is exactly their set, so a
    later run does not append any of them a second time. *)
Theorem load_existing_lines (ids : list string) (site : nat → page)
    (net : list bool) :
  Forall (λ s, Py.all_chars Py.not_newline s = true
               ∧ DownloadCifs.is_material_id s) ids →
  load_existing (Some (lines_of ids)) = list_to_set ids
  ∧ ∃ new, file (scrape site net (start (Some (lines_of ids)))).2
           = (lines_of ids +:+ lines_of new)%string
           ∧ ∀ m, m ∈ new → m ∉ ids.
Proof.
  intros Hids.
  assert (load_existing (Some (lines_of ids)) = list_to_set ids) as Hload.
  { unfold load_existing.
    rewrite load_existing_step_filter, strip_readlines_lines_of by done.
    rewrite (left_id_L ∅ (∪)). f_equal.
    clear -Hids. induction ids as [|x l IH]; [done|].
    apply Forall_cons in Hids as [[_ [Hne _]] Hids].
    rewrite filter_cons_True by done. by rewrite IH. }
  split; [done|].
  destruct (scrape_appended site net (start (Some (lines_of ids))))
    as (new & Hf & _ & _ & Hd).
  exists new. split; [done|]. intros m Hm Hin. apply (Hd m Hm).
  cbn [start existing_ids]. rewrite Hload. by apply elem_of_list_to_set.
Qed.

Lemma load_existing_lines_witness :
  let ids := ["2AgBrSe2-1.Ag_Br.0.1"; "b"] in
  let site := λ _ : nat, Page [["/material/b"]; ["/material/c"]] NoNext in
  load_existing (Some (lines_of ids)) = list_to_set ids
  ∧ ∃ new, file (scrape site [true] (start (Some (lines_of ids)))).2
           = (lines_of ids +:+ lines_of new)%string
           ∧ ∀ m, m ∈ new → m ∉ ids.
Proof.
  intros ids site. apply (load_existing_lines ids site [true]).
  repeat (apply Forall_cons; split; [by split|]). constructor.
Defined.

End scraper_ids.

(** ** download_cifs.py: the requests of a run *)

Section run_requests.

Import DownloadCifs.

Implicit Types (st : state) (ls : locals * state).

Lemma run_tasks_requests e tasks : ∀ ls,
  ∃ new, requests (run_tasks e ls tasks).2 = requests ls.2 ++ new
         ∧ new `sublist_of` (BASE_URL <$> tasks).
Proof.
  induction tasks as [|t tasks IH]; intros [l st].
  { exists []. rewrite app_nil_r. split; [done|]. apply sublist_nil_l. }
  rewrite run_tasks_cons.
  destruct (IH (run_task e (l, st) t)) as (new & Hnew & Hsub).
  destruct (run_task_effect e l st t) as (_ & _ & _ & Hreq & _).
  rewrite Hnew, Hreq, fmap_cons. cbn [snd].
  destruct (download_cif_requests e t st) as [-> | ->].
  - exists new. split; [done|]. by apply sublist_cons.
  - exists (BASE_URL t :: new). split; [by rewrite <- app_assoc|].
    by apply sublist_skip.
Qed.

(** X19.  Whatever the log and the directory hold, and however the run
    ends, a run requests only the download URLs of its tasks, each at most
    as often as the identifier is among the tasks; whatever was requested
    before stays in front.  So a run without tasks (one that ends in
    SystemExit, or that finds every identifier downloaded) requests
    nothing.  (The order of the requests of concurrent tasks is not
    stated.) *)
Theorem main_requests (e : env) (ids_file : option string) (st : state) :
  (∀ ts : list string, schedule e ts ≡ₚ ts) →
  ∃ new, requests (main e ids_file st).2 = requests st ++ new
         ∧ new ⊆+ (BASE_URL <$> main_tasks e ids_file st).
Proof.
  intros _.
  assert (∃ new, requests (main e ids_file st).2 = requests st ++ new
                 ∧ new ⊆+ (BASE_URL <$> main_tasks e ids_file st))
    as (new & Hnew & Hsub).
  { destruct (iter_material_ids ids_file) as [why|material_ids] eqn:Hids.
    { exists []. rewrite app_nil_r. split; [|apply submseteq_nil_l].
      unfold main. by rewrite Hids. }
    destruct (decide (log_disk st = LogUndecodable)) as [Hd|Hd].
    { exists []. rewrite app_nil_r. split; [|apply submseteq_nil_l].
      unfold main, load_log. by rewrite Hids, Hd. }
    destruct (main_effect e ids_file material_ids st Hids Hd)
      as (recorded & rest & -> & _ & -> & _).
    destruct (main_start_indexed st) as (_ & _ & _ & Hreq & _).
    destruct (run_tasks_requests e recorded (main_start st))
      as (new1 & Hnew1 & Hsub1).
    destruct (drain_effect e rest (run_tasks e (main_start st) recorded).2)
      as (_ & _ & new2 & Hnew2 & Hsub2).
    exists (new1 ++ new2). rewrite Hnew2, Hnew1, Hreq, <- app_assoc.
    split; [done|]. rewrite fmap_app.
    apply sublist_submseteq. by apply sublist_app. }
  by exists new.
Qed.

Lemma main_requests_witness :
  let e := Env (λ _, Response 200 "cif") (λ _, NoFault) (λ _, 0) (λ _, NoFault)
               (λ _, LogAbsent) (λ ts, reverse ts) in
  let ids_file := Some ("X" +:+ Py.nl +:+ "Y" +:+ Py.nl)%string in
  let st := State NoDir [] [] (LogRows [Row (Text "Z") (Text "False") true]) [] in
  ∃ new, requests (main e ids_file st).2 = requests st ++ new
         ∧ new ⊆+ (BASE_URL <$> main_tasks e ids_file st).
Proof.
  intros e ids_file st. apply (main_requests e ids_file st).
  intros ts. apply reverse_Permutation.
Defined.

End run_requests.
